(** * populate_swatches: swatch extraction and labelling

    A shallow embedding of [populate_swatches.py] and the properties of its
    labelling pipeline: text normalisation, series detection, the geometry
    filter, the nearest colour label and the extraction driver.

    Conventions of the embedding.
    - A Python [str] is a [string]; its characters are read as the code
      points 0..255 (Latin-1), on which Python's [str.isspace], the regex
      class [\s] and [str.lower] are the tables given below.
    - [None] is [None]; a value that may be [None] is an [option].
    - Pixel dimensions, page indices and xrefs are Python [int]s, here [Z].
    - The quotient [w / float(h)] of the geometry filter is an IEEE-754
      binary64 division, here [SFdiv 53 1024] of the standard library's
      specification of floating-point arithmetic.
    - The page coordinates handled by the colour locator are floats
      produced by the PDF library; the locator is written over a numeric
      interface [Num] that lists the operations the code applies to them. *)

From Stdlib Require Import ZArith QArith Qabs List Bool Ascii String Lia Lqa.
From Stdlib Require Import Floats.SpecFloat.
From Stdlib Require Import DecimalString Sorted.
From Stdlib Require DecimalPos DecimalZ.
Import ListNotations.

Local Close Scope Q_scope.
Local Open Scope string_scope.

(** ** Python primitives used by the program *)

Module Py.

(** [str.isspace] on one character, which is also the regex class [\s] for
  [str] patterns: TAB..CR, FS..US, SPACE, NEL and NBSP. *)
Definition isspace (c : ascii) : bool :=
let n := N_of_ascii c in
(((9 <=? n) && (n <=? 13)) || ((28 <=? n) && (n <=? 32))
 || (n =? 133) || (n =? 160))%N.

(** [str.lower] on one character: A..Z and the accented capitals
  U+00C0..U+00DE (the multiplication sign U+00D7 apart) move up by 32. *)
Definition lower_char (c : ascii) : ascii :=
let n := N_of_ascii c in
if (((65 <=? n) && (n <=? 90))
    || ((192 <=? n) && (n <=? 222) && negb (n =? 215)))%N
then ascii_of_N (n + 32) else c.

Fixpoint lower (s : string) : string :=
match s with
| EmptyString => EmptyString
| String c s' => String (lower_char c) (lower s')
end.

(** [re.sub(r"\s+", " ", s)]: every maximal run of whitespace becomes one
  space.  [in_run] tells that the previous character was whitespace. *)
Fixpoint sub_ws_runs (in_run : bool) (s : string) : string :=
match s with
| EmptyString => EmptyString
| String c s' =>
    if isspace c
    then if in_run then sub_ws_runs true s'
         else String " " (sub_ws_runs true s')
    else String c (sub_ws_runs false s')
end.

Definition re_sub_ws (s : string) : string := sub_ws_runs false s.

Fixpoint lstrip (s : string) : string :=
match s with
| EmptyString => EmptyString
| String c s' => if isspace c then lstrip s' else s
end.

Fixpoint rstrip (s : string) : string :=
match s with
| EmptyString => EmptyString
| String c s' =>
    match rstrip s' with
    | EmptyString => if isspace c then EmptyString else String c EmptyString
    | r => String c r
    end
end.

(** [s.strip()] *)
Definition strip (s : string) : string := rstrip (lstrip s).

(** [needle in hay] on strings: [needle] occurs as a substring of [hay]. *)
Fixpoint contains (needle hay : string) : bool :=
prefix needle hay
|| match hay with
   | EmptyString => false
   | String _ hay' => contains needle hay'
   end.

(** Truth value of a string: the empty string is false. *)
Definition truthy (s : string) : bool :=
match s with EmptyString => false | _ => true end.

(** [s or ""] for [s] a string or [None]. *)
Definition or_empty (s : option string) : string :=
match s with
| Some x => if truthy x then x else ""
| None => ""
end.

(** [x in xs] for a set (or list) of strings. *)
Definition str_in (x : string) (xs : list string) : bool :=
existsb (String.eqb x) xs.

(** [sorted(xs, key=len, reverse=True)]: stable, longest first.  An element
  is inserted behind the strictly longer ones and in front of those of its
  own length that came later in [xs]. *)
Fixpoint insert_len_desc (x : string) (l : list string) : list string :=
match l with
| [] => [x]
| y :: l' =>
    if (String.length x <? String.length y)%nat
    then y :: insert_len_desc x l'
    else x :: l
end.

Fixpoint sorted_len_desc (xs : list string) : list string :=
match xs with
| [] => []
| x :: xs' => insert_len_desc x (sorted_len_desc xs')
end.

(** [d.get(k)] on a dict with string keys, kept as an association list in
  insertion order. *)
Fixpoint dict_get {A : Type} (d : list (string * A)) (k : string) : option A :=
match d with
| [] => None
| (k', v) :: d' => if String.eqb k' k then Some v else dict_get d' k
end.

End Py.

(** ** Taxonomy *)

Definition SERIES_COLORS : list (string * list string) :=
  [ ("Timberline HDZ",
     [ "Barkwood"; "Charcoal"; "Hickory"; "Hunter Green"; "Mission Brown";
       "Pewter Gray"; "Shakewood"; "Slate"; "Weathered Wood";
       "Appalachian Sky"; "Nantucket Morning"; "Golden Harvest";
       "Cedar Falls"; "Biscayne Blue"; "Birchwood"; "Copper Canyon";
       "Driftwood"; "Fox Hollow Gray"; "Golden Amber"; "Oyster Gray";
       "Patriot Red"; "Sunset Brick"; "Williamsburg Slate" ]);
    ("Timberline UHDZ",
     [ "Barkwood"; "Charcoal"; "Pewter Gray"; "Shakewood"; "Slate";
       "Weathered Wood" ]);
    ("Timberline NS",
     [ "Weathered Wood"; "Barkwood"; "Charcoal"; "Pewter Gray"; "Shakewood";
       "Slate"; "Hickory" ]);
    ("Grand Sequoia",
     [ "Charcoal"; "Autumn Brown"; "Weathered Wood"; "Cedar Mesa Brown" ]);
    ("Camelot II",
     [ "Weathered Timber"; "Antique Slate"; "Charcoal"; "Barkwood";
       "Royal Slate" ]);
    ("Woodland", [ "Cedarwood Abbey"; "Castlewood Gray" ]);
    ("Slateline",
     [ "Royal Slate"; "Antique Slate"; "English Gray"; "Weathered Slate" ]);
    ("Timberline AS II",
     [ "Charcoal"; "Dusky Gray"; "Weathered Wood"; "Hickory"; "Adobe Sunset";
       "Pewter Gray"; "Barkwood"; "Shakewood"; "Slate" ]);
    ("Grand Sequoia AS", [ "Charcoal"; "Dusky Gray"; "Weathered Wood" ]);
    ("Timberline HDZ RS",
     [ "Sagewood"; "Stone Gray"; "Hickory"; "Aged Chestnut"; "Coastal Slate";
       "Sandalwood"; "Charcoal" ]);
    ("Grand Sequoia RS",
     [ "Sandalwood"; "Ocean Gray"; "Charcoal"; "Forest Brown"; "Sagewood" ]);
    ("Royal Sovereign", [ "Charcoal"; "Weathered Gray" ]) ].

(** [list(SERIES_COLORS.keys())] *)
Definition SERIES_NAMES : list string := map fst SERIES_COLORS.

(** [{c.lower() for colors in SERIES_COLORS.values() for c in colors}],
    a set, used for membership only. *)
Definition ALL_COLOR_LOWER : list string :=
  flat_map (fun entry => map Py.lower (snd entry)) SERIES_COLORS.

(** ** Text normaliser *)

(** [re.sub(r"\s+", " ", s or "").strip().lower()] *)
Definition norm (s : option string) : string :=
  Py.lower (Py.strip (Py.re_sub_ws (Py.or_empty s))).

(** ** Series detector *)

(** The [for series in ...: if norm(series) in t: return series] loop,
    followed by [return None]. *)
Fixpoint detect_loop (t : string) (names : list string) : option string :=
  match names with
  | [] => None
  | series :: rest =>
      if Py.contains (norm (Some series)) t then Some series
      else detect_loop t rest
  end.

Definition detect_series (text : option string) : option string :=
  let t := norm text in
  detect_loop t (Py.sorted_len_desc SERIES_NAMES).


(** ** Exceptions *)

Inductive exn : Type :=
| AttributeError   (* [None.strip()] *)
| LibraryError     (* an exception raised inside the PDF library *)
| SystemExit (code : Z).

Inductive result (A : Type) : Type :=
| Ok (a : A)
| Raise (e : exn).

Arguments Ok {A} a.
Arguments Raise {A} e.

(** ** Geometry filter *)

(** A decoded image: the attributes the program reads ([width], [height],
    [n], the number of components per pixel) and its samples. *)
Module Pixmap.
Record t : Type := mk { width : Z; height : Z; n : Z; samples : list Z }.
End Pixmap.

(** IEEE-754 binary64, the format of a Python [float]. *)
Module Float64.
Definition prec : Z := 53.
Definition emax : Z := 1024.

(** [float(i)]: the nearest double to the integer [i]. *)
Definition of_int (i : Z) : spec_float := binary_normalize prec emax i 0 false.

Definition div (x y : spec_float) : spec_float := SFdiv prec emax x y.

(** The literals [0.85] and [1.18], that is [0x1.b333333333333p-1] and
    [0x1.2e147ae147ae1p+0]. *)
Definition lit_0_85 : spec_float := S754_finite false 7656119366529843 (-53).
Definition lit_1_18 : spec_float := S754_finite false 5314247560297185 (-52).
End Float64.

Definition is_square_swatch (pix : Pixmap.t) : bool :=
  let w := Pixmap.width pix in
  let h := Pixmap.height pix in
  if (w <? 180)%Z || (h <? 180)%Z then false
  else
    let ar := Float64.div (Float64.of_int w) (Float64.of_int h) in
    SFleb Float64.lit_0_85 ar && SFleb ar Float64.lit_1_18.

(** ** Colour locator *)

(** The operations the locator applies to page coordinates. *)
Class Num (F : Type) : Type := {
  fadd : F -> F -> F;
  fsub : F -> F -> F;
  fdiv : F -> F -> F;
  fsqr : F -> F;            (* [x ** 2] *)
  fabs : F -> F;
  fltb : F -> F -> bool;    (* [x < y] *)
  fofZ : Z -> F;            (* an [int] literal met by a float *)
  f1e12 : F                 (* the literal [1e12] *)
}.

(** The program's own arithmetic: binary64.  CPython computes [x ** 2] with
    the C library's [pow], which need not round correctly; the squaring
    function is a parameter. *)
Definition binary64_pow (pow2 : spec_float -> spec_float) : Num spec_float := {|
  fadd := SFadd Float64.prec Float64.emax;
  fsub := SFsub Float64.prec Float64.emax;
  fdiv := Float64.div;
  fsqr := pow2;
  fabs := SFabs;
  fltb := SFltb;
  fofZ := Float64.of_int;
  f1e12 := Float64.of_int (10 ^ 12)
|}.

(** The correctly rounded product [x * x], a squaring function that is
    exact wherever a square is a double. *)
Definition rounded_square (x : spec_float) : spec_float :=
  SFmul Float64.prec Float64.emax x x.

(** Binary64 with that squaring function, on which the sample inputs are
    run. *)
#[export] Instance binary64_num : Num spec_float :=
  binary64_pow rounded_square.

(** Exact rational arithmetic. *)
Definition exact_num : Num Q := {|
  fadd := Qplus;
  fsub := Qminus;
  fdiv := Qdiv;
  fsqr := fun x => Qmult x x;
  fabs := Qabs;
  fltb := fun x y => match Qcompare x y with Lt => true | _ => false end;
  fofZ := inject_Z;
  f1e12 := inject_Z (10 ^ 12)
|}.

(** The rectangle attributes the locator reads. *)
Module Rect.
Record t (F : Type) : Type := mk { x0 : F; y0 : F; width : F; height : F }.
Arguments mk {F}.
Arguments x0 {F}.
Arguments y0 {F}.
Arguments width {F}.
Arguments height {F}.
End Rect.

(** A word record [(x0, y0, x1, y1, txt, ...)]; the remaining components are
    not read.  The parser gives every word a text, but the locator is also
    called on records whose text is [None]. *)
Module Word.
Record t (F : Type) : Type :=
  mk { x0 : F; y0 : F; x1 : F; y1 : F; txt : option string }.
Arguments mk {F}.
Arguments x0 {F}.
Arguments y0 {F}.
Arguments x1 {F}.
Arguments y1 {F}.
Arguments txt {F}.
End Word.

Section Locator.
Context {F : Type} {num : Num F}.

(** [txt.strip()], an [AttributeError] when [txt] is [None]. *)
Definition strip_method (txt : option string) : result string :=
  match txt with
  | Some s => Ok (Py.strip s)
  | None => Raise AttributeError
  end.

(** One turn of the [for ... in words] loop on the pair
    [(best_text, best_d)]. *)
Definition locator_step (cx cy : F) (allowed : list string)
    (best : option string * F) (w : Word.t F) : result (option string * F) :=
  let '(best_text, best_d) := best in
  match strip_method (Word.txt w) with
  | Raise e => Raise e
  | Ok raw =>
      let nm := norm (Some raw) in
      if Py.str_in nm allowed then
        let wx := fdiv (fadd (Word.x0 w) (Word.x1 w)) (fofZ 2) in
        let wy := fdiv (fadd (Word.y0 w) (Word.y1 w)) (fofZ 2) in
        if fltb (fabs (fsub wy cy)) (fofZ 260)
           && fltb (fabs (fsub wx cx)) (fofZ 260)
        then
          let d := fadd (fsqr (fsub wx cx)) (fsqr (fsub wy cy)) in
          if fltb d best_d then Ok (Some raw, d) else Ok (best_text, best_d)
        else Ok (best_text, best_d)
      else Ok (best_text, best_d)
  end.

Fixpoint locator_loop (cx cy : F) (allowed : list string)
    (best : option string * F) (words : list (Word.t F))
    : result (option string * F) :=
  match words with
  | [] => Ok best
  | w :: words' =>
      match locator_step cx cy allowed best w with
      | Raise e => Raise e
      | Ok best' => locator_loop cx cy allowed best' words'
      end
  end.

(** [set(map(norm, allowed_colors)) if allowed_colors else ALL_COLOR_LOWER]:
    [None] and the empty list are both false. *)
Definition allowed_set (allowed_colors : option (list string)) : list string :=
  match allowed_colors with
  | Some (c :: cs) => map (fun x => norm (Some x)) (c :: cs)
  | _ => ALL_COLOR_LOWER
  end.

Definition nearest_color_label (words : list (Word.t F)) (rect : Rect.t F)
    (allowed_colors : option (list string)) : result (option string) :=
  match words with
  | [] => Ok None
  | _ =>
      let cx := fadd (Rect.x0 rect) (fdiv (Rect.width rect) (fofZ 2)) in
      let cy := fadd (Rect.y0 rect) (fdiv (Rect.height rect) (fofZ 2)) in
      let allowed := allowed_set allowed_colors in
      match locator_loop cx cy allowed (None, f1e12) words with
      | Raise e => Raise e
      | Ok (best_text, _) => Ok best_text
      end
  end.

End Locator.

(** ** Extraction driver *)

Definition PDF_PATH : string := "assets/brochure.pdf".

(** What the PDF library answers about the opened document.  The calls the
    program wraps in [try/except] answer with a [result]; the others are
    taken to succeed. *)
Record Doc (F : Type) : Type := {
  (** [len(doc)] *)
  page_count : Z;
  (** [doc[pidx].get_text("words")] *)
  page_words : Z -> list (Word.t F);
  (** [doc[pidx].get_text()] *)
  page_text : Z -> option string;
  (** [doc.xref_length()] *)
  xref_length : Z;
  (** [doc.xref_get_key(xref, key)], a pair of strings *)
  xref_get_key : Z -> string -> result (string * string);
  (** [doc[pidx].get_image_rects(xref)] *)
  get_image_rects : Z -> Z -> list (Rect.t F);
  (** [fitz.Pixmap(doc, xref)] *)
  load_pixmap : Z -> result Pixmap.t;
  (** [fitz.Pixmap(fitz.csRGB, pix)] *)
  to_rgb : Pixmap.t -> result Pixmap.t;
  (** [fitz.Pixmap(pix, 0)] *)
  drop_alpha : Pixmap.t -> Pixmap.t
}.

Arguments page_count {F}.
Arguments page_words {F}.
Arguments page_text {F}.
Arguments xref_length {F}.
Arguments xref_get_key {F}.
Arguments get_image_rects {F}.
Arguments load_pixmap {F}.
Arguments to_rgb {F}.
Arguments drop_alpha {F}.

(** What a run leaves behind: the directories made, the files written (one
    entry per [pix.save], oldest first), the lines printed, and the decoding
    calls [fitz.Pixmap(doc, xref)] made (one entry per call, oldest first). *)
Record World : Type := {
  dirs : list string;
  files : list (string * Pixmap.t);
  stdout : list string;
  decodes : list Z
}.

Definition empty_world : World :=
  {| dirs := []; files := []; stdout := []; decodes := [] |}.

(** Computations that change the world and may raise. *)
Definition M (A : Type) : Type := World -> result A * World.

Definition ret {A : Type} (a : A) : M A := fun w => (Ok a, w).

Definition raise {A : Type} (e : exn) : M A := fun w => (Raise e, w).

Definition bind {A B : Type} (m : M A) (k : A -> M B) : M B :=
  fun w =>
    match m w with
    | (Ok a, w') => k a w'
    | (Raise e, w') => (Raise e, w')
    end.

Notation "x <- m ;; k" := (bind m (fun x => k))
  (at level 61, m at next level, right associativity).
Notation "m ;;; k" := (bind m (fun _ => k))
  (at level 61, right associativity).

(** A pure computation that may raise, run inside [M]. *)
Definition lift {A : Type} (r : result A) : M A := fun w => (r, w).

(** [for x in xs: s = body(x, s)] *)
Fixpoint for_each {A S : Type} (xs : list A) (body : A -> S -> M S) (s : S)
    : M S :=
  match xs with
  | [] => ret s
  | x :: xs' => s' <- body x s ;; for_each xs' body s'
  end.

(** [range(lo, hi)] *)
Definition py_range (lo hi : Z) : list Z :=
  map (fun i => (lo + Z.of_nat i)%Z) (seq 0 (Z.to_nat (hi - lo))).

(** [str(i)] for an [int]. *)
Definition str_of_int (i : Z) : string := NilZero.string_of_int (Z.to_int i).

(** [f"{i:02d}"]: zero-padded to a width of two. *)
Definition format_02d (i : Z) : string :=
  let s := str_of_int i in
  if (String.length s <? 2)%nat then "0" ++ s else s.

(** [os.path.join(a, b)] on POSIX: an absolute [b] replaces [a]; [b] is
    appended as it is to an [a] that is empty or ends with the separator,
    and after a separator otherwise. *)
Definition path_join (a b : string) : string :=
  if prefix "/" b then b
  else if negb (Py.truthy a)
          || String.eqb (substring (String.length a - 1) 1 a) "/"
  then a ++ b
  else a ++ "/" ++ b.

(** [print(line)] *)
Definition print (line : string) : M unit :=
  fun w => (Ok tt, {| dirs := dirs w; files := files w;
                      stdout := stdout w ++ [line]; decodes := decodes w |}).

(** [sys.exit(code)] *)
Definition sys_exit {A : Type} (code : Z) : M A := raise (SystemExit code).

(** [os.makedirs(p, exist_ok=True)] on the set of directories. *)
Definition makedirs (ds : list string) (p : string) : list string :=
  if Py.str_in p ds then ds else (ds ++ [p])%list.

(** [os.makedirs(p, exist_ok=True); return p] *)
Definition ensure_dir (p : string) : M string :=
  fun w => (Ok p, {| dirs := makedirs (dirs w) p; files := files w;
                     stdout := stdout w; decodes := decodes w |}).

(** [pix.save(out_path)] *)
Definition pix_save (pix : Pixmap.t) (out_path : string) : M unit :=
  fun w => (Ok tt, {| dirs := dirs w; files := files w ++ [(out_path, pix)];
                      stdout := stdout w; decodes := decodes w |}).

(** The two counters of [main]. *)
Record Counters : Type := {
  saved_swatches : Z;
  saved_raw : Z
}.

Section Driver.
Context {F : Type} {num : Num F}.
Variable doc : Doc F.

(** [fitz.Pixmap(doc, xref)], recorded in [decodes]. *)
Definition decode (xref : Z) : M (result Pixmap.t) :=
  fun w => (Ok (load_pixmap doc xref),
            {| dirs := dirs w; files := files w; stdout := stdout w;
               decodes := decodes w ++ [xref] |}).

Definition save_pixmap (pix : Pixmap.t) (out_path : string) : M unit :=
  let pix' :=
    if (4 <=? Pixmap.n pix)%Z then
      match to_rgb doc pix with
      | Ok rgb => rgb
      | Raise _ => drop_alpha doc pix
      end
    else pix in
  pix_save pix' out_path.

(** [series_hint and color_guess] as a truth test: both are there and
    not empty. *)
Definition both_set (series_hint color_guess : option string)
    : option (string * string) :=
  match series_hint, color_guess with
  | Some s, Some g => if Py.truthy s && Py.truthy g then Some (s, g) else None
  | _, _ => None
  end.

(** [SERIES_COLORS.get(series_hint) if series_hint else None] *)
Definition colors_for (series_hint : option string) : option (list string) :=
  match series_hint with
  | Some s => if Py.truthy s then Py.dict_get SERIES_COLORS s else None
  | None => None
  end.

(** The name of a fallback file. *)
Definition raw_name (pidx xref : Z) (pix : Pixmap.t) : string :=
  "page" ++ format_02d pidx ++ "_xref" ++ str_of_int xref
  ++ "_w" ++ str_of_int (Pixmap.width pix)
  ++ "_h" ++ str_of_int (Pixmap.height pix) ++ ".png".

(** The body of [for rect in rects]. *)
Definition process_rect (out_root raw_root : string) (pidx xref : Z)
    (series_hint : option string) (words : list (Word.t F))
    (pix : Pixmap.t) (rect : Rect.t F) (c : Counters) : M Counters :=
  if negb (is_square_swatch pix) then ret c
  else
    let allowed_colors := colors_for series_hint in
    color_guess <- lift (nearest_color_label words rect allowed_colors) ;;
    out_path <-
      (match both_set series_hint color_guess with
       | Some (s, g) =>
           out_dir <- ensure_dir (path_join out_root s) ;;
           ret (path_join out_dir (g ++ ".png"))
       | None =>
           let out_dir := raw_root in
           ret (path_join out_dir (raw_name pidx xref pix))
       end) ;;
    save_pixmap pix out_path ;;;
    match both_set series_hint color_guess with
    | Some _ => ret {| saved_swatches := saved_swatches c + 1;
                       saved_raw := saved_raw c |}
    | None => ret {| saved_swatches := saved_swatches c;
                     saved_raw := saved_raw c + 1 |}
    end.

(** The body of [for pidx in range(len(doc))]; the state is the pair of
    [appeared] and the counters.  The page caches hold what
    [get_text("words")] and [get_text()] answered for the page. *)
Definition process_page (out_root raw_root : string) (xref pidx : Z)
    (s : bool * Counters) : M (bool * Counters) :=
  let '(appeared, c) := s in
  let rects := get_image_rects doc pidx xref in
  match rects with
  | [] => ret (appeared, c)
  | _ =>
      let series_hint := detect_series (page_text doc pidx) in
      let words := page_words doc pidx in
      loaded <- decode xref ;;
      match loaded with
      | Raise _ => ret (true, c)
      | Ok pix =>
          c' <- for_each rects
                  (process_rect out_root raw_root pidx xref series_hint
                                words pix) c ;;
          ret (true, c')
      end
  end.

(** The body of [for xref in range(1, n)]. *)
Definition process_xref (out_root raw_root : string) (xref : Z)
    (c : Counters) : M Counters :=
  match xref_get_key doc xref "Subtype" with
  | Raise _ => ret c
  | Ok kv =>
      let subtype := Py.or_empty (Some (snd kv)) in
      if negb (Py.contains "/Image" subtype) then ret c
      else
        s <- for_each (py_range 0 (page_count doc))
               (process_page out_root raw_root xref) (false, c) ;;
        let '(appeared, c') := s in
        if negb appeared then ret c' else ret c'
  end.

Definition summary (c : Counters) : string :=
  "Done. Matched swatches: " ++ str_of_int (saved_swatches c)
  ++ ", Unlabeled (swatches_raw): " ++ str_of_int (saved_raw c).

(** [main] after the document was found and opened. *)
Definition extract : M unit :=
  out_root <- ensure_dir "swatches" ;;
  raw_root <- ensure_dir "swatches_raw" ;;
  let c0 := {| saved_swatches := 0; saved_raw := 0 |} in
  let n := xref_length doc in
  c <- for_each (py_range 1 n) (process_xref out_root raw_root) c0 ;;
  print (summary c) ;;;
  print ("If any color is mis-labeled, rename the file in "
         ++ "swatches/<Series>/ to the exact color text used in index.html.").

End Driver.

(** [main]; [input] is the document at [PDF_PATH], [None] when no file is
    there. *)
Definition main {F : Type} {num : Num F} (input : option (Doc F)) : M unit :=
  match input with
  | None =>
      print ("ERROR: " ++ PDF_PATH ++ " not found. Upload your brochure PDF "
             ++ "to assets/brochure.pdf and re-run.") ;;;
      sys_exit 1
  | Some doc => extract doc
  end.

(** The exit status of a run: an uncaught [SystemExit(code)] gives [code], any
    other uncaught exception gives 1, a normal end gives 0. *)
Definition exit_status (r : result unit) : Z :=
  match r with
  | Ok _ => 0
  | Raise (SystemExit code) => code
  | Raise _ => 1
  end.

(** ** The driver when unguarded library calls fail *)

(** The driver above takes the library calls that [main] leaves outside any
    [try] to succeed.  Here three of them may raise:
    [get_image_rects], which decodes the image it looks for before it
    compares it with the images of the page; the alpha-dropping copy
    [fitz.Pixmap(pix, 0)] of the [except] branch of [save_pixmap]; and
    [pix.save], which writes a PNG only from a gray or RGB image. *)
Module Unguarded.

Record Doc (F : Type) : Type := {
  (** [len(doc)] *)
  page_count : Z;
  (** [doc[pidx].get_text("words")] *)
  page_words : Z -> list (Word.t F);
  (** [doc[pidx].get_text()] *)
  page_text : Z -> option string;
  (** [doc.xref_length()] *)
  xref_length : Z;
  (** [doc.xref_get_key(xref, key)], a pair of strings *)
  xref_get_key : Z -> string -> result (string * string);
  (** [doc[pidx].get_image_rects(xref)] *)
  get_image_rects : Z -> Z -> result (list (Rect.t F));
  (** [fitz.Pixmap(doc, xref)] *)
  load_pixmap : Z -> result Pixmap.t;
  (** [fitz.Pixmap(fitz.csRGB, pix)] *)
  to_rgb : Pixmap.t -> result Pixmap.t;
  (** [fitz.Pixmap(pix, 0)] *)
  drop_alpha : Pixmap.t -> result Pixmap.t;
  (** [pix.save(out_path)]: whether the image can be written *)
  save : Pixmap.t -> string -> result unit
}.

Arguments page_count {F}.
Arguments page_words {F}.
Arguments page_text {F}.
Arguments xref_length {F}.
Arguments xref_get_key {F}.
Arguments get_image_rects {F}.
Arguments load_pixmap {F}.
Arguments to_rgb {F}.
Arguments drop_alpha {F}.
Arguments save {F}.

Section Driver.
Context {F : Type} {num : Num F}.
Variable doc : Doc F.

(** [fitz.Pixmap(doc, xref)], recorded in [decodes]. *)
Definition decode (xref : Z) : M (result Pixmap.t) :=
  fun w => (Ok (load_pixmap doc xref),
            {| dirs := dirs w; files := files w; stdout := stdout w;
               decodes := decodes w ++ [xref] |}).

(** [pix.save(out_path)] *)
Definition pix_save (pix : Pixmap.t) (out_path : string) : M unit :=
  fun w =>
    match save doc pix out_path with
    | Ok _ => (Ok tt, {| dirs := dirs w;
                         files := files w ++ [(out_path, pix)];
                         stdout := stdout w; decodes := decodes w |})
    | Raise e => (Raise e, w)
    end.

Definition save_pixmap (pix : Pixmap.t) (out_path : string) : M unit :=
  pix' <- (if (4 <=? Pixmap.n pix)%Z then
             match to_rgb doc pix with
             | Ok rgb => ret rgb
             | Raise _ => lift (drop_alpha doc pix)
             end
           else ret pix) ;;
  pix_save pix' out_path.

(** The body of [for rect in rects]. *)
Definition process_rect (out_root raw_root : string) (pidx xref : Z)
    (series_hint : option string) (words : list (Word.t F))
    (pix : Pixmap.t) (rect : Rect.t F) (c : Counters) : M Counters :=
  if negb (is_square_swatch pix) then ret c
  else
    let allowed_colors := colors_for series_hint in
    color_guess <- lift (nearest_color_label words rect allowed_colors) ;;
    out_path <-
      (match both_set series_hint color_guess with
       | Some (s, g) =>
           out_dir <- ensure_dir (path_join out_root s) ;;
           ret (path_join out_dir (g ++ ".png"))
       | None =>
           let out_dir := raw_root in
           ret (path_join out_dir (raw_name pidx xref pix))
       end) ;;
    save_pixmap pix out_path ;;;
    match both_set series_hint color_guess with
    | Some _ => ret {| saved_swatches := saved_swatches c + 1;
                       saved_raw := saved_raw c |}
    | None => ret {| saved_swatches := saved_swatches c;
                     saved_raw := saved_raw c + 1 |}
    end.

(** The body of [for pidx in range(len(doc))]. *)
Definition process_page (out_root raw_root : string) (xref pidx : Z)
    (s : bool * Counters) : M (bool * Counters) :=
  let '(appeared, c) := s in
  rects <- lift (get_image_rects doc pidx xref) ;;
  match rects with
  | [] => ret (appeared, c)
  | _ =>
      let series_hint := detect_series (page_text doc pidx) in
      let words := page_words doc pidx in
      loaded <- decode xref ;;
      match loaded with
      | Raise _ => ret (true, c)
      | Ok pix =>
          c' <- for_each rects
                  (process_rect out_root raw_root pidx xref series_hint
                                words pix) c ;;
          ret (true, c')
      end
  end.

(** The body of [for xref in range(1, n)]. *)
Definition process_xref (out_root raw_root : string) (xref : Z)
    (c : Counters) : M Counters :=
  match xref_get_key doc xref "Subtype" with
  | Raise _ => ret c
  | Ok kv =>
      let subtype := Py.or_empty (Some (snd kv)) in
      if negb (Py.contains "/Image" subtype) then ret c
      else
        s <- for_each (py_range 0 (page_count doc))
               (process_page out_root raw_root xref) (false, c) ;;
        let '(appeared, c') := s in
        if negb appeared then ret c' else ret c'
  end.

(** [main] after the document was found and opened. *)
Definition extract : M unit :=
  out_root <- ensure_dir "swatches" ;;
  raw_root <- ensure_dir "swatches_raw" ;;
  let c0 := {| saved_swatches := 0; saved_raw := 0 |} in
  let n := xref_length doc in
  c <- for_each (py_range 1 n) (process_xref out_root raw_root) c0 ;;
  print (summary c) ;;;
  print ("If any color is mis-labeled, rename the file in "
         ++ "swatches/<Series>/ to the exact color text used in index.html.").

End Driver.

Definition main {F : Type} {num : Num F} (input : option (Doc F)) : M unit :=
  match input with
  | None =>
      print ("ERROR: " ++ PDF_PATH ++ " not found. Upload your brochure PDF "
             ++ "to assets/brochure.pdf and re-run.") ;;;
      sys_exit 1
  | Some doc => extract doc
  end.

End Unguarded.

(** A library whose unguarded calls succeed, as the driver of the previous
    section takes it. *)
Definition unfailing {F : Type} (doc : Doc F) : Unguarded.Doc F := {|
  Unguarded.page_count := page_count doc;
  Unguarded.page_words := page_words doc;
  Unguarded.page_text := page_text doc;
  Unguarded.xref_length := xref_length doc;
  Unguarded.xref_get_key := xref_get_key doc;
  Unguarded.get_image_rects := fun pidx xref =>
    Ok (get_image_rects doc pidx xref);
  Unguarded.load_pixmap := load_pixmap doc;
  Unguarded.to_rgb := to_rgb doc;
  Unguarded.drop_alpha := fun pix => Ok (drop_alpha doc pix);
  Unguarded.save := fun _ _ => Ok tt
|}.

(** A document of one page with three image objects, each placed once.
    The stream of object 2 cannot be decoded: [fitz.Pixmap(doc, 2)] raises,
    and so does [get_image_rects(2)], which builds that pixmap first. *)
Definition corrupt_doc : Unguarded.Doc spec_float := {|
  Unguarded.page_count := 1;
  Unguarded.page_words := fun _ => [];
  Unguarded.page_text := fun _ => None;
  Unguarded.xref_length := 4;
  Unguarded.xref_get_key := fun _ _ => Ok ("name", "/Image");
  Unguarded.get_image_rects := fun _ xref =>
    if (xref =? 2)%Z then Raise LibraryError
    else Ok [Rect.mk (Float64.of_int 10) (Float64.of_int 10)
                     (Float64.of_int 90) (Float64.of_int 90)];
  Unguarded.load_pixmap := fun xref =>
    if (xref =? 2)%Z then Raise LibraryError
    else Ok (Pixmap.mk 200 200 3 []);
  Unguarded.to_rgb := fun pix => Ok pix;
  Unguarded.drop_alpha := fun pix => Ok pix;
  Unguarded.save := fun _ _ => Ok tt
|}.

(** A document of one page with two image objects, each placed once.
    Object 1 is a CMYK image without alpha whose conversion to RGB fails;
    its copy without alpha is the same CMYK image, which [pix.save] refuses
    to write as a PNG.  Object 2 is an RGB image. *)
Definition cmyk_doc : Unguarded.Doc spec_float := {|
  Unguarded.page_count := 1;
  Unguarded.page_words := fun _ => [];
  Unguarded.page_text := fun _ => None;
  Unguarded.xref_length := 3;
  Unguarded.xref_get_key := fun _ _ => Ok ("name", "/Image");
  Unguarded.get_image_rects := fun _ _ =>
    Ok [Rect.mk (Float64.of_int 10) (Float64.of_int 10)
                (Float64.of_int 90) (Float64.of_int 90)];
  Unguarded.load_pixmap := fun xref =>
    if (xref =? 1)%Z then Ok (Pixmap.mk 200 200 4 [7; 7; 7; 7]%Z)
    else Ok (Pixmap.mk 200 200 3 [7; 7; 7]%Z);
  Unguarded.to_rgb := fun pix =>
    if (4 <=? Pixmap.n pix)%Z then Raise LibraryError else Ok pix;
  Unguarded.drop_alpha := fun pix => Ok pix;
  Unguarded.save := fun pix _ =>
    if (4 <=? Pixmap.n pix)%Z then Raise LibraryError else Ok tt
|}.

(** * Specification vocabulary *)

(** ** Series detector *)

(** The series detector on a page text: [s] occurs in [text] when its
    normalised name is a substring of the normalised text. *)
Definition occurs_in (s : string) (text : option string) : bool :=
  Py.contains (norm (Some s)) (norm text).

Definition norm_len (s : string) : nat := String.length (norm (Some s)).

(** Position of a name in the taxonomy table. *)
Fixpoint index_of (s : string) (l : list string) : nat :=
  match l with
  | [] => 0
  | x :: l' => if String.eqb x s then 0 else S (index_of s l')
  end.

Definition table_index (s : string) : nat := index_of s SERIES_NAMES.

(** Longest-first order: [s] is tried before [s'] when its normalised name is
    longer, or as long and earlier in the table. *)
Definition tried_beforeb (s s' : string) : bool :=
  (norm_len s' <? norm_len s)%nat
  || ((norm_len s' =? norm_len s)%nat && (table_index s <? table_index s')%nat).

Definition tried_before (s s' : string) : Prop :=
  (norm_len s' < norm_len s)%nat
  \/ (norm_len s' = norm_len s /\ (table_index s < table_index s')%nat).

(** [a] stands strictly before the first [b] in [l]. *)
Fixpoint stands_before (a b : string) (l : list string) : bool :=
  match l with
  | [] => false
  | x :: l' =>
      if String.eqb x b then false
      else if String.eqb x a then Py.str_in b l'
      else stands_before a b l'
  end.

(** The order in which [detect_series] tries the known names. *)
Definition series_tried : list string := Py.sorted_len_desc SERIES_NAMES.


(** A name as the taxonomy writes them: it starts with a character that is
    not whitespace, and each whitespace character in it is a single space
    followed by a character that is not whitespace. *)
Definition starts_solid (s : string) : bool :=
  match s with
  | EmptyString => false
  | String c _ => negb (Py.isspace c)
  end.

Fixpoint tight (s : string) : bool :=
  match s with
  | EmptyString => true
  | String c s' =>
      (if Py.isspace c then Ascii.eqb c " " && starts_solid s' else true)
      && tight s'
  end.

Definition plain_name (s : string) : bool := starts_solid s && tight s.

(** ** Colour locator *)

Section LocatorSpec.
Context {F : Type} {num : Num F}.

(** The proximity test of the loop body on the two offsets of a word, and
    the squared distance it computes from them. *)
Definition near (dx dy : F) : bool :=
  fltb (fabs dy) (fofZ 260) && fltb (fabs dx) (fofZ 260).

Definition sqdist (dx dy : F) : F := fadd (fsqr dx) (fsqr dy).

(** Laws of the arithmetic that the locator relies on, for offsets that
    are [regular]: [<] is a strict order; the squared distance of two
    regular offsets that are both below the proximity bound is comparable
    with every number (it is not a NaN) and is below the initial
    [best_d]. *)
Class NumLaws (regular : F -> Prop) : Prop := {
  fltb_irrefl : forall a, fltb a a = false;
  fltb_trans : forall a b c,
    fltb a b = true -> fltb b c = true -> fltb a c = true;
  near_comparable : forall a b dx dy,
    regular dx -> regular dy ->
    near dx dy = true -> fltb a b = true ->
    fltb a (sqdist dx dy) = true \/ fltb (sqdist dx dy) b = true;
  near_below_initial : forall dx dy,
    regular dx -> regular dy ->
    near dx dy = true -> fltb (sqdist dx dy) f1e12 = true
}.

Definition rect_center (rect : Rect.t F) : F * F :=
  (fadd (Rect.x0 rect) (fdiv (Rect.width rect) (fofZ 2)),
   fadd (Rect.y0 rect) (fdiv (Rect.height rect) (fofZ 2))).

Definition word_center (w : Word.t F) : F * F :=
  (fdiv (fadd (Word.x0 w) (Word.x1 w)) (fofZ 2),
   fdiv (fadd (Word.y0 w) (Word.y1 w)) (fofZ 2)).

(** Centre-to-centre offsets of a word from a rectangle. *)
Definition offset_x (rect : Rect.t F) (w : Word.t F) : F :=
  fsub (fst (word_center w)) (fst (rect_center rect)).

Definition offset_y (rect : Rect.t F) (w : Word.t F) : F :=
  fsub (snd (word_center w)) (snd (rect_center rect)).

(** Squared Euclidean distance between the two centres. *)
Definition distance2 (rect : Rect.t F) (w : Word.t F) : F :=
  fadd (fsqr (offset_x rect w)) (fsqr (offset_y rect w)).

(** The colour names a label may be: the given colours, or every colour
    of every series. *)
Definition vocabulary (allowed_colors : option (list string)) : list string :=
  match allowed_colors with
  | Some (c :: cs) => c :: cs
  | _ => flat_map snd SERIES_COLORS
  end.

(** A word qualifies: its normalised text is the normalised form of a
    colour of the vocabulary, and both offsets are below 260. *)
Definition qualifies (allowed_colors : option (list string))
    (rect : Rect.t F) (w : Word.t F) : Prop :=
  (exists color, In color (vocabulary allowed_colors)
                 /\ norm (Word.txt w) = norm (Some color))
  /\ fltb (fabs (offset_x rect w)) (fofZ 260) = true
  /\ fltb (fabs (offset_y rect w)) (fofZ 260) = true.

(** The text of a word as the locator returns it: stripped, case kept. *)
Definition label_of (w : Word.t F) : string :=
  Py.strip (Py.or_empty (Word.txt w)).

(** [w] is the first of the nearest qualifying words of [words]: every
    qualifying word before it is strictly farther, no word after it is
    strictly nearer. *)
Definition first_nearest (allowed_colors : option (list string))
    (rect : Rect.t F) (words : list (Word.t F)) (w : Word.t F) : Prop :=
  exists before after,
    words = (before ++ w :: after)%list
    /\ qualifies allowed_colors rect w
    /\ (forall w', In w' before -> qualifies allowed_colors rect w' ->
                   fltb (distance2 rect w) (distance2 rect w') = true)
    /\ (forall w', In w' after -> qualifies allowed_colors rect w' ->
                   fltb (distance2 rect w') (distance2 rect w) = false).
(** The word carries a text. *)
Definition has_text (w : Word.t F) : Prop := Word.txt w <> None.

(** What the loop holds in [(best_text, best_d)] after the words [l]. *)
Definition kept (allowed_colors : option (list string)) (rect : Rect.t F)
    (l : list (Word.t F)) (best : option string * F) : Prop :=
  match fst best with
  | None =>
      snd best = f1e12
      /\ forall w, In w l -> ~ qualifies allowed_colors rect w
  | Some label =>
      exists w, first_nearest allowed_colors rect l w
                /\ label = label_of w /\ snd best = distance2 rect w
  end.
End LocatorSpec.

Arguments NumLaws F {num} regular.

(** ** Extraction driver *)

(** What a stretch of the run adds to the world: the directories asked for,
    the files written and the decoding calls, each oldest first. *)
Record Effects : Type := {
  made : list string;
  written : list (string * Pixmap.t);
  decoded : list Z
}.

Definition no_effects : Effects := {| made := []; written := []; decoded := [] |}.

Definition effects_app (e1 e2 : Effects) : Effects :=
  {| made := (made e1 ++ made e2)%list;
     written := (written e1 ++ written e2)%list;
     decoded := (decoded e1 ++ decoded e2)%list |}.

Definition effects_concat (es : list Effects) : Effects :=
  fold_right effects_app no_effects es.

Definition apply_effects (w : World) (e : Effects) : World :=
  {| dirs := fold_left makedirs (made e) (dirs w);
     files := (files w ++ written e)%list;
     stdout := stdout w;
     decodes := (decodes w ++ decoded e)%list |}.

(** A path segment that is not empty and does not start at the root. *)
Definition solid_segment (s : string) : bool :=
  Py.truthy s && negb (prefix "/" s).

(** A file of the labelled tree, and a file of the fallback bucket. *)
Definition labelled_path (p : string) : bool := prefix "swatches/" p.
Definition fallback_path (p : string) : bool := prefix "swatches_raw/" p.

Definition count_paths (f : string -> bool) (l : list (string * Pixmap.t)) : Z :=
  Z.of_nat (List.length (filter (fun e => f (fst e)) l)).

Definition add_counts (c : Counters) (k : Z * Z) : Counters :=
  {| saved_swatches := saved_swatches c + fst k;
     saved_raw := saved_raw c + snd k |}.

Section RunSpec.
Context {F : Type} {num : Num F}.
Variable doc : Doc F.

(** Every word the parser gave carries a text. *)
Definition words_have_text : Prop :=
  forall pidx, Forall has_text (page_words doc pidx).

(** The image as it is stored: converted to RGB when it has four or more
    components, by the channel-dropping copy when that conversion fails. *)
Definition stored (pix : Pixmap.t) : Pixmap.t :=
  if (Pixmap.n pix <? 4)%Z then pix
  else match to_rgb doc pix with
       | Ok rgb => rgb
       | Raise _ => drop_alpha doc pix
       end.

(** The colour label found for a placement. *)
Definition color_of (series_hint : option string) (words : list (Word.t F))
    (rect : Rect.t F) : option string :=
  match nearest_color_label words rect (colors_for series_hint) with
  | Ok g => g
  | Raise _ => None
  end.

(** Where a placement that passed the geometry filter is written. *)
Definition placement_path (series_hint color : option string)
    (pidx xref : Z) (pix : Pixmap.t) : string :=
  match series_hint, color with
  | Some s, Some g => "swatches/" ++ s ++ "/" ++ g ++ ".png"
  | _, _ =>
      "swatches_raw/page" ++ format_02d pidx ++ "_xref" ++ str_of_int xref
      ++ "_w" ++ str_of_int (Pixmap.width pix)
      ++ "_h" ++ str_of_int (Pixmap.height pix) ++ ".png"
  end.

Definition rect_effects (pidx xref : Z) (series_hint : option string)
    (words : list (Word.t F)) (pix : Pixmap.t) (rect : Rect.t F) : Effects :=
  if is_square_swatch pix then
    let color := color_of series_hint words rect in
    {| made := match series_hint, color with
               | Some s, Some _ => ["swatches/" ++ s]
               | _, _ => []
               end;
       written := [(placement_path series_hint color pidx xref pix,
                    stored pix)];
       decoded := [] |}
  else no_effects.

(** Confident and fallback files of one placement. *)
Definition rect_counts (series_hint : option string)
    (words : list (Word.t F)) (pix : Pixmap.t) (rect : Rect.t F) : Z * Z :=
  if is_square_swatch pix then
    match series_hint, color_of series_hint words rect with
    | Some _, Some _ => (1, 0)%Z
    | _, _ => (0, 1)%Z
    end
  else (0, 0)%Z.

Definition sum_counts (ks : list (Z * Z)) : Z * Z :=
  fold_right (fun k acc => (fst k + fst acc, snd k + snd acc)%Z) (0, 0)%Z ks.

(** The object is an image: its subtype can be read and names [/Image]. *)
Definition is_image_object (xref : Z) : bool :=
  match xref_get_key doc xref "Subtype" with
  | Ok kv => Py.contains "/Image" (snd kv)
  | Raise _ => false
  end.

(** The pages on which the object is placed. *)
Definition placed_on (xref pidx : Z) : bool :=
  match get_image_rects doc pidx xref with
  | [] => false
  | _ => true
  end.

Definition page_effects (xref pidx : Z) : Effects :=
  if placed_on xref pidx then
    effects_app
      {| made := []; written := []; decoded := [xref] |}
      match load_pixmap doc xref with
      | Ok pix =>
          effects_concat
            (map (rect_effects pidx xref (detect_series (page_text doc pidx))
                               (page_words doc pidx) pix)
                 (get_image_rects doc pidx xref))
      | Raise _ => no_effects
      end
  else no_effects.

Definition page_counts (xref pidx : Z) : Z * Z :=
  match load_pixmap doc xref with
  | Ok pix =>
      sum_counts
        (map (rect_counts (detect_series (page_text doc pidx))
                          (page_words doc pidx) pix)
             (get_image_rects doc pidx xref))
  | Raise _ => (0, 0)%Z
  end.

Definition pages : list Z := py_range 0 (page_count doc).

Definition xref_effects (xref : Z) : Effects :=
  if is_image_object xref
  then effects_concat (map (page_effects xref) pages)
  else no_effects.

Definition xref_counts (xref : Z) : Z * Z :=
  if is_image_object xref
  then sum_counts (map (page_counts xref) pages)
  else (0, 0)%Z.

Definition objects : list Z := py_range 1 (xref_length doc).

Definition run_effects : Effects := effects_concat (map xref_effects objects).

Definition run_counts : Z * Z := sum_counts (map xref_counts objects).
End RunSpec.

(** The closing hint of a run. *)
Definition HINT : string :=
  "If any color is mis-labeled, rename the file in swatches/<Series>/ to the exact color text used in index.html.".

(** The world a complete run leaves: the two roots are made, the effects of
    the run are added, and the summary and the hint are printed. *)
Definition after_run {F : Type} {num : Num F} (doc : Doc F) (w : World) : World :=
  let w' := apply_effects w
              (effects_app {| made := ["swatches"; "swatches_raw"];
                              written := []; decoded := [] |}
                           (run_effects doc)) in
  {| dirs := dirs w'; files := files w';
     stdout := (stdout w
                ++ [summary {| saved_swatches := fst (run_counts doc);
                               saved_raw := snd (run_counts doc) |};
                    HINT])%list;
     decodes := decodes w' |}.

(** A placement is labelled with confidence: a series and a colour. *)
Definition confident (series_hint color : option string) : bool :=
  match series_hint, color with
  | Some _, Some _ => true
  | _, _ => false
  end.

(** The decimal digit [d]. *)
Definition digit (d : Z) : ascii := ascii_of_N (48 + Z.to_N d).

(** The counts [k] tally the files of [e]: confident files lie in the
    labelled tree, fallback files in the fallback bucket, and there are no
    other files. *)
Definition tally (e : Effects) (k : Z * Z) : Prop :=
  fst k = count_paths labelled_path (written e)
  /\ snd k = count_paths fallback_path (written e)
  /\ (fst k + snd k)%Z = Z.of_nat (List.length (written e)).

(** [rect] is a placement of the image object [xref] on page [pidx], the
    object decodes to [pix], and [pix] passes the geometry filter. *)
Definition swatch_placement {F : Type} (doc : Doc F) (xref pidx : Z)
    (rect : Rect.t F) (pix : Pixmap.t) : Prop :=
  In xref (objects doc) /\ is_image_object doc xref = true
  /\ In pidx (pages doc) /\ In rect (get_image_rects doc pidx xref)
  /\ load_pixmap doc xref = Ok pix /\ is_square_swatch pix = true.

(** The decoding calls of one object: one for each page it is placed on. *)
Definition object_decodes {F : Type} (doc : Doc F) (xref : Z) : list Z :=
  if is_image_object doc xref
  then map (fun _ => xref) (filter (placed_on doc xref) (pages doc))
  else [].

(** A document of two pages on which the image object 1 is placed once
    each; the first page names a series and has a colour word beside the
    image. *)
Definition two_page_doc : Doc spec_float := {|
  page_count := 2;
  page_words := fun pidx =>
    if (pidx =? 0)%Z
    then [Word.mk (Float64.of_int 110) (Float64.of_int 40)
                  (Float64.of_int 170) (Float64.of_int 60) (Some "Barkwood")]
    else [];
  page_text := fun pidx =>
    if (pidx =? 0)%Z then Some "GAF Timberline HDZ Shingles" else Some "Notes";
  xref_length := 2;
  xref_get_key := fun _ _ => Ok ("name", "/Image");
  get_image_rects := fun _ _ =>
    [Rect.mk (Float64.of_int 10) (Float64.of_int 10)
             (Float64.of_int 90) (Float64.of_int 90)];
  load_pixmap := fun _ => Ok (Pixmap.mk 300 300 3 []);
  to_rgb := fun pix => Ok pix;
  drop_alpha := fun pix => pix
|}.

(** ** Geometry filter *)

(** The exact aspect ratio [width / height] of an image. *)
Definition aspect_ratio (pix : Pixmap.t) : Q :=
  (inject_Z (Pixmap.width pix) / inject_Z (Pixmap.height pix))%Q.

(** ** Sample inputs on the program's own arithmetic *)

(** A rectangle centred at (100, 100), the word "Charcoal" centred at
    (150, 140) and the word "Slate" centred at (500, 500). *)
Definition sample_rect : Rect.t spec_float :=
  Rect.mk (Float64.of_int 50) (Float64.of_int 50)
          (Float64.of_int 100) (Float64.of_int 100).

Definition charcoal_near : Word.t spec_float :=
  Word.mk (Float64.of_int 130) (Float64.of_int 135)
          (Float64.of_int 170) (Float64.of_int 145) (Some "Charcoal").

Definition slate_far : Word.t spec_float :=
  Word.mk (Float64.of_int 480) (Float64.of_int 495)
          (Float64.of_int 520) (Float64.of_int 505) (Some "Slate").

(** ** Doubles *)

(** The mantissa of [x] fits the 53 bits of a double. *)
Definition mantissa_fits (x : spec_float) : Prop :=
  match x with
  | S754_finite _ m _ => (Zpos (digits2_pos m) <= 53)%Z
  | _ => True
  end.

(** [x] is a number below [2 ^ k]: not a NaN, not the positive infinity,
    and when it is positive and finite its mantissa fits 53 bits and its
    exponent is at most [k - 53].  Of a double this says [x < 2 ^ k]. *)
Definition under (k : Z) (x : spec_float) : Prop :=
  match x with
  | S754_nan => False
  | S754_infinity s => s = true
  | S754_zero _ => True
  | S754_finite s m e =>
      s = true \/ ((Zpos (digits2_pos m) <= 53)%Z /\ (e <= k - 53)%Z)
  end.

(** What the locator needs of [x ** 2]: the square of a number below 512
    in magnitude is a number below [2 ^ 19].  The exact square is below
    [2 ^ 18]; a [pow] that is off by less than a factor of two qualifies,
    and so does the correctly rounded product. *)
Definition square_like (pow2 : spec_float -> spec_float) : Prop :=
  forall x, under 9 (SFabs x) -> under 19 (pow2 x).

(** [x] is a double: a NaN, an infinity, a zero, or a finite number in
    canonical form. *)
Definition is_double (x : spec_float) : Prop :=
  valid_binary Float64.prec Float64.emax x = true.

Definition rect_of_doubles (rect : Rect.t spec_float) : Prop :=
  is_double (Rect.x0 rect) /\ is_double (Rect.y0 rect)
  /\ is_double (Rect.width rect) /\ is_double (Rect.height rect).

Definition word_of_doubles (w : Word.t spec_float) : Prop :=
  is_double (Word.x0 w) /\ is_double (Word.y0 w)
  /\ is_double (Word.x1 w) /\ is_double (Word.y1 w).

(** The place of a number in the order of the doubles: its class (the
    infinities, the negative and the positive finite numbers, zero), then
    its exponent and its mantissa, both negated for a negative number.  A
    NaN has no place. *)
Definition float_key (x : spec_float) : option (Z * Z * Z) :=
  match x with
  | S754_nan => None
  | S754_infinity true => Some (-2, 0, 0)%Z
  | S754_infinity false => Some (2, 0, 0)%Z
  | S754_zero _ => Some (0, 0, 0)%Z
  | S754_finite true m e => Some (-1, - e, - Zpos m)%Z
  | S754_finite false m e => Some (1, e, Zpos m)%Z
  end.

Definition key_lt (a b : Z * Z * Z) : Prop :=
  let '(c1, e1, m1) := a in
  let '(c2, e2, m2) := b in
  (c1 < c2 \/ (c1 = c2 /\ (e1 < e2 \/ (e1 = e2 /\ m1 < m2))))%Z.

(** ** Normal forms *)

Definition starts_space (s : string) : bool :=
  match s with
  | EmptyString => false
  | String c _ => Py.isspace c
  end.

(** Every whitespace character of [s] is a space, and none is followed by
    another whitespace character. *)
Fixpoint single_spaced (s : string) : bool :=
  match s with
  | EmptyString => true
  | String c s' =>
      (if Py.isspace c then Ascii.eqb c " " && negb (starts_space s') else true)
      && single_spaced s'
  end.

(** ** Series detection over any table of names *)

(** [detect_series] with the list of series names as a parameter;
    [detect_series] is [detect_series_in SERIES_NAMES]. *)
Definition detect_series_in (names : list string) (text : option string)
    : option string :=
  let t := norm text in
  detect_loop t (Py.sorted_len_desc names).

(** The names of [names] whose length is [n], in their order. *)
Definition of_length (n : nat) (names : list string) : list string :=
  filter (fun s => Nat.eqb (String.length s) n) names.

(** ** Colour locator *)

(** The tests the loop body makes on one word: its normal form is in the
    allowed set and both offsets are below the bound. *)
Definition candidate {F : Type} {num : Num F}
    (allowed_colors : option (list string)) (rect : Rect.t F) (w : Word.t F)
    : bool :=
  Py.str_in (norm (Some (label_of w))) (allowed_set allowed_colors)
  && (fltb (fabs (offset_y rect w)) (fofZ 260)
      && fltb (fabs (offset_x rect w)) (fofZ 260)).

(** No character of [s] is whitespace. *)
Fixpoint no_whitespace (s : string) : bool :=
  match s with
  | EmptyString => true
  | String c s' => negb (Py.isspace c) && no_whitespace s'
  end.

(** The parser's words are single tokens: no text holds whitespace. *)
Definition single_tokens {F : Type} (words : list (Word.t F)) : Prop :=
  forall w t, In w words -> Word.txt w = Some t -> no_whitespace t = true.

(** ** Extraction driver *)

(** The file system a log of writes leaves: the content of a path is what
    was written to it last. *)
Fixpoint fs_lookup (log : list (string * Pixmap.t)) (p : string)
    : option Pixmap.t :=
  match log with
  | [] => None
  | (q, img) :: log' =>
      match fs_lookup log' p with
      | Some later => Some later
      | None => if String.eqb q p then Some img else None
      end
  end.

(** The character [c] occurs in [s]. *)
Fixpoint has_char (c : ascii) (s : string) : bool :=
  match s with
  | EmptyString => false
  | String d s' => Ascii.eqb d c || has_char c s'
  end.

(** A document of three pages, each showing two thumbnails of 100 by 100
    pixels beside a word record without text. *)
Definition thumbnail_doc : Doc spec_float := {|
  page_count := 3;
  page_words := fun _ => [Word.mk (Float64.of_int 0) (Float64.of_int 0)
                                  (Float64.of_int 0) (Float64.of_int 0) None];
  page_text := fun _ => Some "Timberline HDZ";
  xref_length := 3;
  xref_get_key := fun _ _ => Ok ("name", "/Image");
  get_image_rects := fun _ _ =>
    [Rect.mk (Float64.of_int 10) (Float64.of_int 10)
             (Float64.of_int 30) (Float64.of_int 30)];
  load_pixmap := fun _ => Ok (Pixmap.mk 100 100 3 []);
  to_rgb := fun pix => Ok pix;
  drop_alpha := fun pix => pix
|}.

(** *** Reading a fallback file name back *)

(** The integer a decimal numeral stands for. *)
Definition int_of_str (s : string) : option Z :=
  option_map Z.of_int (NilZero.int_of_string s).

(** [s] without the prefix [p]. *)
Fixpoint drop_prefix (p s : string) : option string :=
  match p, s with
  | EmptyString, _ => Some s
  | String a p', String b s' =>
      if Ascii.eqb a b then drop_prefix p' s' else None
  | String _ _, EmptyString => None
  end.

(** [s] cut at the first [c]: what stands before it and what follows. *)
Fixpoint split_at (c : ascii) (s : string) : option (string * string) :=
  match s with
  | EmptyString => None
  | String d s' =>
      if Ascii.eqb d c then Some (EmptyString, s')
      else match split_at c s' with
           | Some (a, b) => Some (String d a, b)
           | None => None
           end
  end.

(** The page index, xref, width and height a name of the form
    [page<NN>_xref<ref>_w<W>_h<H>.png] tells. *)
Definition parse_raw_name (name : string) : option (Z * Z * Z * Z) :=
  match drop_prefix "page" name with
  | None => None
  | Some r1 =>
  match split_at "_" r1 with
  | None => None
  | Some (a, r2) =>
  match drop_prefix "xref" r2 with
  | None => None
  | Some r3 =>
  match split_at "_" r3 with
  | None => None
  | Some (b, r4) =>
  match drop_prefix "w" r4 with
  | None => None
  | Some r5 =>
  match split_at "_" r5 with
  | None => None
  | Some (c, r6) =>
  match drop_prefix "h" r6 with
  | None => None
  | Some r7 =>
  match split_at "." r7 with
  | None => None
  | Some (d, r8) =>
      if String.eqb r8 "png" then
        match int_of_str a, int_of_str b, int_of_str c, int_of_str d with
        | Some pidx, Some xref, Some w, Some h => Some (pidx, xref, w, h)
        | _, _, _, _ => None
        end
      else None
  end end end end end end end end.

(** *** Runs that are cut short *)

(** From [w] to [w'] nothing was printed and no written file was lost. *)
Definition silent_step (w w' : World) : Prop :=
  stdout w' = stdout w /\ exists more, files w' = (files w ++ more)%list.

(** A computation that ends normally or by raising [e], in a silent step. *)
Definition ends_or_raises {S : Type} (e : exn) (m : M S) : Prop :=
  forall w, exists r w',
    m w = (r, w') /\ silent_step w w'
    /\ (r = Raise e \/ exists s, r = Ok s).

(** A computation that raises [e], in a silent step. *)
Definition always_raises {S : Type} (e : exn) (m : M S) : Prop :=
  forall w, exists w', m w = (Raise e, w') /\ silent_step w w'.

(** A document of one page that shows a swatch beside a word record
    without text. *)
Definition textless_doc : Doc spec_float := {|
  page_count := 1;
  page_words := fun _ => [Word.mk (Float64.of_int 0) (Float64.of_int 0)
                                  (Float64.of_int 0) (Float64.of_int 0) None];
  page_text := fun _ => Some "Timberline HDZ";
  xref_length := 2;
  xref_get_key := fun _ _ => Ok ("name", "/Image");
  get_image_rects := fun _ _ =>
    [Rect.mk (Float64.of_int 10) (Float64.of_int 10)
             (Float64.of_int 90) (Float64.of_int 90)];
  load_pixmap := fun _ => Ok (Pixmap.mk 300 300 3 []);
  to_rgb := fun pix => Ok pix;
  drop_alpha := fun pix => pix
|}.

(** * Properties *)

(** ** Text normaliser and series detector *)

Lemma tried_before_iff s s' : tried_beforeb s s' = true <-> tried_before s s'.
Proof.
  unfold tried_beforeb, tried_before.
  rewrite orb_true_iff, andb_true_iff, !Nat.ltb_lt, Nat.eqb_eq. tauto.
Qed.

Lemma str_in_In x l : Py.str_in x l = true <-> In x l.
Proof.
  unfold Py.str_in. rewrite existsb_exists. split.
  - intros [y [Hy He]]. apply String.eqb_eq in He. now subst.
  - intros H. exists x. split; [assumption | apply String.eqb_refl].
Qed.

Section DetectLoop.
Variable t : string.

Let hit (s : string) : bool := Py.contains (norm (Some s)) t.

Lemma detect_loop_None l :
  detect_loop t l = None <-> forall s, In s l -> hit s = false.
Proof.
  induction l as [|x l IH]; simpl.
  - split; [intros _ s [] | reflexivity].
  - fold (hit x). destruct (hit x) eqn:Hx.
    + split; [discriminate|]. intros H. specialize (H x (or_introl eq_refl)).
      congruence.
    + rewrite IH. split.
      * intros H s [<-|Hs]; auto.
      * intros H s Hs. apply H. now right.
Qed.

Lemma detect_loop_Some l s :
  detect_loop t l = Some s <->
  In s l /\ hit s = true
  /\ forall s', stands_before s' s l = true -> hit s' = false.
Proof.
  induction l as [|x l IH]; simpl.
  - split; [discriminate | intros [[] _]].
  - fold (hit x). destruct (String.eqb_spec x s) as [->|Hne].
    + destruct (hit s) eqn:Hs.
      * split; [intros _|reflexivity].
        repeat split; auto. discriminate.
      * split.
        -- intros H. apply IH in H. destruct H as [_ [H _]].
           unfold hit in *. congruence.
        -- intros [_ [H _]]. discriminate.
    + destruct (hit x) eqn:Hx.
      * split.
        -- intros H. congruence.
        -- intros [[H|Hin] [Hs Hb]]; [congruence|].
           specialize (Hb x). rewrite String.eqb_refl in Hb.
           apply str_in_In in Hin. specialize (Hb Hin). congruence.
      * rewrite IH. split.
        -- intros [Hin [Hs Hb]]. repeat split; auto.
           intros s'. destruct (String.eqb_spec x s') as [<-|Hne'].
           ++ intros _. exact Hx.
           ++ apply Hb.
        -- intros [[H|Hin] [Hs Hb]]; [congruence|]. repeat split; auto.
           intros s' Hs'. apply Hb.
           destruct (String.eqb_spec x s') as [<-|Hne']; [|assumption].
           now apply str_in_In.
Qed.
End DetectLoop.

Lemma series_tried_perm s : In s series_tried <-> In s SERIES_NAMES.
Proof.
  assert (H : forallb (fun x => Py.str_in x SERIES_NAMES) series_tried = true
              /\ forallb (fun x => Py.str_in x series_tried) SERIES_NAMES = true)
    by (split; vm_compute; reflexivity).
  destruct H as [H1 H2]. rewrite forallb_forall in H1, H2. split; intros Hs.
  - apply str_in_In. now apply H1.
  - apply str_in_In. now apply H2.
Qed.

(** On the known names the raw length, which the sort uses, is the length
    of the normalised name; the sorted list is the longest-first order. *)
Lemma series_raw_len s : In s SERIES_NAMES -> String.length s = norm_len s.
Proof.
  intros Hs.
  assert (H : forallb (fun x => (String.length x =? norm_len x)%nat)
                      SERIES_NAMES = true) by (vm_compute; reflexivity).
  rewrite forallb_forall in H. apply Nat.eqb_eq. now apply H.
Qed.

Lemma series_tried_order a b :
  In a SERIES_NAMES -> In b SERIES_NAMES -> a <> b ->
  stands_before a b series_tried = tried_beforeb a b.
Proof.
  intros Ha Hb Hab.
  assert (H : forallb (fun x => forallb (fun y =>
                 String.eqb x y
                 || Bool.eqb (stands_before x y series_tried)
                             (tried_beforeb x y)) SERIES_NAMES)
               SERIES_NAMES = true) by (vm_compute; reflexivity).
  rewrite forallb_forall in H. specialize (H a Ha).
  rewrite forallb_forall in H. specialize (H b Hb).
  apply orb_true_iff in H. destruct H as [H|H].
  - apply String.eqb_eq in H. contradiction.
  - now apply Bool.eqb_prop.
Qed.

Lemma stands_before_In a b l : stands_before a b l = true -> In a l.
Proof.
  induction l as [|x l IH]; simpl; [discriminate|].
  destruct (String.eqb_spec x b); [discriminate|].
  destruct (String.eqb_spec x a); auto.
Qed.

Lemma stands_before_irrefl a l : stands_before a a l = false.
Proof.
  induction l as [|x l IH]; simpl; [reflexivity|].
  destruct (String.eqb_spec x a); auto.
Qed.

Lemma detect_series_Some text s :
  detect_series text = Some s <->
  In s SERIES_NAMES /\ occurs_in s text = true
  /\ forall s', In s' SERIES_NAMES -> occurs_in s' text = true -> s' <> s ->
                tried_before s s'.
Proof.
  unfold detect_series. fold series_tried. rewrite detect_loop_Some.
  rewrite series_tried_perm. unfold occurs_in.
  split; intros [Hin [Hs Hb]]; repeat split; auto.
  - intros s' Hin' Hs' Hne. apply tried_before_iff.
    rewrite <- series_tried_order by auto.
    destruct (stands_before s s' series_tried) eqn:E; [reflexivity|].
    assert (Hs'b : stands_before s' s series_tried = true).
    { rewrite series_tried_order by auto.
      assert (H : forallb (fun x => forallb (fun y =>
                 String.eqb x y || tried_beforeb x y || tried_beforeb y x)
                 SERIES_NAMES) SERIES_NAMES = true) by (vm_compute; reflexivity).
      rewrite forallb_forall in H. specialize (H s Hin).
      rewrite forallb_forall in H. specialize (H s' Hin').
      rewrite <- (series_tried_order s s') in H by auto. rewrite E in H.
      destruct (String.eqb_spec s s') as [->|_]; [contradiction|].
      exact H. }
    apply Hb in Hs'b. congruence.
  - intros s' Hs'. destruct (Py.contains (norm (Some s')) (norm text)) eqn:E;
      [|reflexivity].
    assert (Hin' : In s' SERIES_NAMES)
      by (apply series_tried_perm; eapply stands_before_In; eauto).
    destruct (String.eqb_spec s' s) as [->|Hne].
    + rewrite stands_before_irrefl in Hs'. discriminate.
    + specialize (Hb s' Hin' E Hne).
      apply tried_before_iff in Hb.
      rewrite <- series_tried_order in Hb by auto.
      assert (H : forallb (fun x => forallb (fun y =>
                 negb (stands_before x y series_tried
                       && stands_before y x series_tried))
                 SERIES_NAMES) SERIES_NAMES = true) by (vm_compute; reflexivity).
      rewrite forallb_forall in H. specialize (H s Hin).
      rewrite forallb_forall in H. specialize (H s' Hin').
      rewrite Hb, Hs' in H. discriminate.
Qed.

Lemma detect_series_None text :
  detect_series text = None <->
  forall s, In s SERIES_NAMES -> occurs_in s text = false.
Proof.
  unfold detect_series. fold series_tried. rewrite detect_loop_None.
  unfold occurs_in. split; intros H s Hs; apply H; now apply series_tried_perm.
Qed.

(** *** A name written in the page text is seen by the detector *)

Lemma prefix_app s b : prefix s (s ++ b) = true.
Proof.
  induction s as [|c s IH]; simpl; [now destruct b|].
  destruct (ascii_dec c c); [assumption | contradiction].
Qed.

Lemma contains_prefix s t : prefix s t = true -> Py.contains s t = true.
Proof. intros H. destruct t; cbn [Py.contains]; rewrite H; reflexivity. Qed.

Lemma contains_app s a b : Py.contains s (a ++ s ++ b) = true.
Proof.
  induction a as [|c a IH].
  - cbn [append]. apply contains_prefix, prefix_app.
  - cbn [append Py.contains]. rewrite IH. apply orb_true_r.
Qed.

Lemma prefix_split s t : prefix s t = true -> exists b, t = s ++ b.
Proof.
  revert t. induction s as [|c s IH]; intros t H.
  - exists t. reflexivity.
  - destruct t as [|c' t]; simpl in H; [discriminate|].
    destruct (ascii_dec c c') as [->|]; [|discriminate].
    destruct (IH t H) as [b ->]. exists b. reflexivity.
Qed.

Lemma contains_split s t :
  Py.contains s t = true -> exists a b, t = a ++ s ++ b.
Proof.
  induction t as [|c t IH]; cbn [Py.contains]; intros H.
  - rewrite orb_false_r in H. apply prefix_split in H. destruct H as [b Hb].
    exists "", b. exact Hb.
  - apply orb_true_iff in H. destruct H as [H|H].
    + apply prefix_split in H. destruct H as [b Hb]. exists "", b. exact Hb.
    + destruct (IH H) as [a [b ->]]. exists (String c a), b. reflexivity.
Qed.

Lemma sub_ws_runs_solid r s :
  starts_solid s = true -> Py.sub_ws_runs r s = Py.sub_ws_runs false s.
Proof.
  destruct s as [|c s]; simpl; [discriminate|].
  destruct (Py.isspace c); [discriminate | reflexivity].
Qed.

Lemma sub_ws_runs_app a : forall r x,
  starts_solid x = true ->
  Py.sub_ws_runs r (a ++ x) = Py.sub_ws_runs r a ++ Py.sub_ws_runs false x.
Proof.
  induction a as [|c a IH]; intros r x Hx; simpl.
  - now apply sub_ws_runs_solid.
  - destruct (Py.isspace c); [destruct r|]; simpl; rewrite IH by assumption;
      reflexivity.
Qed.

Lemma sub_ws_runs_tight s : forall b,
  tight s = true ->
  Py.sub_ws_runs false (s ++ b) = s ++ Py.sub_ws_runs false b.
Proof.
  induction s as [|c s IH]; intros b Ht; simpl; [reflexivity|].
  simpl in Ht. apply andb_true_iff in Ht. destruct Ht as [Hc Ht].
  destruct (Py.isspace c) eqn:Ec.
  - apply andb_true_iff in Hc. destruct Hc as [Hsp Hs].
    apply Ascii.eqb_eq in Hsp. subst c.
    rewrite (sub_ws_runs_solid true).
    + now rewrite IH.
    + destruct s; [discriminate | exact Hs].
  - now rewrite IH.
Qed.

Lemma lstrip_app a : forall x,
  starts_solid x = true -> exists a', Py.lstrip (a ++ x) = a' ++ x.
Proof.
  induction a as [|c a IH]; intros x Hx; simpl.
  - exists "". destruct x as [|d x]; simpl in *; [discriminate|].
    destruct (Py.isspace d); [discriminate | reflexivity].
  - destruct (Py.isspace c).
    + apply IH, Hx.
    + exists (String c a). reflexivity.
Qed.

Lemma rstrip_app a : forall b,
  Py.rstrip (a ++ b) =
  match Py.rstrip b with
  | EmptyString => Py.rstrip a
  | r => a ++ r
  end.
Proof.
  induction a as [|c a IH]; intros b; simpl.
  - now destruct (Py.rstrip b).
  - rewrite IH. destruct (Py.rstrip b); [reflexivity|].
    destruct a; reflexivity.
Qed.

Lemma rstrip_keeps s b :
  Py.rstrip s = s -> s <> "" -> exists b', Py.rstrip (s ++ b) = s ++ b'.
Proof.
  intros Hs Hne. rewrite rstrip_app. destruct (Py.rstrip b) as [|d r].
  - exists "". rewrite Hs. clear. induction s; simpl; congruence.
  - exists (String d r). reflexivity.
Qed.

Lemma lower_app a b : Py.lower (a ++ b) = Py.lower a ++ Py.lower b.
Proof. induction a as [|c a IH]; simpl; congruence. Qed.

Lemma append_assoc (a b c : string) : (a ++ b) ++ c = a ++ b ++ c.
Proof. induction a as [|x a IH]; simpl; congruence. Qed.

Lemma norm_keeps_plain_name s a b :
  plain_name s = true -> Py.rstrip s = s ->
  exists a' b', norm (Some (a ++ s ++ b)) = a' ++ Py.lower s ++ b'.
Proof.
  intros Hp Hr. apply andb_true_iff in Hp. destruct Hp as [Hs Ht].
  assert (Hne : s <> "") by (destruct s; [discriminate | congruence]).
  assert (Hsb : forall y, starts_solid (s ++ y) = true)
    by (intros y; destruct s; [discriminate | exact Hs]).
  unfold norm, Py.strip, Py.re_sub_ws.
  assert (Et : Py.or_empty (Some (a ++ s ++ b)) = a ++ s ++ b)
    by (simpl; destruct (a ++ s ++ b); reflexivity).
  rewrite Et, sub_ws_runs_app by apply Hsb.
  rewrite sub_ws_runs_tight by assumption.
  destruct (lstrip_app (Py.sub_ws_runs false a) (s ++ Py.sub_ws_runs false b)
              (Hsb _)) as [a' Ea].
  rewrite Ea, rstrip_app.
  destruct (rstrip_keeps s (Py.sub_ws_runs false b) Hr Hne) as [b' Eb].
  rewrite Eb.
  destruct (s ++ b') eqn:E.
  - destruct s; [congruence | discriminate].
  - rewrite <- E. exists (Py.lower a'), (Py.lower b').
    now rewrite !lower_app.
Qed.

Lemma series_names_plain s :
  In s SERIES_NAMES ->
  plain_name s = true /\ Py.rstrip s = s /\ norm (Some s) = Py.lower s.
Proof.
  intros Hs.
  assert (H : forallb (fun x => plain_name x && String.eqb (Py.rstrip x) x
                                && String.eqb (norm (Some x)) (Py.lower x))
                      SERIES_NAMES = true) by (vm_compute; reflexivity).
  rewrite forallb_forall in H. specialize (H s Hs).
  apply andb_true_iff in H. destruct H as [H H3].
  apply andb_true_iff in H. destruct H as [H1 H2].
  apply String.eqb_eq in H2, H3. auto.
Qed.

(** A page text in which a known series name is written, whatever stands
    around it, has that name among the names the detector sees. *)
Lemma written_name_occurs s text :
  In s SERIES_NAMES -> Py.contains s text = true ->
  occurs_in s (Some text) = true.
Proof.
  intros Hs Hc. destruct (series_names_plain s Hs) as [Hp [Hr Hn]].
  destruct (contains_split _ _ Hc) as [a [b ->]].
  destruct (norm_keeps_plain_name s a b Hp Hr) as [a' [b' E]].
  unfold occurs_in. rewrite E, Hn. apply contains_app.
Qed.

(** *** The series detector returns the first name, longest first, that
    occurs in the page text *)

(** C1, as the code has it.  [detect_series] returns the known series
    name that occurs in the normalised page text and is tried before every
    other known name that occurs there, the names being tried longest
    normalised name first (names of one length in table order); it returns
    none exactly when no known name occurs.  Hence, for known names [S1] and
    [S2] with [norm S1] a substring of [norm S2] and [S2] longer, a page
    text that contains [S2] never yields [S1]; it yields a name [S3] at
    least as long as [S2], which is [S2] itself unless another name that
    occurs in the text is tried before [S2]. *)
Theorem detect_series_longest_first (text : option string) :
  (forall s,
     detect_series text = Some s <->
     In s SERIES_NAMES /\ occurs_in s text = true
     /\ forall s', In s' SERIES_NAMES -> occurs_in s' text = true ->
                   s' <> s -> tried_before s s')
  /\ (detect_series text = None <->
      forall s, In s SERIES_NAMES -> occurs_in s text = false)
  /\ (forall S1 S2,
        In S1 SERIES_NAMES -> In S2 SERIES_NAMES ->
        Py.contains (norm (Some S1)) (norm (Some S2)) = true ->
        (String.length S1 < String.length S2)%nat ->
        (occurs_in S2 text = true
         \/ exists raw, text = Some raw /\ Py.contains S2 raw = true) ->
        detect_series text <> Some S1
        /\ exists S3,
             detect_series text = Some S3
             /\ (norm_len S2 <= norm_len S3)%nat
             /\ (S3 = S2 \/ (occurs_in S3 text = true /\ tried_before S3 S2))
             /\ ((forall s', In s' SERIES_NAMES -> occurs_in s' text = true ->
                             s' <> S2 -> tried_before S2 s') -> S3 = S2)).
Proof.
  split; [intros s; apply detect_series_Some|].
  split; [apply detect_series_None|].
  intros S1 S2 H1 H2 _ Hlen Hocc.
  assert (Ho : occurs_in S2 text = true).
  { destruct Hocc as [Ho|[raw [-> Hc]]]; [exact Ho|].
    now apply written_name_occurs. }
  clear Hocc.
  rewrite (series_raw_len S1 H1), (series_raw_len S2 H2) in Hlen.
  destruct (detect_series text) as [S3|] eqn:E.
  - apply detect_series_Some in E. destruct E as [H3 [Ho3 Hb]].
    assert (Hle : (norm_len S2 <= norm_len S3)%nat).
    { destruct (String.eqb_spec S2 S3) as [->|Hne]; [lia|].
      destruct (Hb S2 H2 Ho Hne) as [Hlt|[Heq _]]; lia. }
    split.
    + intros Heq. injection Heq as ->. lia.
    + exists S3. split; [reflexivity|]. split; [exact Hle|]. split.
      * destruct (String.eqb_spec S2 S3) as [->|Hne]; [now left|].
        right. split; [exact Ho3|]. now apply Hb.
      * intros Hall. destruct (String.eqb_spec S3 S2) as [|Hne]; [assumption|].
        exfalso.
        assert (Ha : tried_before S2 S3) by now apply Hall.
        assert (Hc : tried_before S3 S2) by (apply Hb; auto).
        unfold tried_before in Ha, Hc. lia.
  - exfalso. rewrite detect_series_None in E. specialize (E S2 H2). congruence.
Qed.

Lemma detect_series_longest_first_witness :
  detect_series (Some "GAF Timberline  HDZ RS shingles") <> Some "Timberline HDZ"
  /\ exists S3,
       detect_series (Some "GAF Timberline  HDZ RS shingles") = Some S3
       /\ (norm_len "Timberline HDZ RS" <= norm_len S3)%nat
       /\ (S3 = "Timberline HDZ RS"
           \/ (occurs_in S3 (Some "GAF Timberline  HDZ RS shingles") = true
               /\ tried_before S3 "Timberline HDZ RS"))
       /\ ((forall s', In s' SERIES_NAMES ->
                       occurs_in s' (Some "GAF Timberline  HDZ RS shingles") = true ->
                       s' <> "Timberline HDZ RS" ->
                       tried_before "Timberline HDZ RS" s') ->
           S3 = "Timberline HDZ RS").
Proof.
  apply (proj2 (proj2 (detect_series_longest_first
                         (Some "GAF Timberline  HDZ RS shingles")))
           "Timberline HDZ" "Timberline HDZ RS").
  - simpl; tauto.
  - simpl; tauto.
  - vm_compute; reflexivity.
  - simpl; lia.
  - left. vm_compute; reflexivity.
Defined.

(** The claim as the specification words it, that a page text containing
    [S2] always yields [S2], fails on a page that also names a series that
    is tried earlier. *)
Lemma detect_series_nested_counterexample :
  ~ (forall S1 S2 text,
       In S1 SERIES_NAMES -> In S2 SERIES_NAMES ->
       Py.contains (norm (Some S1)) (norm (Some S2)) = true ->
       (String.length S1 < String.length S2)%nat ->
       Py.contains S2 text = true ->
       detect_series (Some text) = Some S2).
Proof.
  intros H.
  specialize (H "Grand Sequoia" "Grand Sequoia AS"
                "Grand Sequoia AS and Timberline HDZ RS").
  assert (E : detect_series (Some "Grand Sequoia AS and Timberline HDZ RS")
              = Some "Timberline HDZ RS") by (vm_compute; reflexivity).
  rewrite E in H.
  assert (C : Some "Timberline HDZ RS" = Some "Grand Sequoia AS").
  { apply H; try (simpl; tauto); try (vm_compute; reflexivity). simpl; lia. }
  discriminate C.
Qed.

(** ** Colour locator *)

(** *** Stripping does not change the normal form *)

Lemma isspace_space : Py.isspace " " = true.
Proof. reflexivity. Qed.

Lemma lstrip_sub_ws_runs t : forall r,
  Py.lstrip (Py.sub_ws_runs r t) = Py.sub_ws_runs false (Py.lstrip t).
Proof.
  induction t as [|c t IH]; intros r; simpl; [reflexivity|].
  destruct (Py.isspace c) eqn:Ec.
  - destruct r; simpl; rewrite ?isspace_space; apply IH.
  - simpl. rewrite Ec. reflexivity.
Qed.

Lemma rstrip_sub_ws_runs t : forall r,
  Py.rstrip (Py.sub_ws_runs r t) = Py.rstrip (Py.sub_ws_runs r (Py.rstrip t)).
Proof.
  induction t as [|c t IH]; intros r; [reflexivity|].
  cbn [Py.rstrip]. destruct (Py.rstrip t) as [|d u] eqn:Et.
  - assert (Hz : forall r', Py.rstrip (Py.sub_ws_runs r' t) = "")
      by (intros r'; rewrite IH; reflexivity).
    destruct (Py.isspace c) eqn:Ec; simpl; rewrite Ec.
    + destruct r; simpl; rewrite ?Hz; reflexivity.
    + simpl. rewrite Hz, Ec. reflexivity.
  - cbn [Py.sub_ws_runs]. destruct (Py.isspace c) eqn:Ec.
    + destruct r; [apply IH|]. cbn [Py.rstrip]. rewrite IH. reflexivity.
    + cbn [Py.rstrip]. rewrite IH. reflexivity.
Qed.

Lemma lstrip_rstrip_lstrip t :
  Py.lstrip (Py.rstrip (Py.lstrip t)) = Py.rstrip (Py.lstrip t).
Proof.
  induction t as [|c t IH]; simpl; [reflexivity|].
  destruct (Py.isspace c) eqn:Ec; [exact IH|].
  simpl. destruct (Py.rstrip t); rewrite ?Ec; simpl; rewrite ?Ec; reflexivity.
Qed.

Lemma or_empty_Some x : Py.or_empty (Some x) = x.
Proof. destruct x; reflexivity. Qed.

Lemma norm_strip t : norm (Some (Py.strip t)) = norm (Some t).
Proof.
  unfold norm, Py.strip, Py.re_sub_ws. rewrite !or_empty_Some.
  rewrite !lstrip_sub_ws_runs, lstrip_rstrip_lstrip.
  now rewrite <- rstrip_sub_ws_runs.
Qed.

(** *** The loop keeps the first nearest qualifying word *)

Lemma all_color_lower_norm :
  ALL_COLOR_LOWER = map (fun c => norm (Some c)) (flat_map snd SERIES_COLORS).
Proof. vm_compute. reflexivity. Qed.

Lemma allowed_set_vocabulary ac :
  allowed_set ac = map (fun c => norm (Some c)) (vocabulary ac).
Proof.
  destruct ac as [[|c cs]|]; simpl allowed_set; simpl vocabulary;
    auto using all_color_lower_norm.
Qed.

Lemma str_in_map_norm nm vocab :
  Py.str_in nm (map (fun c => norm (Some c)) vocab) = true <->
  exists color, In color vocab /\ nm = norm (Some color).
Proof.
  rewrite str_in_In, in_map_iff. split.
  - intros [c [E H]]. exists c. auto.
  - intros [c [H E]]. exists c. auto.
Qed.

Section LocatorLoop.
Context {F : Type} {num : Num F}.
Variable regular : F -> Prop.
Context {laws : NumLaws F regular}.
Variable allowed_colors : option (list string).
Variable rect : Rect.t F.

Let cx : F := fst (rect_center rect).
Let cy : F := snd (rect_center rect).
Let allowed : list string := allowed_set allowed_colors.

Lemma qualifies_tests w :
  has_text w ->
  (Py.str_in (norm (Some (label_of w))) allowed
   && (fltb (fabs (fsub (snd (word_center w)) cy)) (fofZ 260)
       && fltb (fabs (fsub (fst (word_center w)) cx)) (fofZ 260)) = true)
  <-> qualifies allowed_colors rect w.
Proof.
  intros Ht. unfold qualifies, offset_x, offset_y, label_of. fold cx cy.
  destruct (Word.txt w) as [t|] eqn:Et; [|now elim Ht].
  rewrite or_empty_Some, norm_strip, !andb_true_iff.
  unfold allowed. rewrite allowed_set_vocabulary, str_in_map_norm. tauto.
Qed.

(** One turn of the loop keeps the record unless the word qualifies and is
    strictly nearer. *)
Lemma locator_step_text best_text best_d w :
  has_text w ->
  locator_step cx cy allowed (best_text, best_d) w =
  Ok (if Py.str_in (norm (Some (label_of w))) allowed
         && (fltb (fabs (fsub (snd (word_center w)) cy)) (fofZ 260)
             && fltb (fabs (fsub (fst (word_center w)) cx)) (fofZ 260))
         && fltb (distance2 rect w) best_d
      then (Some (label_of w), distance2 rect w)
      else (best_text, best_d)).
Proof.
  intros Ht. unfold locator_step, label_of, distance2, offset_x, offset_y.
  fold cx cy. destruct (Word.txt w) as [t|] eqn:Et; [|now elim Ht].
  cbn [strip_method]. rewrite or_empty_Some. cbn [word_center fst snd].
  destruct (Py.str_in _ allowed); [|reflexivity].
  destruct (fltb (fabs _) (fofZ 260) && fltb (fabs _) (fofZ 260));
    [|reflexivity].
  cbn [andb]. destruct (fltb _ best_d); reflexivity.
Qed.

Lemma locator_loop_app best l : forall l',
  locator_loop cx cy allowed best (l ++ l')%list =
  match locator_loop cx cy allowed best l with
  | Ok best' => locator_loop cx cy allowed best' l'
  | Raise e => Raise e
  end.
Proof.
  revert best. induction l as [|w l IH]; intros best l'; simpl; [reflexivity|].
  destruct (locator_step cx cy allowed best w); [apply IH | reflexivity].
Qed.

Lemma locator_loop_kept l :
  Forall has_text l ->
  Forall (fun w => regular (offset_x rect w) /\ regular (offset_y rect w)) l ->
  exists best,
    locator_loop cx cy allowed (None, f1e12) l = Ok best /\ kept allowed_colors rect l best.
Proof.
  induction l as [|x l IH] using rev_ind; intros Hl Hreg.
  - exists (None, f1e12). split; [reflexivity|]. split; [reflexivity|].
    intros w [].
  - apply Forall_app in Hl. destruct Hl as [Hl Hx].
    apply Forall_inv in Hx.
    apply Forall_app in Hreg. destruct Hreg as [Hreg Hrx].
    apply Forall_inv in Hrx. destruct Hrx as [Rx Ry].
    assert (Rin : forall w', In w' (l ++ [x])%list ->
                    regular (offset_x rect w') /\ regular (offset_y rect w')).
    { intros w' Hw'. apply in_app_or in Hw'. destruct Hw' as [Hw'|[<-|[]]].
      - rewrite Forall_forall in Hreg. now apply Hreg.
      - now split. }
    destruct (IH Hl Hreg) as [[bt bd] [Eb Hk]].
    rewrite locator_loop_app, Eb. cbn [locator_loop].
    rewrite (locator_step_text bt bd x Hx).
    pose proof (qualifies_tests x Hx) as Hq.
    destruct (Py.str_in _ allowed && _) eqn:Eq.
    + assert (Qx : qualifies allowed_colors rect x) by now apply Hq.
      assert (Nx : near (offset_x rect x) (offset_y rect x) = true).
      { destruct Qx as [_ [Hx1 Hy1]]. unfold near. now rewrite Hx1, Hy1. }
      cbn [andb]. unfold kept in Hk. cbn [fst snd] in Hk.
      destruct bt as [label|].
      * destruct Hk as [w [[before [after [El [Qw [Hb Ha]]]]] [Elab Ed]]].
        subst bd. destruct (fltb (distance2 rect x) (distance2 rect w)) eqn:Ex.
        -- eexists. split; [reflexivity|]. exists x. split; [|auto].
           exists l, []. split; [reflexivity|]. split; [exact Qx|]. split.
           ++ intros w' Hw' Qw'. rewrite El in Hw'.
              apply in_app_or in Hw'. destruct Hw' as [Hw'|[<-|Hw']].
              ** eapply fltb_trans; [exact Ex | now apply Hb].
              ** exact Ex.
              ** assert (Nw' : near (offset_x rect w') (offset_y rect w') = true).
                 { destruct Qw' as [_ [Hx1 Hy1]]. unfold near.
                   now rewrite Hx1, Hy1. }
                 assert (Rw' : regular (offset_x rect w')
                               /\ regular (offset_y rect w')).
                 { apply Rin. apply in_or_app. left. rewrite El.
                   apply in_or_app. right. now right. }
                 destruct (near_comparable _ _ _ _ (proj1 Rw') (proj2 Rw')
                             Nw' Ex) as [H|H];
                   [exact H|].
                 unfold sqdist in H. fold (distance2 rect w') in H.
                 rewrite (Ha w' Hw' Qw') in H. discriminate.
           ++ intros w' [].
        -- eexists. split; [reflexivity|]. exists w. split; [|auto].
           exists before, (after ++ [x])%list. split.
           ++ rewrite El, <- app_assoc. reflexivity.
           ++ split; [exact Qw|]. split; [exact Hb|].
              intros w' Hw' Qw'. apply in_app_or in Hw'.
              destruct Hw' as [Hw'|[<-|[]]]; [now apply Ha | exact Ex].
      * destruct Hk as [Ed Hnone]. subst bd.
        pose proof (near_below_initial _ _ Rx Ry Nx) as Hlt.
        unfold sqdist in Hlt. fold (distance2 rect x) in Hlt. rewrite Hlt.
        eexists. split; [reflexivity|]. exists x. split; [|auto].
        exists l, []. split; [reflexivity|]. split; [exact Qx|]. split.
        -- intros w' Hw' Qw'. now elim (Hnone w' Hw').
        -- intros w' [].
    + cbn [andb].
      assert (Qx : ~ qualifies allowed_colors rect x).
      { intros Q. apply Hq in Q. congruence. }
      eexists. split; [reflexivity|]. unfold kept in *. cbn [fst snd] in *.
      destruct bt as [label|].
      * destruct Hk as [w [[before [after [El [Qw [Hb Ha]]]]] [Elab Ed]]].
        exists w. split; [|auto].
        exists before, (after ++ [x])%list. split.
        -- rewrite El, <- app_assoc. reflexivity.
        -- split; [exact Qw|]. split; [exact Hb|].
           intros w' Hw' Qw'. apply in_app_or in Hw'.
           destruct Hw' as [Hw'|[<-|[]]]; [now apply Ha | contradiction].
      * destruct Hk as [Ed Hnone]. split; [exact Ed|].
        intros w Hw. apply in_app_or in Hw.
        destruct Hw as [Hw|[<-|[]]]; [now apply Hnone | exact Qx].
Qed.

(** A word without text stops the loop with an [AttributeError]. *)
Lemma locator_loop_raises l : forall best,
  Exists (fun w => Word.txt w = None) l ->
  locator_loop cx cy allowed best l = Raise AttributeError.
Proof.
  induction l as [|x l IH]; intros best H; [inversion H|].
  cbn [locator_loop]. destruct (Word.txt x) as [t|] eqn:Et.
  - assert (Hx : has_text x) by (unfold has_text; congruence).
    destruct best as [bt bd]. rewrite (locator_step_text bt bd x Hx).
    apply IH. inversion H; subst; [congruence | assumption].
  - unfold locator_step. destruct best. rewrite Et. reflexivity.
Qed.
End LocatorLoop.

(** *** The answer under the laws *)

(** Under the laws of the arithmetic, on words that carry a text and whose
    offsets are regular, the locator returns the label of the first of the
    nearest qualifying words, and none exactly when no word qualifies. *)
Lemma locator_first_nearest
    {F : Type} {num : Num F} (regular : F -> Prop) (laws : NumLaws F regular)
    (words : list (Word.t F)) (rect : Rect.t F)
    (allowed_colors : option (list string)) :
  Forall has_text words ->
  Forall (fun w => regular (offset_x rect w) /\ regular (offset_y rect w))
         words ->
  exists r,
    nearest_color_label words rect allowed_colors = Ok r
    /\ (r = None <->
        forall w, In w words -> ~ qualifies allowed_colors rect w)
    /\ (forall label, r = Some label ->
          exists w, first_nearest allowed_colors rect words w
                    /\ label = label_of w)
    /\ (words = [] -> r = None).
Proof.
  intros Hw Hreg.
  destruct (locator_loop_kept regular allowed_colors rect words Hw Hreg)
    as [[bt bd] [E K]].
  exists bt. unfold kept in K. cbn [fst snd] in K.
  assert (Er : nearest_color_label words rect allowed_colors = Ok bt).
  { unfold nearest_color_label. destruct words as [|x l].
    - cbn in E. injection E as <- _. reflexivity.
    - unfold rect_center in E. cbn [fst snd] in E. rewrite E. reflexivity. }
  split; [exact Er|].
  destruct bt as [label|].
  - destruct K as [w [Hf [El Ed]]]. split; [|split].
    + split; [discriminate|]. intros Hn. exfalso.
      destruct Hf as [before [after [Ew [Qw _]]]].
      apply (Hn w); [|exact Qw]. rewrite Ew. apply in_elt.
    + intros label' [= <-]. exists w. auto.
    + intros ->. destruct Hf as [before [after [Ew _]]].
      destruct before; discriminate.
  - destruct K as [_ Hn]. split; [|split].
    + split; auto.
    + discriminate.
    + reflexivity.
Qed.

(** *** Absent text *)

Lemma locator_loop_total {F : Type} {num : Num F} cx cy allowed
    (l : list (Word.t F)) : forall best,
  Forall has_text l ->
  exists best', locator_loop cx cy allowed best l = Ok best'.
Proof.
  induction l as [|x l IH]; intros best H; [now exists best|].
  cbn [locator_loop]. inversion H as [|? ? Hx Hl]; subst.
  unfold locator_step. destruct best as [bt bd].
  destruct (Word.txt x) as [t|] eqn:Et; [|now elim Hx].
  cbn [strip_method].
  repeat match goal with
         | |- context [if ?b then _ else _] => destruct b
         end; apply IH; assumption.
Qed.

Lemma nearest_color_label_total {F : Type} {num : Num F}
    (words : list (Word.t F)) rect allowed_colors :
  Forall has_text words ->
  exists r, nearest_color_label words rect allowed_colors = Ok r.
Proof.
  intros H. unfold nearest_color_label.
  destruct words as [|x l]; [now exists None|].
  destruct (locator_loop_total
              (fadd (Rect.x0 rect) (fdiv (Rect.width rect) (fofZ 2)))
              (fadd (Rect.y0 rect) (fdiv (Rect.height rect) (fofZ 2)))
              (allowed_set allowed_colors) (x :: l) (None, f1e12) H)
    as [[bt bd] E].
  rewrite E. now exists bt.
Qed.

Lemma nearest_color_label_raises {F : Type} {num : Num F}
    (words : list (Word.t F)) rect allowed_colors :
  Exists (fun w => Word.txt w = None) words ->
  nearest_color_label words rect allowed_colors = Raise AttributeError.
Proof.
  intros H. unfold nearest_color_label.
  destruct words as [|x l]; [inversion H|].
  pose proof (locator_loop_raises allowed_colors rect (x :: l) (None, f1e12) H)
    as E.
  unfold rect_center in E. cbn [fst snd] in E. rewrite E. reflexivity.
Qed.

(** C10, as the code has it.  [norm] maps [None] to the empty string, and
    the series detector answers none on a page whose text is absent.  The
    colour locator strips the text of each word before it normalises it:
    it answers when every word carries a text, and raises an
    [AttributeError] when some word has none. *)
Theorem norm_absent_text :
  norm None = ""
  /\ detect_series None = None
  /\ forall (F : Type) (num : Num F) (words : list (Word.t F))
            (rect : Rect.t F) (allowed_colors : option (list string)),
       (Forall has_text words ->
        exists r, nearest_color_label words rect allowed_colors = Ok r)
       /\ (Exists (fun w => Word.txt w = None) words ->
           nearest_color_label words rect allowed_colors = Raise AttributeError).
Proof.
  split; [reflexivity|]. split; [vm_compute; reflexivity|].
  intros F num words rect ac. split; intros H.
  - now apply nearest_color_label_total.
  - now apply nearest_color_label_raises.
Qed.

Lemma norm_absent_text_witness :
  (exists r,
     @nearest_color_label Q exact_num
       [Word.mk 130%Q 135%Q 170%Q 145%Q (Some "Charcoal")] (Rect.mk 50%Q 50%Q 100%Q 100%Q) None
     = Ok r)
  /\ @nearest_color_label Q exact_num
       [Word.mk 130%Q 135%Q 170%Q 145%Q None] (Rect.mk 50%Q 50%Q 100%Q 100%Q) None
     = Raise AttributeError.
Proof.
  split.
  - apply (proj2 (proj2 norm_absent_text) Q exact_num).
    repeat constructor; discriminate.
  - apply (proj2 (proj2 norm_absent_text) Q exact_num).
    constructor. reflexivity.
Defined.

(** The colour lookup does fail on a word whose text is absent. *)
Lemma color_lookup_absent_text_counterexample :
  ~ (forall (words : list (Word.t spec_float)) rect allowed_colors,
       exists r, nearest_color_label words rect allowed_colors = Ok r).
Proof.
  intros H.
  destruct (H [Word.mk (Float64.of_int 130) (Float64.of_int 135)
                       (Float64.of_int 170) (Float64.of_int 145) None]
              (Rect.mk (Float64.of_int 50) (Float64.of_int 50)
                       (Float64.of_int 100) (Float64.of_int 100))
              None) as [r E].
  vm_compute in E. discriminate E.
Qed.

(** ** Extraction driver *)

(** *** Effects compose *)

Lemma effects_app_no_l e : effects_app no_effects e = e.
Proof. destruct e; reflexivity. Qed.

Lemma effects_app_no_r e : effects_app e no_effects = e.
Proof. destruct e; unfold effects_app; cbn; now rewrite !app_nil_r. Qed.

Lemma apply_no_effects w : apply_effects w no_effects = w.
Proof. destruct w; unfold apply_effects; cbn; now rewrite !app_nil_r. Qed.

Lemma apply_effects_app w e1 e2 :
  apply_effects (apply_effects w e1) e2 = apply_effects w (effects_app e1 e2).
Proof.
  unfold apply_effects, effects_app; cbn.
  now rewrite fold_left_app, <- !app_assoc.
Qed.

(** A loop whose body adds [eff x] to the world and turns the state [s] into
    [upd x s] adds the effects of all its turns, in order. *)
Lemma for_each_effects {A S : Type} (body : A -> S -> M S)
    (upd : A -> S -> S) (eff : A -> Effects) (xs : list A) :
  (forall x, In x xs ->
     forall s w, body x s w = (Ok (upd x s), apply_effects w (eff x))) ->
  forall s w,
    for_each xs body s w =
    (Ok (fold_left (fun s x => upd x s) xs s),
     apply_effects w (effects_concat (map eff xs))).
Proof.
  induction xs as [|x xs IH]; intros Hb s w.
  - cbn. now rewrite apply_no_effects.
  - cbn [for_each map effects_concat fold_right fold_left]. unfold bind.
    rewrite (Hb x (or_introl eq_refl)).
    rewrite IH by (intros y Hy; apply Hb; now right).
    now rewrite apply_effects_app.
Qed.

Lemma fold_add_counts {A : Type} (k : A -> Z * Z) (xs : list A) : forall c,
  fold_left (fun c x => add_counts c (k x)) xs c
  = add_counts c (sum_counts (map k xs)).
Proof.
  induction xs as [|x xs IH]; intros c.
  - destruct c as [a b]. unfold add_counts. cbn. now rewrite !Z.add_0_r.
  - cbn [fold_left map sum_counts fold_right]. rewrite IH.
    unfold add_counts. cbn [saved_swatches saved_raw fst snd].
    now rewrite !Z.add_assoc.
Qed.

(** *** Paths *)

Lemma path_join_plain a b :
  prefix "/" b = false -> Py.truthy a = true ->
  String.eqb (substring (String.length a - 1) 1 a) "/" = false ->
  path_join a b = a ++ "/" ++ b.
Proof. intros H1 H2 H3. unfold path_join. now rewrite H1, H2, H3. Qed.

Lemma norm_of_empty : norm (Some "") = "".
Proof. reflexivity. Qed.

Lemma lower_char_slash : Py.lower_char "/" = "/"%char.
Proof. reflexivity. Qed.

Lemma norm_keeps_slash g : exists r, norm (Some (String "/" g)) = String "/" r.
Proof.
  unfold norm, Py.strip, Py.re_sub_ws. rewrite or_empty_Some.
  cbn [Py.sub_ws_runs].
  change (Py.isspace "/") with false. cbn iota.
  cbn [Py.lstrip]. change (Py.isspace "/") with false. cbn iota.
  cbn [Py.rstrip]. change (Py.isspace "/") with false.
  destruct (Py.rstrip (Py.sub_ws_runs false g)); cbn [Py.lower];
    rewrite lower_char_slash; eexists; reflexivity.
Qed.

Lemma prefix_slash c s : prefix "/" (String c s) = Ascii.eqb "/" c.
Proof.
  cbn [prefix]. destruct (ascii_dec "/" c) as [<-|Hc].
  - now destruct s.
  - symmetry. now apply Ascii.eqb_neq.
Qed.

Lemma solid_label g :
  solid_segment (norm (Some g)) = true -> solid_segment g = true.
Proof.
  intros H. destruct g as [|c g]; [vm_compute in H; discriminate H|].
  unfold solid_segment in *. cbn [Py.truthy andb]. rewrite prefix_slash.
  destruct (Ascii.eqb_spec "/" c) as [<-|Hc]; [|reflexivity].
  destruct (norm_keeps_slash g) as [r E]. rewrite E in H.
  cbn [Py.truthy andb] in H. rewrite prefix_slash in H. discriminate H.
Qed.

Lemma known_series_paths s :
  In s SERIES_NAMES ->
  Py.truthy s = true
  /\ path_join "swatches" s = "swatches/" ++ s
  /\ Py.truthy ("swatches/" ++ s) = true
  /\ String.eqb (substring (String.length ("swatches/" ++ s) - 1) 1
                           ("swatches/" ++ s)) "/" = false
  /\ exists c cs,
       Py.dict_get SERIES_COLORS s = Some (c :: cs)
       /\ forallb (fun x => solid_segment (norm (Some x))) (c :: cs) = true.
Proof.
  intros Hs.
  assert (H : forallb (fun s =>
      Py.truthy s
      && String.eqb (path_join "swatches" s) ("swatches/" ++ s)
      && Py.truthy ("swatches/" ++ s)
      && negb (String.eqb
                 (substring (String.length ("swatches/" ++ s) - 1) 1
                            ("swatches/" ++ s)) "/")
      && match Py.dict_get SERIES_COLORS s with
         | Some (c :: cs) =>
             forallb (fun x => solid_segment (norm (Some x))) (c :: cs)
         | _ => false
         end) SERIES_NAMES = true) by (vm_compute; reflexivity).
  rewrite forallb_forall in H. specialize (H s Hs).
  repeat (apply andb_true_iff in H; destruct H as [H ?]).
  repeat split; auto.
  - now apply String.eqb_eq.
  - now apply negb_true_iff.
  - destruct (Py.dict_get SERIES_COLORS s) as [[|c cs]|]; try discriminate.
    exists c, cs. auto.
Qed.

Lemma detect_series_known text s :
  detect_series text = Some s -> In s SERIES_NAMES.
Proof. intros H. now apply detect_series_Some in H. Qed.

(** *** One placement *)

(** The label the locator keeps is the stripped text of a word whose
    normal form is in the allowed set. *)
Lemma locator_loop_label {F : Type} {num : Num F} cx cy allowed
    (l : list (Word.t F)) : forall best best',
  locator_loop cx cy allowed best l = Ok best' ->
  (forall g, fst best = Some g -> Py.str_in (norm (Some g)) allowed = true) ->
  forall g, fst best' = Some g -> Py.str_in (norm (Some g)) allowed = true.
Proof.
  induction l as [|x l IH]; intros best best' E Hb.
  - cbn in E. injection E as <-. exact Hb.
  - cbn [locator_loop] in E.
    destruct (locator_step cx cy allowed best x) as [b1|e] eqn:Es;
      [|discriminate].
    apply (IH b1 best' E). clear E IH.
    unfold locator_step in Es. destruct best as [bt bd].
    destruct (strip_method (Word.txt x)) as [raw|e]; [|discriminate].
    destruct (Py.str_in (norm (Some raw)) allowed) eqn:Ein;
      [|injection Es as <-; exact Hb].
    destruct (fltb _ _ && fltb _ _); [|injection Es as <-; exact Hb].
    destruct (fltb _ bd); injection Es as <-; [|exact Hb].
    intros g [= <-]. exact Ein.
Qed.

Lemma nearest_color_label_in_allowed {F : Type} {num : Num F}
    (words : list (Word.t F)) rect allowed_colors g :
  nearest_color_label words rect allowed_colors = Ok (Some g) ->
  Py.str_in (norm (Some g)) (allowed_set allowed_colors) = true.
Proof.
  unfold nearest_color_label. destruct words as [|x l]; [discriminate|].
  destruct (locator_loop _ _ _ _ _) as [[bt bd]|e] eqn:E; [|discriminate].
  intros [= ->].
  apply (locator_loop_label _ _ _ _ _ _ E); [discriminate | reflexivity].
Qed.

(** A label found under a known series is a usable file name. *)
Lemma series_label_solid {F : Type} {num : Num F}
    (words : list (Word.t F)) rect s g :
  In s SERIES_NAMES ->
  nearest_color_label words rect (colors_for (Some s)) = Ok (Some g) ->
  solid_segment g = true.
Proof.
  intros Hs E. destruct (known_series_paths s Hs) as [Ht [_ [_ [_ [c [cs [Ed Hall]]]]]]].
  unfold colors_for in E. rewrite Ht, Ed in E.
  apply nearest_color_label_in_allowed in E. cbn [allowed_set] in E.
  apply str_in_In, in_map_iff in E. destruct E as [color [En Hc]].
  rewrite forallb_forall in Hall. apply solid_label. rewrite <- En.
  now apply Hall.
Qed.

Lemma stored_as_saved {F : Type} (doc : Doc F) pix :
  (if (4 <=? Pixmap.n pix)%Z
   then match to_rgb doc pix with
        | Ok rgb => rgb
        | Raise _ => drop_alpha doc pix
        end
   else pix) = stored doc pix.
Proof.
  unfold stored.
  destruct (Z.leb_spec 4 (Pixmap.n pix)), (Z.ltb_spec (Pixmap.n pix) 4);
    try reflexivity; lia.
Qed.

Lemma add_counts_zero c : add_counts c (0, 0)%Z = c.
Proof. destruct c. unfold add_counts. cbn. now rewrite !Z.add_0_r. Qed.

Section PlacementRun.
Context {F : Type} {num : Num F}.
Variable doc : Doc F.

Lemma process_rect_run pidx xref text words pix rect c w :
  Forall has_text words ->
  process_rect doc "swatches" "swatches_raw" pidx xref (detect_series text)
               words pix rect c w
  = (Ok (add_counts c (rect_counts (detect_series text) words pix rect)),
     apply_effects w
       (rect_effects doc pidx xref (detect_series text) words pix rect)).
Proof.
  intros Hw. unfold process_rect, rect_counts, rect_effects, color_of.
  destruct (is_square_swatch pix); cbn [negb];
    [|now rewrite add_counts_zero, apply_no_effects].
  destruct (nearest_color_label_total words rect
              (colors_for (detect_series text)) Hw) as [g Eg].
  rewrite Eg. unfold bind at 1. unfold lift.
  assert (Hraw : forall o1 o2,
    both_set o1 o2 = None ->
    placement_path None None pidx xref pix
    = path_join "swatches_raw" (raw_name pidx xref pix)).
  { intros _ _ _. unfold path_join, raw_name, placement_path.
    cbn [append]. rewrite prefix_slash. reflexivity. }
  destruct (detect_series text) as [s|] eqn:Es.
  - pose proof (detect_series_known _ _ Es) as Hs.
    destruct (known_series_paths s Hs) as [Ht [Hj [Ht2 [Hl _]]]].
    destruct g as [g|].
    + pose proof (series_label_solid words rect s g Hs Eg) as Hg.
      unfold solid_segment in Hg. apply andb_true_iff in Hg.
      destruct Hg as [Hgt Hgp]. apply negb_true_iff in Hgp.
      unfold both_set. rewrite Ht, Hgt. cbn [andb].
      unfold bind, ensure_dir, ret, save_pixmap, pix_save. cbn [dirs files stdout decodes].
      rewrite Hj, stored_as_saved.
      rewrite path_join_plain; auto.
      * unfold apply_effects, add_counts, placement_path. rewrite ?Eg.
        cbn [made written decoded fold_left fst snd dirs files stdout decodes].
        rewrite app_nil_r, Z.add_0_r, append_assoc. reflexivity.
      * destruct g as [|ch g]; [discriminate|].
        cbn [append]. now rewrite prefix_slash in *.
    + unfold both_set. unfold bind, ret, save_pixmap, pix_save.
      cbn [dirs files stdout decodes].
      rewrite stored_as_saved, <- (Hraw None None eq_refl).
      unfold apply_effects, add_counts, placement_path. rewrite ?Eg.
      cbn [made written decoded fold_left fst snd dirs files stdout decodes].
      rewrite app_nil_r, Z.add_0_r. reflexivity.
  - unfold both_set. unfold bind, ret, save_pixmap, pix_save.
    cbn [dirs files stdout decodes].
    rewrite stored_as_saved, <- (Hraw None None eq_refl).
    unfold apply_effects, add_counts, placement_path. rewrite ?Eg.
    cbn [made written decoded fold_left fst snd dirs files stdout decodes].
    rewrite app_nil_r, Z.add_0_r. destruct g; reflexivity.
Qed.
End PlacementRun.

(** *** Pages, objects and the whole run *)

Section DriverRun.
Context {F : Type} {num : Num F}.
Variable doc : Doc F.
Hypothesis texts : words_have_text doc.

Lemma process_page_run xref pidx s w :
  process_page doc "swatches" "swatches_raw" xref pidx s w
  = (Ok (fst s || placed_on doc xref pidx,
         add_counts (snd s) (page_counts doc xref pidx)),
     apply_effects w (page_effects doc xref pidx)).
Proof.
  destruct s as [a c]. unfold process_page, page_counts, page_effects, placed_on.
  cbn [fst snd].
  destruct (get_image_rects doc pidx xref) as [|r rs] eqn:Er.
  - unfold ret. rewrite orb_false_r, apply_no_effects.
    destruct (load_pixmap doc xref); cbn [map sum_counts fold_right];
      now rewrite add_counts_zero.
  - unfold bind at 1. unfold decode. rewrite orb_true_r.
    destruct (load_pixmap doc xref) as [pix|e].
    + unfold bind.
      rewrite (for_each_effects _
                 (fun rect c => add_counts c
                    (rect_counts (detect_series (page_text doc pidx))
                                 (page_words doc pidx) pix rect))
                 (rect_effects doc pidx xref
                    (detect_series (page_text doc pidx))
                    (page_words doc pidx) pix)).
      * unfold ret. rewrite fold_add_counts. f_equal.
        rewrite <- apply_effects_app. f_equal.
        unfold apply_effects. cbn. now rewrite app_nil_r.
      * intros rect _ c' w'. apply process_rect_run, texts.
    + unfold ret. rewrite add_counts_zero, effects_app_no_r.
      unfold apply_effects. cbn. now rewrite app_nil_r.
Qed.

Lemma fold_pages_counts xref (ps : list Z) : forall s,
  snd (fold_left (fun s pidx =>
                    (fst s || placed_on doc xref pidx,
                     add_counts (snd s) (page_counts doc xref pidx))) ps s)
  = add_counts (snd s) (sum_counts (map (page_counts doc xref) ps)).
Proof.
  induction ps as [|p ps IH]; intros s.
  - cbn. now rewrite add_counts_zero.
  - cbn [fold_left map sum_counts fold_right]. rewrite IH. cbn [snd].
    unfold add_counts. cbn [saved_swatches saved_raw fst snd].
    now rewrite !Z.add_assoc.
Qed.

Lemma process_xref_run xref c w :
  process_xref doc "swatches" "swatches_raw" xref c w
  = (Ok (add_counts c (xref_counts doc xref)),
     apply_effects w (xref_effects doc xref)).
Proof.
  unfold process_xref, xref_counts, xref_effects, is_image_object.
  destruct (xref_get_key doc xref "Subtype") as [kv|e].
  - rewrite or_empty_Some.
    destruct (Py.contains "/Image" (snd kv)); cbn [negb].
    + unfold bind.
      rewrite (for_each_effects _
                 (fun pidx s =>
                    (fst s || placed_on doc xref pidx,
                     add_counts (snd s) (page_counts doc xref pidx)))
                 (page_effects doc xref))
        by (intros pidx _ s w'; apply process_page_run).
      fold (pages doc).
      pose proof (fold_pages_counts xref (pages doc) (false, c)) as E.
      destruct (fold_left _ (pages doc) (false, c)) as [a c'].
      cbn [snd] in E. subst c'. destruct a; reflexivity.
    + unfold ret. now rewrite add_counts_zero, apply_no_effects.
  - unfold ret. now rewrite add_counts_zero, apply_no_effects.
Qed.

(** A run on a document whose words all carry a text ends normally and
    leaves the world [after_run]. *)
Lemma extract_run w : extract doc w = (Ok tt, after_run doc w).
Proof.
  unfold extract, after_run. unfold bind at 1. unfold ensure_dir at 1.
  unfold bind at 1. unfold ensure_dir at 1. unfold bind at 1.
  rewrite (for_each_effects _
             (fun xref c => add_counts c (xref_counts doc xref))
             (xref_effects doc))
    by (intros xref _ c w'; apply process_xref_run).
  fold (objects doc). fold (run_effects doc).
  rewrite fold_add_counts. fold (run_counts doc).
  unfold bind, print, add_counts, HINT.
  cbn [dirs files stdout decodes saved_swatches saved_raw].
  rewrite !Z.add_0_l, <- apply_effects_app, <- app_assoc.
  f_equal. unfold apply_effects.
  cbn [dirs files stdout decodes made written decoded fold_left app append].
  rewrite ?app_nil_r. reflexivity.
Qed.
End DriverRun.


(** *** Files and counts of a run *)

Lemma written_concat es :
  written (effects_concat es) = flat_map written es.
Proof.
  induction es as [|e es IH]; [reflexivity|].
  cbn [flat_map]. rewrite <- IH. reflexivity.
Qed.

Lemma decoded_concat es :
  decoded (effects_concat es) = flat_map decoded es.
Proof.
  induction es as [|e es IH]; [reflexivity|].
  cbn [flat_map]. rewrite <- IH. reflexivity.
Qed.

Lemma in_py_range i lo hi : In i (py_range lo hi) <-> (lo <= i < hi)%Z.
Proof.
  unfold py_range. rewrite in_map_iff. split.
  - intros [k [<- Hk]]. apply in_seq in Hk. lia.
  - intros H. exists (Z.to_nat (i - lo)). split; [lia|]. apply in_seq. lia.
Qed.

Lemma prefix_cons a s b t :
  prefix (String a s) (String b t) = Ascii.eqb a b && prefix s t.
Proof.
  cbn [prefix]. destruct (ascii_dec a b) as [->|Hn].
  - now rewrite Ascii.eqb_refl.
  - apply Ascii.eqb_neq in Hn. now rewrite Hn.
Qed.

Lemma prefix_nil t : prefix "" t = true.
Proof. now destruct t. Qed.

Lemma placement_path_kind series_hint color pidx xref pix :
  labelled_path (placement_path series_hint color pidx xref pix)
  = confident series_hint color
  /\ fallback_path (placement_path series_hint color pidx xref pix)
     = negb (confident series_hint color).
Proof.
  unfold labelled_path, fallback_path, placement_path, confident.
  destruct series_hint as [s|], color as [g|]; cbn [append];
    rewrite ?prefix_cons, ?prefix_nil; split; reflexivity.
Qed.

Lemma tally_none : tally no_effects (0, 0)%Z.
Proof. repeat split. Qed.

Lemma tally_app e1 e2 k1 k2 :
  tally e1 k1 -> tally e2 k2 ->
  tally (effects_app e1 e2) (fst k1 + fst k2, snd k1 + snd k2)%Z.
Proof.
  unfold tally, count_paths. cbn [written effects_app fst snd].
  rewrite !filter_app, !length_app. lia.
Qed.

Lemma tally_concat {A : Type} (eff : A -> Effects) (k : A -> Z * Z) xs :
  (forall x, In x xs -> tally (eff x) (k x)) ->
  tally (effects_concat (map eff xs)) (sum_counts (map k xs)).
Proof.
  induction xs as [|x xs IH]; intros H; cbn [map effects_concat sum_counts fold_right].
  - exact tally_none.
  - apply tally_app; [apply H; now left | apply IH; intros y Hy; apply H; now right].
Qed.

Section RunTally.
Context {F : Type} {num : Num F}.
Variable doc : Doc F.

Lemma tally_rect pidx xref series_hint words pix (rect : Rect.t F) :
  tally (rect_effects doc pidx xref series_hint words pix rect)
        (rect_counts series_hint words pix rect).
Proof.
  unfold rect_effects, rect_counts.
  destruct (is_square_swatch pix); [|exact tally_none].
  unfold tally, count_paths. cbn [written filter fst snd].
  destruct (placement_path_kind series_hint
              (color_of series_hint words rect) pidx xref pix) as [-> ->].
  unfold confident.
  destruct series_hint, (color_of _ words rect); repeat split.
Qed.

Lemma tally_page xref pidx :
  tally (page_effects doc xref pidx) (page_counts doc xref pidx).
Proof.
  unfold page_effects, page_counts, placed_on.
  destruct (get_image_rects doc pidx xref) as [|r rs] eqn:Er.
  - destruct (load_pixmap doc xref); exact tally_none.
  - destruct (load_pixmap doc xref) as [pix|e].
    + apply (tally_app _ _ (0, 0)%Z); [repeat split|].
      apply tally_concat. intros rect _. apply tally_rect.
    + apply (tally_app _ _ (0, 0)%Z (0, 0)%Z); [repeat split | exact tally_none].
Qed.

Lemma tally_xref xref : tally (xref_effects doc xref) (xref_counts doc xref).
Proof.
  unfold xref_effects, xref_counts.
  destruct (is_image_object doc xref); [|exact tally_none].
  apply tally_concat. intros pidx _. apply tally_page.
Qed.

Lemma tally_run : tally (run_effects doc) (run_counts doc).
Proof. apply tally_concat. intros xref _. apply tally_xref. Qed.
End RunTally.

(** *** The files of a run are the files of its placements *)

Lemma format_02d_two_digits pidx :
  (0 <= pidx < 100)%Z ->
  format_02d pidx = String (digit (pidx / 10)) (String (digit (pidx mod 10)) "").
Proof.
  intros H. apply (in_py_range pidx 0 100) in H.
  assert (A : forallb (fun i =>
                String.eqb (format_02d i)
                  (String (digit (i / 10)) (String (digit (i mod 10)) "")))
                (py_range 0 100) = true) by (vm_compute; reflexivity).
  rewrite forallb_forall in A. apply String.eqb_eq. now apply A.
Qed.

Section RunFiles.
Context {F : Type} {num : Num F}.
Variable doc : Doc F.

Lemma in_run_written p img :
  In (p, img) (written (run_effects doc)) <->
  exists xref pidx rect pix,
    swatch_placement doc xref pidx rect pix
    /\ p = placement_path (detect_series (page_text doc pidx))
             (color_of (detect_series (page_text doc pidx))
                       (page_words doc pidx) rect)
             pidx xref pix
    /\ img = stored doc pix.
Proof.
  unfold run_effects, swatch_placement.
  rewrite written_concat, in_flat_map. split.
  - intros [e [He Hin]]. apply in_map_iff in He.
    destruct He as [xref [<- Hx]]. unfold xref_effects in Hin.
    destruct (is_image_object doc xref) eqn:Ei; [|now destruct Hin].
    rewrite written_concat, in_flat_map in Hin.
    destruct Hin as [e [He Hin]]. apply in_map_iff in He.
    destruct He as [pidx [<- Hp]]. unfold page_effects, placed_on in Hin.
    destruct (get_image_rects doc pidx xref) as [|r rs] eqn:Er;
      [now destruct Hin|].
    cbn [written effects_app app] in Hin.
    destruct (load_pixmap doc xref) as [pix|e] eqn:El; [|now destruct Hin].
    rewrite written_concat, in_flat_map in Hin.
    destruct Hin as [e [He Hin]]. apply in_map_iff in He.
    destruct He as [rect [<- Hr]]. unfold rect_effects in Hin.
    destruct (is_square_swatch pix) eqn:Es; [|now destruct Hin].
    cbn [written] in Hin. destruct Hin as [[= <- <-]|[]].
    exists xref, pidx, rect, pix. rewrite Er. repeat split; auto.
  - intros [xref [pidx [rect [pix [[Hx [Ei [Hp [Hr [El Es]]]]] [-> ->]]]]]].
    exists (xref_effects doc xref). split; [now apply in_map|].
    unfold xref_effects. rewrite Ei, written_concat, in_flat_map.
    exists (page_effects doc xref pidx). split; [now apply in_map|].
    unfold page_effects, placed_on.
    destruct (get_image_rects doc pidx xref) as [|r rs] eqn:Er;
      [now destruct Hr|].
    cbn [written effects_app app]. rewrite El, written_concat, in_flat_map.
    eexists. split; [apply in_map, Hr|].
    unfold rect_effects. rewrite Es. now left.
Qed.
End RunFiles.

(** C4.  In a run on a document whose words all carry a text, the files
    written are those of the placements that pass the geometry filter.  The
    file of a placement is [swatches/<series>/<color>.png] when a series was
    detected on its page and a colour label was found near its rectangle,
    and in every other case
    [swatches_raw/page<NN>_xref<ref>_w<W>_h<H>.png], where [NN] is the page
    index padded with zeros to two digits, [ref] the object's xref and [W],
    [H] the decoded width and height; the first form lies in the labelled
    tree, the second in the fallback bucket, and there is no third form. *)
Theorem placement_output_path {F : Type} {num : Num F} (doc : Doc F)
    (w : World) :
  words_have_text doc ->
  exists new,
    main (Some doc) w = (Ok tt, after_run doc w)
    /\ files (after_run doc w) = (files w ++ new)%list
    /\ (forall p img,
          In (p, img) new <->
          exists xref pidx rect pix,
            swatch_placement doc xref pidx rect pix
            /\ img = stored doc pix
            /\ p = match detect_series (page_text doc pidx),
                         color_of (detect_series (page_text doc pidx))
                                  (page_words doc pidx) rect with
                   | Some series, Some color =>
                       "swatches/" ++ series ++ "/" ++ color ++ ".png"
                   | _, _ =>
                       "swatches_raw/page" ++ format_02d pidx
                       ++ "_xref" ++ str_of_int xref
                       ++ "_w" ++ str_of_int (Pixmap.width pix)
                       ++ "_h" ++ str_of_int (Pixmap.height pix) ++ ".png"
                   end
            /\ labelled_path p
               = confident (detect_series (page_text doc pidx))
                   (color_of (detect_series (page_text doc pidx))
                             (page_words doc pidx) rect)
            /\ fallback_path p = negb (labelled_path p))
    /\ (forall pidx, (0 <= pidx < 100)%Z ->
          format_02d pidx
          = String (digit (pidx / 10)) (String (digit (pidx mod 10)) "")).
Proof.
  intros texts. exists (written (run_effects doc)).
  split; [exact (extract_run doc texts w)|]. split.
  - unfold after_run, apply_effects. cbn [files written effects_app app].
    reflexivity.
  - split; [|exact format_02d_two_digits].
    intros p img. rewrite in_run_written. split.
    + intros [xref [pidx [rect [pix [Hp [-> ->]]]]]].
      exists xref, pidx, rect, pix.
      destruct (placement_path_kind (detect_series (page_text doc pidx))
                  (color_of (detect_series (page_text doc pidx))
                            (page_words doc pidx) rect) pidx xref pix)
        as [E1 E2].
      repeat split; try apply Hp; auto. now rewrite E1, E2.
    + intros [xref [pidx [rect [pix [Hp [-> [-> _]]]]]]].
      exists xref, pidx, rect, pix. repeat split; apply Hp.
Qed.

Lemma two_page_doc_texts : words_have_text two_page_doc.
Proof.
  intros pidx. unfold two_page_doc, page_words.
  destruct (pidx =? 0)%Z; repeat constructor. discriminate.
Qed.

Lemma placement_output_path_witness :
  exists new,
    main (Some two_page_doc) empty_world
    = (Ok tt, after_run two_page_doc empty_world)
    /\ files (after_run two_page_doc empty_world)
       = (files empty_world ++ new)%list
    /\ (forall p img,
          In (p, img) new <->
          exists xref pidx rect pix,
            swatch_placement two_page_doc xref pidx rect pix
            /\ img = stored two_page_doc pix
            /\ p = match detect_series (page_text two_page_doc pidx),
                         color_of (detect_series (page_text two_page_doc pidx))
                                  (page_words two_page_doc pidx) rect with
                   | Some series, Some color =>
                       "swatches/" ++ series ++ "/" ++ color ++ ".png"
                   | _, _ =>
                       "swatches_raw/page" ++ format_02d pidx
                       ++ "_xref" ++ str_of_int xref
                       ++ "_w" ++ str_of_int (Pixmap.width pix)
                       ++ "_h" ++ str_of_int (Pixmap.height pix) ++ ".png"
                   end
            /\ labelled_path p
               = confident (detect_series (page_text two_page_doc pidx))
                   (color_of (detect_series (page_text two_page_doc pidx))
                             (page_words two_page_doc pidx) rect)
            /\ fallback_path p = negb (labelled_path p))
    /\ (forall pidx, (0 <= pidx < 100)%Z ->
          format_02d pidx
          = String (digit (pidx / 10)) (String (digit (pidx mod 10)) "")).
Proof.
  apply (placement_output_path two_page_doc empty_world).
  intros pidx. unfold two_page_doc, page_words.
  destruct (pidx =? 0)%Z; repeat constructor. discriminate.
Defined.

(** C5.  A run on a document whose words all carry a text ends by printing
    the summary; the confident count it reports is the number of files it
    wrote into the labelled tree, the fallback count the number of files it
    wrote into the fallback bucket, and the two add up to the number of
    files written in the run. *)
Theorem summary_counts_match {F : Type} {num : Num F} (doc : Doc F)
    (w : World) :
  words_have_text doc ->
  exists w' new matched unlabeled,
    main (Some doc) w = (Ok tt, w')
    /\ files w' = (files w ++ new)%list
    /\ stdout w'
       = (stdout w
          ++ [("Done. Matched swatches: " ++ str_of_int matched
               ++ ", Unlabeled (swatches_raw): " ++ str_of_int unlabeled)%string;
              HINT])%list
    /\ matched = count_paths labelled_path new
    /\ unlabeled = count_paths fallback_path new
    /\ (matched + unlabeled)%Z = Z.of_nat (List.length new).
Proof.
  intros texts.
  exists (after_run doc w), (written (run_effects doc)),
         (fst (run_counts doc)), (snd (run_counts doc)).
  split; [exact (extract_run doc texts w)|].
  split; [unfold after_run, apply_effects; reflexivity|].
  split; [reflexivity|]. exact (tally_run doc).
Qed.

Lemma summary_counts_match_witness :
  exists w' new matched unlabeled,
    main (Some two_page_doc) empty_world = (Ok tt, w')
    /\ files w' = (files empty_world ++ new)%list
    /\ stdout w'
       = (stdout empty_world
          ++ [("Done. Matched swatches: " ++ str_of_int matched
               ++ ", Unlabeled (swatches_raw): " ++ str_of_int unlabeled)%string;
              HINT])%list
    /\ matched = count_paths labelled_path new
    /\ unlabeled = count_paths fallback_path new
    /\ (matched + unlabeled)%Z = Z.of_nat (List.length new).
Proof.
  apply (summary_counts_match two_page_doc empty_world).
  intros pidx. unfold two_page_doc, page_words.
  destruct (pidx =? 0)%Z; repeat constructor. discriminate.
Defined.

(** C6.  When no document is at the configured path, the program prints a
    diagnostic, ends with the exit status 1, and leaves the directories and
    the files as they were: nothing is made, written or decoded. *)
Theorem missing_document_exits {F : Type} {num : Num F} (w : World) :
  exists w',
    main (F := F) None w = (Raise (SystemExit 1), w')
    /\ exit_status (fst (main (F := F) None w)) = 1%Z
    /\ exit_status (fst (main (F := F) None w)) <> 0%Z
    /\ stdout w'
       = (stdout w
          ++ ["ERROR: assets/brochure.pdf not found. Upload your brochure PDF to assets/brochure.pdf and re-run."])%list
    /\ dirs w' = dirs w /\ files w' = files w /\ decodes w' = decodes w.
Proof.
  eexists. split; [reflexivity|]. cbn. repeat split. discriminate.
Qed.

(** *** Failures of the library *)

Lemma for_each_ext {A S : Type} (body1 body2 : A -> S -> M S) (xs : list A) :
  (forall x s w, body1 x s w = body2 x s w) ->
  forall s w, for_each xs body1 s w = for_each xs body2 s w.
Proof.
  intros H. induction xs as [|x xs IH]; intros s w; [reflexivity|].
  cbn [for_each]. unfold bind. rewrite H.
  destruct (body2 x s w) as [[s'|e] w']; [apply IH|reflexivity].
Qed.

Lemma bind_ext {A B : Type} (m : M A) (k1 k2 : A -> M B) w :
  (forall a w', k1 a w' = k2 a w') -> bind m k1 w = bind m k2 w.
Proof.
  intros H. unfold bind. destruct (m w) as [[a|e] w']; [apply H|reflexivity].
Qed.

Section Unfailing.
Context {F : Type} {num : Num F}.
Variable doc : Doc F.

Lemma unfailing_save_pixmap pix out_path w :
  Unguarded.save_pixmap (unfailing doc) pix out_path w
  = save_pixmap doc pix out_path w.
Proof.
  unfold Unguarded.save_pixmap, save_pixmap, Unguarded.pix_save, pix_save,
    bind, ret, lift.
  cbn [unfailing Unguarded.to_rgb Unguarded.drop_alpha Unguarded.save].
  destruct (4 <=? Pixmap.n pix)%Z; [|reflexivity].
  destruct (to_rgb doc pix); reflexivity.
Qed.

Lemma unfailing_process_rect out_root raw_root pidx xref series_hint words
    pix rect c w :
  Unguarded.process_rect (unfailing doc) out_root raw_root pidx xref
                         series_hint words pix rect c w
  = process_rect doc out_root raw_root pidx xref series_hint words pix
                 rect c w.
Proof.
  unfold Unguarded.process_rect, process_rect.
  destruct (negb (is_square_swatch pix)); [reflexivity|].
  apply bind_ext. intros g w1. apply bind_ext. intros p w2.
  unfold bind. now rewrite unfailing_save_pixmap.
Qed.

Lemma unfailing_process_page out_root raw_root xref pidx s w :
  Unguarded.process_page (unfailing doc) out_root raw_root xref pidx s w
  = process_page doc out_root raw_root xref pidx s w.
Proof.
  destruct s as [a c]. unfold Unguarded.process_page, process_page.
  unfold bind at 1. unfold lift at 1.
  cbn [unfailing Unguarded.get_image_rects Unguarded.page_text
       Unguarded.page_words].
  destruct (get_image_rects doc pidx xref) as [|r rs]; [reflexivity|].
  unfold bind at 1 3, Unguarded.decode, decode.
  cbn [unfailing Unguarded.load_pixmap].
  destruct (load_pixmap doc xref) as [pix|e]; [|reflexivity].
  unfold bind.
  rewrite (for_each_ext _ _ _
             (unfailing_process_rect out_root raw_root pidx xref
                (detect_series (page_text doc pidx)) (page_words doc pidx)
                pix)).
  reflexivity.
Qed.

Lemma unfailing_process_xref out_root raw_root xref c w :
  Unguarded.process_xref (unfailing doc) out_root raw_root xref c w
  = process_xref doc out_root raw_root xref c w.
Proof.
  unfold Unguarded.process_xref, process_xref.
  cbn [unfailing Unguarded.xref_get_key Unguarded.page_count].
  destruct (xref_get_key doc xref "Subtype") as [kv|e]; [|reflexivity].
  destruct (negb _); [reflexivity|].
  unfold bind.
  rewrite (for_each_ext _ _ _ (unfailing_process_page out_root raw_root xref)).
  reflexivity.
Qed.

(** When the three calls succeed, the two drivers are one. *)
Lemma unfailing_main w :
  Unguarded.main (Some (unfailing doc)) w = main (Some doc) w.
Proof.
  cbn [Unguarded.main main]. unfold Unguarded.extract, extract.
  apply bind_ext. intros r1 w1. apply bind_ext. intros r2 w2.
  cbn [unfailing Unguarded.xref_length]. unfold bind.
  rewrite (for_each_ext _ _ _ (unfailing_process_xref r1 r2)).
  reflexivity.
Qed.
End Unfailing.

(** C7, the defect.  The program guards its own decoding call, but it asks
    for the placements of the object first, outside any [try], and that
    call decodes the image too.  On [corrupt_doc] the run writes the file of
    object 1 and then ends with the exception that [get_image_rects] raises
    for object 2: exit status 1, no file for object 3, no summary.  The
    guarded decoding call is never reached for object 2. *)
Theorem undecodable_image_aborts_run :
  Unguarded.main (Some corrupt_doc) empty_world
  = (Raise LibraryError,
     {| dirs := ["swatches"; "swatches_raw"];
        files := [("swatches_raw/page00_xref1_w200_h200.png",
                   Pixmap.mk 200 200 3 [])];
        stdout := [];
        decodes := [1%Z] |})
  /\ exit_status (fst (Unguarded.main (Some corrupt_doc) empty_world)) = 1%Z.
Proof. split; vm_compute; reflexivity. Qed.

(** C8, the defect.  The [except] branch of [save_pixmap] replaces the image
    by its copy without alpha and saves that, outside any [try].  On
    [cmyk_doc] the conversion of object 1 to RGB fails, the copy is the same
    CMYK image, and [pix.save] raises: the run ends there with exit status
    1, writes no file, not even that of the RGB object 2, and prints no
    summary. *)
Theorem failed_conversion_aborts_run :
  Unguarded.main (Some cmyk_doc) empty_world
  = (Raise LibraryError,
     {| dirs := ["swatches"; "swatches_raw"];
        files := [];
        stdout := [];
        decodes := [1%Z] |})
  /\ exit_status (fst (Unguarded.main (Some cmyk_doc) empty_world)) = 1%Z.
Proof. split; vm_compute; reflexivity. Qed.

(** *** Decoding calls *)

Lemma py_range_NoDup lo hi : NoDup (py_range lo hi).
Proof.
  unfold py_range. apply NoDup_map_NoDup_ForallPairs; [|apply seq_NoDup].
  intros a b _ _ H. lia.
Qed.

Lemma count_occ_own {A : Type} (dec : forall x y : A, {x = y} + {x <> y})
    (f : A -> list A) (ys : list A) (x : A) :
  (forall y z, In z (f y) -> z = y) -> NoDup ys -> In x ys ->
  count_occ dec (flat_map f ys) x = List.length (f x).
Proof.
  intros Hown. induction ys as [|y ys IH]; intros Hnd Hin; [destruct Hin|].
  cbn [flat_map]. rewrite count_occ_app. inversion Hnd as [|? ? Hy Hnd']; subst.
  assert (Hall : forall l, (forall z, In z l -> z = x) ->
                           count_occ dec l x = List.length l).
  { induction l as [|z l IHl]; intros Hz; [reflexivity|].
    cbn. rewrite (Hz z (or_introl eq_refl)).
    destruct (dec x x); [|contradiction].
    rewrite IHl; [reflexivity|]. intros z' Hz'. apply Hz. now right. }
  assert (Hnone : forall zs, ~ In x zs -> count_occ dec (flat_map f zs) x = 0).
  { intros zs Hx. apply count_occ_not_In. intros Hi.
    apply in_flat_map in Hi. destruct Hi as [z [Hz Hzx]].
    apply Hown in Hzx. subst. contradiction. }
  destruct (dec y x) as [->|Hne].
  - rewrite Hall by (intros z Hz; now apply Hown).
    rewrite Hnone by assumption. lia.
  - destruct Hin as [->|Hin]; [contradiction|].
    rewrite IH by assumption.
    assert (E : count_occ dec (f y) x = 0).
    { apply count_occ_not_In. intros Hi. apply Hown in Hi. congruence. }
    rewrite E. reflexivity.
Qed.

Section RunDecodes.
Context {F : Type} {num : Num F}.
Variable doc : Doc F.

Lemma decoded_rects pidx xref series_hint words pix (rects : list (Rect.t F)) :
  decoded (effects_concat
             (map (rect_effects doc pidx xref series_hint words pix) rects))
  = [].
Proof.
  rewrite decoded_concat. induction rects as [|r rs IH]; [reflexivity|].
  cbn [map flat_map]. rewrite IH. unfold rect_effects.
  destruct (is_square_swatch pix); reflexivity.
Qed.

Lemma decoded_page xref pidx :
  decoded (page_effects doc xref pidx)
  = if placed_on doc xref pidx then [xref] else [].
Proof.
  unfold page_effects. destruct (placed_on doc xref pidx); [|reflexivity].
  cbn [decoded effects_app]. destruct (load_pixmap doc xref).
  - now rewrite decoded_rects.
  - reflexivity.
Qed.

Lemma decoded_xref xref :
  decoded (xref_effects doc xref) = object_decodes doc xref.
Proof.
  unfold xref_effects, object_decodes.
  destruct (is_image_object doc xref); [|reflexivity].
  rewrite decoded_concat. induction (pages doc) as [|p ps IH]; [reflexivity|].
  cbn [map flat_map filter]. rewrite IH, decoded_page.
  destruct (placed_on doc xref p); reflexivity.
Qed.

Lemma decoded_run :
  decoded (run_effects doc) = flat_map (object_decodes doc) (objects doc).
Proof.
  unfold run_effects. rewrite decoded_concat.
  induction (objects doc) as [|x xs IH]; [reflexivity|].
  cbn [map flat_map]. now rewrite IH, decoded_xref.
Qed.
End RunDecodes.

(** C9, as the code has it.  In a run on a document whose words all carry a
    text, the pixel data of an image object is decoded once for each page on
    which the object is placed, whatever the number of its placements on
    that page: the decoding calls made for the object are as many as the
    pages it is placed on, so an object placed on several pages is decoded
    more than once. *)
Theorem decoded_once_per_page {F : Type} {num : Num F} (doc : Doc F)
    (w : World) :
  words_have_text doc ->
  exists w' new,
    main (Some doc) w = (Ok tt, w')
    /\ decodes w' = (decodes w ++ new)%list
    /\ new = flat_map (object_decodes doc) (objects doc)
    /\ forall xref,
         In xref (objects doc) -> is_image_object doc xref = true ->
         count_occ Z.eq_dec new xref
         = List.length (filter (placed_on doc xref) (pages doc)).
Proof.
  intros texts.
  exists (after_run doc w), (flat_map (object_decodes doc) (objects doc)).
  split; [exact (extract_run doc texts w)|]. split.
  - unfold after_run, apply_effects. cbn [decodes decoded effects_app app].
    now rewrite decoded_run.
  - split; [reflexivity|]. intros xref Hx Hi.
    rewrite (count_occ_own Z.eq_dec (object_decodes doc) (objects doc) xref).
    + unfold object_decodes. rewrite Hi. apply length_map.
    + intros y z Hz. unfold object_decodes in Hz.
      destruct (is_image_object doc y); [|destruct Hz].
      apply in_map_iff in Hz. now destruct Hz as [_ [-> _]].
    + apply py_range_NoDup.
    + exact Hx.
Qed.

Lemma decoded_once_per_page_witness :
  exists w' new,
    main (Some two_page_doc) empty_world = (Ok tt, w')
    /\ decodes w' = (decodes empty_world ++ new)%list
    /\ new = flat_map (object_decodes two_page_doc) (objects two_page_doc)
    /\ forall xref,
         In xref (objects two_page_doc) ->
         is_image_object two_page_doc xref = true ->
         count_occ Z.eq_dec new xref
         = List.length (filter (placed_on two_page_doc xref)
                               (pages two_page_doc)).
Proof.
  apply (decoded_once_per_page two_page_doc empty_world).
  intros pidx. unfold two_page_doc, page_words.
  destruct (pidx =? 0)%Z; repeat constructor. discriminate.
Defined.

(** An image object placed on two pages is decoded twice in one run. *)
Lemma decoded_once_counterexample :
  words_have_text two_page_doc
  /\ In 1%Z (objects two_page_doc)
  /\ is_image_object two_page_doc 1 = true
  /\ count_occ Z.eq_dec
       (decodes (snd (main (Some two_page_doc) empty_world))) 1%Z = 2.
Proof.
  split; [exact two_page_doc_texts|]. split; [now left|].
  split; vm_compute; reflexivity.
Qed.

Local Open Scope Z_scope.

(** ** Geometry filter *)

(** *** Binary digits *)

Lemma digits2_pos_bounds p :
  2 ^ (Zpos (digits2_pos p) - 1) <= Zpos p < 2 ^ Zpos (digits2_pos p).
Proof.
  induction p as [p IH|p IH|]; cbn [digits2_pos].
  - rewrite Pos2Z.inj_succ.
    replace (Z.succ (Zpos (digits2_pos p)) - 1) with (Zpos (digits2_pos p) - 1 + 1) by lia.
    rewrite Z.pow_succ_r by lia. rewrite Z.pow_add_r by lia.
    change (2 ^ 1) with 2. lia.
  - rewrite Pos2Z.inj_succ.
    replace (Z.succ (Zpos (digits2_pos p)) - 1) with (Zpos (digits2_pos p) - 1 + 1) by lia.
    rewrite Z.pow_succ_r by lia. rewrite Z.pow_add_r by lia.
    change (2 ^ 1) with 2. lia.
  - cbn. lia.
Qed.

Lemma digits2_pos_unique p k :
  2 ^ (k - 1) <= Zpos p < 2 ^ k -> Zpos (digits2_pos p) = k.
Proof.
  intros [Hlo Hhi]. pose proof (digits2_pos_bounds p) as [Dlo Dhi].
  set (d := Zpos (digits2_pos p)) in *.
  assert (Hd : 0 < d) by (unfold d; lia).
  assert (Hk : 0 < k).
  { destruct (Z.le_gt_cases k 0) as [H|H]; [|exact H].
    assert (2 ^ k <= 2 ^ 0) by (destruct (Z.eq_dec k 0) as [->|]; [lia|];
      rewrite (Z.pow_neg_r 2 k) by lia; cbn; lia).
    cbn in H0. lia. }
  destruct (Z.lt_trichotomy d k) as [H|[H|H]]; [|exact H|].
  - assert (2 ^ d <= 2 ^ (k - 1)) by (apply Z.pow_le_mono_r; lia). lia.
  - assert (2 ^ k <= 2 ^ (d - 1)) by (apply Z.pow_le_mono_r; lia). lia.
Qed.

Lemma iter_xO p k : Zpos (Pos.iter xO p k) = Zpos p * 2 ^ Zpos k.
Proof.
  induction k as [|k IH] using Pos.peano_ind.
  - cbn. lia.
  - rewrite Pos.iter_succ, Pos2Z.inj_xO, IH, Pos2Z.inj_succ, Z.pow_succ_r by lia.
    lia.
Qed.

(** *** Rounding a quotient of 53 or 54 bits *)

Lemma Zdigits2_unique z k :
  0 < z -> 2 ^ (k - 1) <= z < 2 ^ k -> Zdigits2 z = k.
Proof.
  intros Hz H. destruct z as [|p|p]; try lia. cbn [Zdigits2].
  now apply digits2_pos_unique.
Qed.

Lemma fexp_normal e : -1021 <= e -> fexp 53 1024 e = e - 53.
Proof. intros H. unfold fexp, emin. lia. Qed.

Lemma shr_fexp_53 q e l :
  2 ^ 52 <= q < 2 ^ 53 -> -1074 <= e ->
  shr_fexp 53 1024 q e l = (shr_record_of_loc q l, e).
Proof.
  intros Hq He. unfold shr_fexp.
  rewrite (Zdigits2_unique q 53) by (cbn in *; lia).
  rewrite fexp_normal by lia.
  replace (53 + e - 53 - e) with 0 by lia. reflexivity.
Qed.

Lemma shr_fexp_54 q e l :
  2 ^ 53 <= q < 2 ^ 54 -> -1074 <= e ->
  shr_fexp 53 1024 q e l = (shr_1 (shr_record_of_loc q l), e + 1).
Proof.
  intros Hq He. unfold shr_fexp.
  rewrite (Zdigits2_unique q 54) by (cbn in *; lia).
  rewrite fexp_normal by lia.
  replace (54 + e - 53 - e) with 1 by lia. reflexivity.
Qed.

Lemma loc_of_shr_record_of_loc q l :
  loc_of_shr_record (shr_record_of_loc q l) = l.
Proof. destruct l as [|[| |]]; reflexivity. Qed.

Lemma shr_m_of_loc q l : shr_m (shr_record_of_loc q l) = q.
Proof. destruct l as [|[| |]]; reflexivity. Qed.

(** A mantissa of 53 bits needs no further shift. *)
Lemma binary_round_aux_done m e :
  2 ^ 52 <= m < 2 ^ 53 -> -1074 <= e <= 971 ->
  (let '(mrs, e') := shr_fexp 53 1024 m e loc_Exact in
   match shr_m mrs with
   | Z0 => S754_zero false
   | Zpos p => if e' <=? 1024 - 53 then S754_finite false p e'
               else S754_infinity false
   | Zneg _ => S754_nan
   end) = S754_finite false (Z.to_pos m) e.
Proof.
  intros Hm He. rewrite shr_fexp_53 by lia. cbn [shr_record_of_loc shr_m].
  destruct m as [|p|p]; try (cbn in Hm; lia).
  replace (e <=? 1024 - 53) with true by (symmetry; apply Z.leb_le; lia).
  reflexivity.
Qed.

Lemma binary_round_aux_53 q e l :
  2 ^ 52 <= q < 2 ^ 53 -> -1074 <= e <= 971 ->
  round_nearest_even q l < 2 ^ 53 ->
  q <= round_nearest_even q l ->
  binary_round_aux 53 1024 false q e l
  = S754_finite false (Z.to_pos (round_nearest_even q l)) e.
Proof.
  intros Hq He Hr Hr'. unfold binary_round_aux.
  rewrite shr_fexp_53 by lia.
  rewrite loc_of_shr_record_of_loc, shr_m_of_loc.
  apply binary_round_aux_done; lia.
Qed.

Lemma binary_round_aux_54 q e l :
  2 ^ 53 <= q < 2 ^ 54 -> -1074 <= e <= 970 ->
  let mrs := shr_1 (shr_record_of_loc q l) in
  let m := round_nearest_even (shr_m mrs) (loc_of_shr_record mrs) in
  2 ^ 52 <= m < 2 ^ 53 ->
  binary_round_aux 53 1024 false q e l = S754_finite false (Z.to_pos m) (e + 1).
Proof.
  intros Hq He mrs m Hm. unfold binary_round_aux.
  rewrite shr_fexp_54 by lia. fold mrs. fold m.
  apply binary_round_aux_done; lia.
Qed.

Lemma new_location_spec b r :
  0 < b -> 0 <= r < b ->
  match new_location b r with
  | loc_Exact => r = 0
  | loc_Inexact Lt => 0 < 2 * r < b
  | loc_Inexact Eq => 2 * r = b
  | loc_Inexact Gt => b < 2 * r
  end.
Proof.
  intros Hb Hr. unfold new_location, new_location_even, new_location_odd.
  destruct (Z.even b) eqn:Eb.
  - destruct (Z.eqb_spec r 0); [assumption|].
    destruct (Z.compare_spec (2 * r) b); lia.
  - destruct (Z.eqb_spec r 0); [assumption|].
    assert (Hodd : Z.odd b = true) by (rewrite <- Z.negb_even, Eb; reflexivity).
    apply Z.odd_spec in Hodd. destruct Hodd as [k Hk].
    destruct (Z.compare_spec (2 * r + 1) b); lia.
Qed.

(** *** Division of two normal numbers *)

(** The quotient of two positive normal numbers is a normal number within
    half a unit in the last place of the exact quotient. *)
Lemma SFdiv_normal a b ea eb :
  2 ^ 52 <= Zpos a < 2 ^ 53 -> 2 ^ 52 <= Zpos b < 2 ^ 53 ->
  -900 <= ea - eb <= 900 ->
  let k := if Zpos a <? Zpos b then 0 else 1 in
  exists m,
    SFdiv 53 1024 (S754_finite false a ea) (S754_finite false b eb)
    = S754_finite false m (ea - eb - 53 + k)
    /\ 2 ^ 52 <= Zpos m < 2 ^ 53
    /\ (2 * Zpos m - 1) * Zpos b <= Zpos a * 2 ^ (54 - k)
       <= (2 * Zpos m + 1) * Zpos b.
Proof.
  intros Ha Hb He k. unfold SFdiv, SFdiv_core_binary. cbn [xorb].
  rewrite (Zdigits2_unique (Zpos a) 53), (Zdigits2_unique (Zpos b) 53)
    by (cbn in *; lia).
  rewrite fexp_normal by lia.
  replace (Z.min (53 + ea - (53 + eb) - 53) (ea - eb)) with (ea - eb - 53) by lia.
  replace (ea - eb - (ea - eb - 53)) with 53 by lia.
  rewrite Z.shiftl_mul_pow2 by lia.
  pose proof (Z_div_mod (Zpos a * 2 ^ 53) (Zpos b) eq_refl) as Hdiv.
  destruct (Z.div_eucl (Zpos a * 2 ^ 53) (Zpos b)) as [q r].
  destruct Hdiv as [Hqr Hr].
  pose proof (new_location_spec (Zpos b) r ltac:(lia) Hr) as Hloc.
  set (A := Zpos a) in *. set (B := Zpos b) in *.
  change (2 ^ 52) with 4503599627370496 in *.
  change (2 ^ 53) with 9007199254740992 in *.
  unfold k. destruct (Z.ltb_spec A B) as [Hlt|Hge].
  - (* the quotient has 53 bits *)
    assert (Hq : 4503599627370496 <= q < 9007199254740991) by nia.
    assert (Hrne : q <= round_nearest_even q (new_location B r)
                   /\ round_nearest_even q (new_location B r) <= q + 1).
    { destruct (new_location B r) as [|[| |]]; cbn [round_nearest_even];
        try destruct (Z.even q); lia. }
    rewrite binary_round_aux_53
      by (change (2 ^ 52) with 4503599627370496;
          change (2 ^ 53) with 9007199254740992; lia).
    exists (Z.to_pos (round_nearest_even q (new_location B r))).
    rewrite Z2Pos.id by lia.
    split; [f_equal; lia|]. split; [lia|].
    change (2 ^ (54 - 0)) with (2 * 9007199254740992).
    destruct (new_location B r) as [|[| |]]; cbn [round_nearest_even] in *;
      try destruct (Z.even q); nia.
  - (* the quotient has 54 bits *)
    assert (Hq : 9007199254740992 <= q < 18014398509481983) by nia.
    set (mrs := shr_1 (shr_record_of_loc q (new_location B r))).
    set (m := round_nearest_even (shr_m mrs) (loc_of_shr_record mrs)).
    assert (Hm : 4503599627370496 <= m < 9007199254740992
                 /\ (2 * m - 1) * B <= A * 9007199254740992 <= (2 * m + 1) * B).
    { unfold m, mrs. destruct q as [|p|p]; try lia.
      destruct (new_location B r) as [|[| |]];
        destruct p as [p|p|]; try lia;
        cbn [shr_record_of_loc shr_1 orb shr_m loc_of_shr_record
             round_nearest_even];
        try destruct (Z.even (Zpos p)) eqn:Ev; nia. }
    rewrite binary_round_aux_54
      by (change (2 ^ 52) with 4503599627370496;
          change (2 ^ 53) with 9007199254740992;
          change (2 ^ 54) with 18014398509481984; fold mrs; fold m; lia).
    fold mrs. fold m. exists (Z.to_pos m). rewrite Z2Pos.id by lia.
    split; [f_equal; lia|]. split; [lia|].
    change (2 ^ (54 - 1)) with 9007199254740992. lia.
Qed.

(** *** Pixel dimensions as floats *)

(** A positive integer below [2^31] converts exactly, to a normal number. *)
Lemma of_int_normal w :
  0 < w < 2 ^ 31 ->
  exists a s,
    Float64.of_int w = S754_finite false a (- s)
    /\ Zpos a = w * 2 ^ s /\ 22 <= s <= 52
    /\ 2 ^ 52 <= Zpos a < 2 ^ 53.
Proof.
  intros Hw. destruct w as [|p|p]; try lia.
  pose proof (digits2_pos_bounds p) as Hd.
  set (d := Zpos (digits2_pos p)) in *.
  assert (Hd1 : 1 <= d) by (unfold d; lia).
  assert (Hd31 : d <= 31).
  { destruct (Z.le_gt_cases d 31) as [H|H]; [exact H|].
    assert (2 ^ 31 <= 2 ^ (d - 1)) by (apply Z.pow_le_mono_r; lia). lia. }
  assert (Hs : 2 ^ 52 <= Zpos p * 2 ^ (53 - d) < 2 ^ 53).
  { assert (E52 : 2 ^ 52 = 2 ^ (d - 1) * 2 ^ (53 - d))
      by (rewrite <- Z.pow_add_r by lia; f_equal; lia).
    assert (E53 : 2 ^ 53 = 2 ^ d * 2 ^ (53 - d))
      by (rewrite <- Z.pow_add_r by lia; f_equal; lia).
    rewrite E52, E53.
    assert (0 < 2 ^ (53 - d)) by (apply Z.pow_pos_nonneg; lia).
    split; [apply Z.mul_le_mono_nonneg_r | apply Z.mul_lt_mono_pos_r]; lia. }
  unfold Float64.of_int, binary_normalize, binary_round, shl_align.
  unfold Float64.prec, Float64.emax. fold d.
  rewrite fexp_normal by lia.
  destruct (d + 0 - 53 - 0) as [|k|k] eqn:Ek; try lia.
  assert (Hk : Zpos k = 53 - d) by lia.
  pose proof (iter_xO p k) as Hi. rewrite Hk in Hi.
  exists (Pos.iter xO p k), (53 - d).
  rewrite binary_round_aux_53; cbn [round_nearest_even]; rewrite ?Hi; try lia.
  split; [f_equal; lia|]. split; [reflexivity|]. split; [lia | exact Hs].
Qed.

(** The quotient of two such dimensions is a normal number [m * 2^E] within
    half a unit in the last place of the exact ratio. *)
Lemma div_of_ints w h :
  0 < w < 2 ^ 31 -> 0 < h < 2 ^ 31 ->
  exists m E,
    Float64.div (Float64.of_int w) (Float64.of_int h) = S754_finite false m E
    /\ 2 ^ 52 <= Zpos m < 2 ^ 53 /\ -85 <= E <= -20
    /\ (2 * Zpos m - 1) * h <= w * 2 ^ (1 - E) <= (2 * Zpos m + 1) * h.
Proof.
  intros Hw Hh.
  destruct (of_int_normal w Hw) as [a [s [Ea [Ha [Hs Han]]]]].
  destruct (of_int_normal h Hh) as [b [t [Eb [Hb [Ht Hbn]]]]].
  rewrite Ea, Eb. unfold Float64.div, Float64.prec, Float64.emax.
  destruct (SFdiv_normal a b (- s) (- t) Han Hbn ltac:(lia)) as [m [Ed [Hm Hsw]]].
  set (k := if Zpos a <? Zpos b then 0 else 1) in *.
  assert (Hk : 0 <= k <= 1) by (unfold k; destruct (Zpos a <? Zpos b); lia).
  exists m, (- s - - t - 53 + k). split; [exact Ed|]. split; [exact Hm|].
  split; [lia|].
  rewrite Ha, Hb in Hsw.
  replace (1 - (- s - - t - 53 + k)) with ((54 - k) + s - t) by lia.
  assert (Hp : 0 < 2 ^ t) by (apply Z.pow_pos_nonneg; lia).
  assert (Hx : w * 2 ^ s * 2 ^ (54 - k) = w * 2 ^ (54 - k + s - t) * 2 ^ t).
  { rewrite <- !Z.mul_assoc, <- !Z.pow_add_r by lia. do 2 f_equal. lia. }
  rewrite Hx in Hsw. rewrite !Z.mul_assoc in Hsw.
  split; apply (Z.mul_le_mono_pos_r _ _ (2 ^ t) Hp); lia.
Qed.

Lemma SFleb_finite m1 e1 m2 e2 :
  SFleb (S754_finite false m1 e1) (S754_finite false m2 e2)
  = (e1 <? e2) || ((e1 =? e2) && (Zpos m1 <=? Zpos m2)).
Proof.
  unfold SFleb, SFcompare.
  destruct (Z.compare_spec e1 e2) as [->|H|H].
  - rewrite Z.ltb_irrefl, Z.eqb_refl. cbn [orb andb].
    change (Pos.compare_cont Eq m1 m2) with (Pos.compare m1 m2).
    destruct (Pos.compare_spec m1 m2) as [->|H|H]; symmetry.
    + apply Z.leb_le. lia.
    + apply Z.leb_le. lia.
    + apply Z.leb_gt. lia.
  - apply Z.ltb_lt in H. now rewrite H.
  - assert (H1 : (e1 <? e2) = false) by (apply Z.ltb_ge; lia).
    assert (H2 : (e1 =? e2) = false) by (apply Z.eqb_neq; lia).
    now rewrite H1, H2.
Qed.

(** *** The band of aspect ratios *)

Lemma ratio_band_float w h :
  180 <= w < 2 ^ 31 -> 180 <= h < 2 ^ 31 ->
  SFleb Float64.lit_0_85 (Float64.div (Float64.of_int w) (Float64.of_int h))
  && SFleb (Float64.div (Float64.of_int w) (Float64.of_int h)) Float64.lit_1_18
  = true
  <-> 17 * h <= 20 * w /\ 50 * w <= 59 * h.
Proof.
  intros Hw Hh.
  destruct (div_of_ints w h ltac:(lia) ltac:(lia)) as [m [E [-> [Hm [HE Hs]]]]].
  unfold Float64.lit_0_85, Float64.lit_1_18. rewrite !SFleb_finite.
  change (2 ^ 52) with 4503599627370496 in Hm.
  change (2 ^ 53) with 9007199254740992 in Hm.
  change (2 ^ 31) with 2147483648 in Hw, Hh.
  set (M := Zpos m) in *.
  assert (Hcases : E <= -54 \/ E = -53 \/ E = -52 \/ -51 <= E) by lia.
  destruct Hcases as [Hc|[->|[->|Hc]]].
  - (* the quotient is below one half *)
    assert (Hx : 2 ^ 55 <= 2 ^ (1 - E)) by (apply Z.pow_le_mono_r; lia).
    change (2 ^ 55) with 36028797018963968 in Hx.
    replace (-53 <? E) with false by (symmetry; apply Z.ltb_ge; lia).
    replace (-53 =? E) with false by (symmetry; apply Z.eqb_neq; lia).
    cbn [orb andb]. split; [discriminate|]. intros [H1 H2]. exfalso. nia.
  - change (2 ^ (1 - -53)) with 18014398509481984 in Hs.
    change (-53 <? -53) with false. change (-53 =? -53) with true.
    change (-53 <? -52) with true. cbn [orb andb].
    rewrite andb_true_r, Z.leb_le. fold M. split.
    + intros H. split; nia.
    + intros [H1 H2]. nia.
  - change (2 ^ (1 - -52)) with 9007199254740992 in Hs.
    change (-53 <? -52) with true. change (-52 <? -52) with false.
    change (-52 =? -52) with true. cbn [orb andb].
    rewrite Z.leb_le. fold M. split.
    + intros H. split; nia.
    + intros [H1 H2]. nia.
  - (* the quotient is two or more *)
    assert (Hx : 2 ^ (1 - E) <= 2 ^ 52) by (apply Z.pow_le_mono_r; lia).
    assert (Hp : 0 < 2 ^ (1 - E)) by (apply Z.pow_pos_nonneg; lia).
    change (2 ^ 52) with 4503599627370496 in Hx.
    replace (E <? -52) with false by (symmetry; apply Z.ltb_ge; lia).
    replace (E =? -52) with false by (symmetry; apply Z.eqb_neq; lia).
    rewrite andb_false_r. split; [discriminate|]. intros [H1 H2]. exfalso. nia.
Qed.

Lemma ratio_as_fraction w p :
  (inject_Z w / inject_Z (Zpos p) == w # p)%Q.
Proof. symmetry. apply Qmake_Qdiv. Qed.

Lemma aspect_ratio_band pix :
  0 < Pixmap.height pix ->
  ((85 # 100 <= aspect_ratio pix)%Q /\ (aspect_ratio pix <= 118 # 100)%Q)
  <-> 17 * Pixmap.height pix <= 20 * Pixmap.width pix
      /\ 50 * Pixmap.width pix <= 59 * Pixmap.height pix.
Proof.
  intros Hh. unfold aspect_ratio.
  set (w := Pixmap.width pix). set (h := Pixmap.height pix) in *.
  assert (Eh : h = Zpos (Z.to_pos h)) by (rewrite Z2Pos.id; lia).
  rewrite Eh at 1 2. rewrite !ratio_as_fraction.
  unfold Qle. cbn [Qnum Qden]. rewrite Z2Pos.id by lia. lia.
Qed.

(** C2.  For the pixel dimensions of a pixmap (below [2^31]), the geometry
    filter answers true exactly when the width and the height are both at
    least 180 and the aspect ratio [width / height] lies in the closed
    interval from 0.85 to 1.18.  So it answers false when a dimension is
    below 180 or the ratio is outside the band, and true at the boundary
    ratios 0.85 and 1.18 themselves. *)
Theorem is_square_swatch_band (pix : Pixmap.t) :
  Pixmap.width pix < 2 ^ 31 -> Pixmap.height pix < 2 ^ 31 ->
  (is_square_swatch pix = true <->
   180 <= Pixmap.width pix /\ 180 <= Pixmap.height pix
   /\ (0.85 <= aspect_ratio pix <= 1.18)%Q)
  /\ (Pixmap.width pix < 180 \/ Pixmap.height pix < 180 ->
      is_square_swatch pix = false)
  /\ (180 <= Pixmap.width pix -> 180 <= Pixmap.height pix ->
      (aspect_ratio pix == 0.85)%Q \/ (aspect_ratio pix == 1.18)%Q ->
      is_square_swatch pix = true).
Proof.
  intros Hw Hh.
  assert (Hiff : is_square_swatch pix = true <->
                 180 <= Pixmap.width pix /\ 180 <= Pixmap.height pix
                 /\ (0.85 <= aspect_ratio pix <= 1.18)%Q).
  { unfold is_square_swatch.
    destruct (Z.ltb_spec (Pixmap.width pix) 180) as [Hw'|Hw'];
      [cbn [orb]; split; [discriminate | lia]|].
    destruct (Z.ltb_spec (Pixmap.height pix) 180) as [Hh'|Hh'];
      [cbn [orb]; split; [discriminate | lia]|].
    cbn [orb]. rewrite ratio_band_float by lia.
    rewrite <- aspect_ratio_band by lia. tauto. }
  split; [exact Hiff|]. split.
  - intros H. destruct (is_square_swatch pix); [|reflexivity].
    destruct Hiff as [Hi _]. specialize (Hi eq_refl). lia.
  - intros H1 H2 H. apply Hiff. repeat split; try assumption;
      destruct H as [H|H]; rewrite H; unfold Qle; cbn; lia.
Qed.

Lemma is_square_swatch_band_witness :
  let pix := Pixmap.mk 187 220 3 [] in
  (is_square_swatch pix = true <->
   180 <= Pixmap.width pix /\ 180 <= Pixmap.height pix
   /\ (0.85 <= aspect_ratio pix <= 1.18)%Q)
  /\ (Pixmap.width pix < 180 \/ Pixmap.height pix < 180 ->
      is_square_swatch pix = false)
  /\ (180 <= Pixmap.width pix -> 180 <= Pixmap.height pix ->
      (aspect_ratio pix == 0.85)%Q \/ (aspect_ratio pix == 1.18)%Q ->
      is_square_swatch pix = true).
Proof.
  intros pix. apply (is_square_swatch_band pix); reflexivity.
Defined.

(** The filter at the thresholds and at the two ends of the band. *)
Example is_square_swatch_at_bounds :
  is_square_swatch (Pixmap.mk 187 220 3 []) = true
  /\ is_square_swatch (Pixmap.mk 186 220 3 []) = false
  /\ is_square_swatch (Pixmap.mk 236 200 3 []) = true
  /\ is_square_swatch (Pixmap.mk 237 200 3 []) = false
  /\ is_square_swatch (Pixmap.mk 180 180 3 []) = true
  /\ is_square_swatch (Pixmap.mk 179 180 3 []) = false
  /\ is_square_swatch (Pixmap.mk 400 200 3 []) = false.
Proof. repeat split; vm_compute; reflexivity. Qed.

(** Beyond the range of pixel dimensions the rounding of the quotient
    shows: this ratio is below 0.85 and still rounds to the literal. *)
Example is_square_swatch_beyond_range :
  let pix := Pixmap.mk (17 * 2 ^ 50 - 1) (20 * 2 ^ 50) 3 [] in
  is_square_swatch pix = true /\ ~ (0.85 <= aspect_ratio pix)%Q.
Proof.
  split; [vm_compute; reflexivity|].
  unfold aspect_ratio, Qle. cbn. lia.
Qed.
(** ** Colour locator on doubles *)

(** *** The order of the doubles *)

Lemma lex_compare_lt e1 m1 e2 m2 :
  match e1 ?= e2 with
  | Lt => Lt
  | Gt => Gt
  | Eq => Pos.compare_cont Eq m1 m2
  end = Lt <-> e1 < e2 \/ (e1 = e2 /\ Zpos m1 < Zpos m2).
Proof.
  change (Pos.compare_cont Eq m1 m2) with (Pos.compare m1 m2).
  destruct (Z.compare_spec e1 e2); destruct (Pos.compare_spec m1 m2);
    split; intros H'; try discriminate; try reflexivity; lia.
Qed.

Lemma lex_compare_gt e1 m1 e2 m2 :
  match e1 ?= e2 with
  | Lt => Gt
  | Gt => Lt
  | Eq => CompOpp (Pos.compare_cont Eq m1 m2)
  end = Lt <-> e2 < e1 \/ (e1 = e2 /\ Zpos m2 < Zpos m1).
Proof.
  change (Pos.compare_cont Eq m1 m2) with (Pos.compare m1 m2).
  destruct (Z.compare_spec e1 e2); destruct (Pos.compare_spec m1 m2);
    cbn [CompOpp]; split; intros H'; try discriminate; try reflexivity; lia.
Qed.

(** [<] on doubles is the order of their keys. *)
Lemma SFltb_key x y :
  SFltb x y = true <->
  match float_key x, float_key y with
  | Some a, Some b => key_lt a b
  | _, _ => False
  end.
Proof.
  assert (E : SFltb x y = true <-> SFcompare x y = Some Lt).
  { unfold SFltb. destruct (SFcompare x y) as [[| |]|];
      split; congruence. }
  rewrite E. clear E. unfold SFcompare.
  destruct x as [sx|sx| |sx mx ex], y as [sy|sy| |sy my ey];
    try destruct sx; try destruct sy; cbn [float_key key_lt];
    (split;
     [ intros H;
       first [ discriminate H
             | solve [lia]
             | solve [injection H as H;
                      first [ apply lex_compare_gt in H; lia
                            | apply lex_compare_lt in H; lia ]]
             | solve [destruct H] ]
     | intros H;
       first [ reflexivity
             | solve [exfalso; lia]
             | solve [f_equal;
                      first [ apply lex_compare_gt; lia
                            | apply lex_compare_lt; lia ]]
             | solve [destruct H] ] ]).
Qed.

Lemma SFltb_irrefl a : SFltb a a = false.
Proof.
  destruct (SFltb a a) eqn:E; [|reflexivity].
  apply SFltb_key in E. destruct (float_key a) as [[[c e] m]|]; [|destruct E].
  cbn in E. lia.
Qed.

Lemma SFltb_trans a b c :
  SFltb a b = true -> SFltb b c = true -> SFltb a c = true.
Proof.
  rewrite !SFltb_key.
  destruct (float_key a) as [[[c1 e1] m1]|]; [|intros []].
  destruct (float_key b) as [[[c2 e2] m2]|]; [|intros []].
  destruct (float_key c) as [[[c3 e3] m3]|]; [|intros _ []].
  cbn. lia.
Qed.

(** A number that stands below another one is comparable with all. *)
Lemma SFltb_comparable a b d u :
  SFltb d u = true -> SFltb a b = true ->
  SFltb a d = true \/ SFltb d b = true.
Proof.
  rewrite !SFltb_key.
  destruct (float_key d) as [[[c0 e0] m0]|]; [|intros []].
  destruct (float_key u) as [[[c4 e4] m4]|]; [|intros []].
  destruct (float_key a) as [[[c1 e1] m1]|]; [|intros _ []].
  destruct (float_key b) as [[[c2 e2] m2]|]; [|intros _ []].
  cbn. lia.
Qed.
(** *** Rounding *)

Lemma shr_1_m r : 0 <= shr_m r -> shr_m (shr_1 r) = shr_m r / 2.
Proof.
  destruct r as [m r s]. cbn [shr_m]. intros H.
  destruct m as [|[p|p|]|p]; cbn [shr_1 shr_m]; try lia;
    try reflexivity.
  - apply (Z.div_unique _ 2 _ 1); lia.
  - apply (Z.div_unique _ 2 _ 0); lia.
Qed.

Lemma iter_shr_1 p : forall r,
  0 <= shr_m r -> shr_m (iter_pos shr_1 p r) = shr_m r / 2 ^ Zpos p.
Proof.
  induction p as [p IH|p IH|]; intros r H; cbn [iter_pos].
  - assert (P : 0 < 2 ^ Zpos p) by (apply Z.pow_pos_nonneg; lia).
    assert (H1 : 0 <= shr_m (shr_1 r))
      by (rewrite shr_1_m by exact H; apply Z.div_pos; lia).
    assert (H2 : 0 <= shr_m (iter_pos shr_1 p (shr_1 r)))
      by (rewrite IH by exact H1; apply Z.div_pos; lia).
    rewrite IH by exact H2. rewrite IH by exact H1. rewrite shr_1_m by exact H.
    rewrite Z.div_div by lia. rewrite Z.div_div by nia.
    replace (2 ^ Zpos p~1) with (2 * (2 ^ Zpos p * 2 ^ Zpos p)); [reflexivity|].
    rewrite <- Z.pow_add_r by lia. rewrite <- Z.pow_succ_r by lia.
    f_equal. lia.
  - assert (P : 0 < 2 ^ Zpos p) by (apply Z.pow_pos_nonneg; lia).
    assert (H2 : 0 <= shr_m (iter_pos shr_1 p r))
      by (rewrite IH by exact H; apply Z.div_pos; lia).
    rewrite IH by exact H2. rewrite IH by exact H.
    rewrite Z.div_div by lia.
    replace (2 ^ Zpos p~0) with (2 ^ Zpos p * 2 ^ Zpos p); [reflexivity|].
    rewrite <- Z.pow_add_r by lia. f_equal. lia.
  - rewrite shr_1_m by exact H. reflexivity.
Qed.

Lemma Zdigits2_bound m : 0 <= m -> m < 2 ^ Zdigits2 m.
Proof.
  intros H. destruct m as [|p|p]; [cbn; lia| |lia].
  cbn [Zdigits2]. apply digits2_pos_bounds.
Qed.

Lemma Zdigits2_nonneg m : 0 <= Zdigits2 m.
Proof. destruct m; cbn; lia. Qed.

Lemma Zdigits2_le m k : 0 <= m -> 0 <= k -> m < 2 ^ k -> Zdigits2 m <= k.
Proof.
  intros Hm Hk H. destruct m as [|p|p]; cbn [Zdigits2]; [lia| |lia].
  - pose proof (digits2_pos_bounds p) as [Lo _].
    destruct (Z.le_gt_cases (Zpos (digits2_pos p)) k) as [L|G]; [exact L|].
    assert (2 ^ k <= 2 ^ (Zpos (digits2_pos p) - 1))
      by (apply Z.pow_le_mono_r; lia).
    lia.
Qed.

Lemma digits2_pos_le p k : 0 <= k -> Zpos p < 2 ^ k -> Zpos (digits2_pos p) <= k.
Proof. intros Hk H. apply (Zdigits2_le (Zpos p) k); lia. Qed.

Lemma fexp_bounds e :
  e - 53 <= fexp 53 1024 e /\ -1074 <= fexp 53 1024 e
  /\ (fexp 53 1024 e = e - 53 \/ fexp 53 1024 e = -1074).
Proof. unfold fexp, emin. lia. Qed.

(** The first shift leaves a mantissa of at most 53 bits. *)
Lemma shr_fexp_shape mx e l :
  0 <= mx ->
  0 <= shr_m (fst (shr_fexp 53 1024 mx e l)) < 2 ^ 53
  /\ snd (shr_fexp 53 1024 mx e l)
     = Z.max e (fexp 53 1024 (Zdigits2 mx + e)).
Proof.
  intros H. unfold shr_fexp, shr.
  pose proof (fexp_bounds (Zdigits2 mx + e)) as [F1 [F2 _]].
  pose proof (Zdigits2_bound mx H) as D.
  pose proof (Zdigits2_nonneg mx) as D0.
  set (f := fexp 53 1024 (Zdigits2 mx + e)) in *.
  destruct (f - e) as [|p|p] eqn:En; cbn [fst snd]; rewrite ?shr_m_of_loc.
  - split; [|lia]. split; [exact H|].
    assert (2 ^ Zdigits2 mx <= 2 ^ 53) by (apply Z.pow_le_mono_r; lia). lia.
  - rewrite iter_shr_1 by (rewrite shr_m_of_loc; exact H).
    rewrite shr_m_of_loc. split; [|lia]. split.
    + apply Z.div_pos; [exact H|]. apply Z.pow_pos_nonneg; lia.
    + apply Z.div_lt_upper_bound; [apply Z.pow_pos_nonneg; lia|].
      rewrite <- Z.pow_add_r by lia.
      assert (2 ^ Zdigits2 mx <= 2 ^ (Zpos p + 53))
        by (apply Z.pow_le_mono_r; lia).
      lia.
  - split; [|lia]. split; [exact H|].
    assert (2 ^ Zdigits2 mx <= 2 ^ 53) by (apply Z.pow_le_mono_r; lia). lia.
Qed.

Lemma round_nearest_even_bounds m l :
  m <= round_nearest_even m l <= m + 1.
Proof.
  destruct l as [|[| |]]; cbn [round_nearest_even]; try lia.
  destruct (Z.even m); lia.
Qed.

(** What rounding gives: never a NaN; the sign asked for; a mantissa that
    fits 53 bits; an exponent at most one above the larger of the one given
    and the one the magnitude calls for. *)
Lemma binary_round_aux_shape s mx e l :
  0 <= mx ->
  match binary_round_aux 53 1024 s mx e l with
  | S754_nan => False
  | S754_zero s' => s' = s
  | S754_infinity s' =>
      s' = s /\ 971 < Z.max e (fexp 53 1024 (Zdigits2 mx + e)) + 1
  | S754_finite s' m' e' =>
      s' = s /\ Zpos (digits2_pos m') <= 53
      /\ e' <= Z.max e (fexp 53 1024 (Zdigits2 mx + e)) + 1
  end.
Proof.
  intros H. unfold binary_round_aux.
  pose proof (shr_fexp_shape mx e l H) as [[M1 M1'] E1].
  destruct (shr_fexp 53 1024 mx e l) as [mrs1 e1]. cbn [fst snd] in *.
  pose proof (round_nearest_even_bounds (shr_m mrs1) (loc_of_shr_record mrs1))
    as [R1 R2].
  set (m2 := round_nearest_even (shr_m mrs1) (loc_of_shr_record mrs1)) in *.
  assert (H2 : 0 <= m2) by lia.
  pose proof (shr_fexp_shape m2 e1 loc_Exact H2) as [[M3 M3'] E3].
  destruct (shr_fexp 53 1024 m2 e1 loc_Exact) as [mrs3 e3].
  cbn [fst snd] in *.
  pose proof (fexp_bounds (Zdigits2 mx + e)) as [_ [F2 _]].
  pose proof (fexp_bounds (Zdigits2 m2 + e1)) as [_ [_ F3]].
  assert (D2 : Zdigits2 m2 <= 54).
  { apply Zdigits2_le; [lia|lia|].
    assert (2 ^ 54 = 2 * 2 ^ 53) by reflexivity. lia. }
  assert (E3' : e3 <= e1 + 1) by lia.
  destruct (shr_m mrs3) as [|m3|m3]; [reflexivity| |lia].
  destruct (e3 <=? 1024 - 53) eqn:Le.
  - split; [reflexivity|]. split; [apply digits2_pos_le; lia|lia].
  - apply Z.leb_gt in Le. split; [reflexivity|lia].
Qed.
Lemma digits2_pos_iter_xO p d :
  Zpos (digits2_pos (Pos.iter xO p d)) = Zpos (digits2_pos p) + Zpos d.
Proof.
  apply digits2_pos_unique. rewrite iter_xO.
  pose proof (digits2_pos_bounds p) as [Lo Hi].
  replace (Zpos (digits2_pos p) + Zpos d - 1)
    with (Zpos (digits2_pos p) - 1 + Zpos d) by lia.
  rewrite !Z.pow_add_r by lia.
  assert (0 < 2 ^ Zpos d) by (apply Z.pow_pos_nonneg; lia).
  split; nia.
Qed.

Lemma shl_align_value mx ex ez :
  ez <= ex ->
  Zpos (fst (shl_align mx ex ez)) = Zpos mx * 2 ^ (ex - ez).
Proof.
  intros H. unfold shl_align. destruct (ez - ex) as [|d|d] eqn:E;
    cbn [fst]; try lia.
  - replace (ex - ez) with 0 by lia. cbn. lia.
  - rewrite iter_xO. f_equal. f_equal. lia.
Qed.

(** Rounding after alignment: the exponent is at most one above the one
    the magnitude calls for. *)
Lemma binary_round_shape s mx ex :
  match binary_round 53 1024 s mx ex with
  | S754_nan => False
  | S754_zero s' => s' = s
  | S754_infinity s' =>
      s' = s /\ 971 < fexp 53 1024 (Zpos (digits2_pos mx) + ex) + 1
  | S754_finite s' m' e' =>
      s' = s /\ Zpos (digits2_pos m') <= 53
      /\ e' <= fexp 53 1024 (Zpos (digits2_pos mx) + ex) + 1
  end.
Proof.
  unfold binary_round, shl_align.
  set (f := fexp 53 1024 (Zpos (digits2_pos mx) + ex)).
  destruct (f - ex) as [|d|d] eqn:E.
  - pose proof (binary_round_aux_shape s (Zpos mx) ex loc_Exact) as A.
    cbn [Zdigits2] in A. fold f in A. specialize (A ltac:(lia)).
    destruct (binary_round_aux 53 1024 s (Zpos mx) ex loc_Exact);
      try exact A; intuition lia.
  - pose proof (binary_round_aux_shape s (Zpos mx) ex loc_Exact) as A.
    cbn [Zdigits2] in A. fold f in A. specialize (A ltac:(lia)).
    destruct (binary_round_aux 53 1024 s (Zpos mx) ex loc_Exact);
      try exact A; intuition lia.
  - pose proof (binary_round_aux_shape s (Zpos (Pos.iter xO mx d)) f
                  loc_Exact) as A.
    cbn [Zdigits2] in A. rewrite digits2_pos_iter_xO in A.
    replace (Zpos (digits2_pos mx) + Zpos d + f)
      with (Zpos (digits2_pos mx) + ex) in A by lia.
    fold f in A. specialize (A ltac:(lia)).
    destruct (binary_round_aux 53 1024 s (Zpos (Pos.iter xO mx d)) f
                loc_Exact); try exact A; intuition lia.
Qed.

(** *** Mantissas that fit *)

Lemma fits_round_aux s mx e l :
  0 <= mx -> mantissa_fits (binary_round_aux 53 1024 s mx e l).
Proof.
  intros H. pose proof (binary_round_aux_shape s mx e l H) as A.
  destruct (binary_round_aux 53 1024 s mx e l); cbn; tauto.
Qed.

Lemma fits_normalize m e s : mantissa_fits (binary_normalize 53 1024 m e s).
Proof.
  destruct m as [|p|p]; cbn [binary_normalize]; [exact I| |].
  - pose proof (binary_round_shape false p e) as A.
    destruct (binary_round 53 1024 false p e); cbn; tauto.
  - pose proof (binary_round_shape true p e) as A.
    destruct (binary_round 53 1024 true p e); cbn; tauto.
Qed.

Lemma fits_of_int i : mantissa_fits (Float64.of_int i).
Proof. apply fits_normalize. Qed.

Lemma fits_add x y :
  mantissa_fits x -> mantissa_fits y -> mantissa_fits (SFadd 53 1024 x y).
Proof.
  intros Hx Hy.
  destruct x as [sx|sx| |sx mx ex], y as [sy|sy| |sy my ey];
    try destruct sx; try destruct sy; cbn [SFadd mantissa_fits];
    try exact I; try assumption; apply fits_normalize.
Qed.

Lemma fits_sub x y :
  mantissa_fits x -> mantissa_fits y -> mantissa_fits (SFsub 53 1024 x y).
Proof.
  intros Hx Hy.
  destruct x as [sx|sx| |sx mx ex], y as [sy|sy| |sy my ey];
    try destruct sx; try destruct sy; cbn [SFsub mantissa_fits];
    try exact I; try assumption; apply fits_normalize.
Qed.

Lemma fits_div x y : mantissa_fits (SFdiv 53 1024 x y).
Proof.
  destruct x as [sx|sx| |sx mx ex], y as [sy|sy| |sy my ey];
    cbn [SFdiv mantissa_fits]; try exact I.
  unfold SFdiv_core_binary.
  set (m' := match _ - _ with Z0 => Zpos mx | Zpos _ => _ | Zneg _ => 0 end).
  assert (Hm : 0 <= m').
  { unfold m'. destruct (_ - _); [lia| |lia].
    rewrite Z.shiftl_mul_pow2 by lia.
    assert (0 < 2 ^ Zpos p) by (apply Z.pow_pos_nonneg; lia). nia. }
  pose proof (Z.div_pos m' (Zpos my) Hm ltac:(lia)) as Hq.
  unfold Z.div in Hq.
  destruct (Z.div_eucl m' (Zpos my)) as [q r]. cbn [fst] in Hq.
  now apply fits_round_aux.
Qed.

Lemma fits_double x : is_double x -> mantissa_fits x.
Proof.
  unfold is_double. destruct x as [s|s| |s m e]; cbn; try tauto.
  unfold bounded, canonical_mantissa. intros H.
  apply andb_true_iff in H. destruct H as [H _]. apply Z.eqb_eq in H.
  pose proof (fexp_bounds (Zpos (digits2_pos m) + e)) as [F _].
  unfold Float64.prec, Float64.emax in H. lia.
Qed.

Section FloatOffsets.
Variable pow2 : spec_float -> spec_float.
Let num : Num spec_float := binary64_pow pow2.

Lemma fits_offsets (rect : Rect.t spec_float) (w : Word.t spec_float) :
  rect_of_doubles rect -> word_of_doubles w ->
  mantissa_fits (@offset_x _ num rect w)
  /\ mantissa_fits (@offset_y _ num rect w).
Proof.
  intros [R1 [R2 [R3 R4]]] [W1 [W2 [W3 W4]]].
  unfold offset_x, offset_y, word_center, rect_center. cbn [fst snd].
  cbn [fsub fadd fdiv fofZ num binary64_pow]. unfold Float64.div.
  split; apply fits_sub; try apply fits_div;
    apply fits_add; try apply fits_div; now apply fits_double.
Qed.
End FloatOffsets.
(** *** Magnitudes *)

Lemma of_int_260 :
  Float64.of_int 260 = S754_finite false 4573968371548160 (-44).
Proof. vm_compute. reflexivity. Qed.

Lemma of_int_1e12 :
  Float64.of_int (10 ^ 12) = S754_finite false 8192000000000000 (-13).
Proof. vm_compute. reflexivity. Qed.

Lemma under_mono k k' x : k <= k' -> under k x -> under k' x.
Proof.
  intros H. destruct x as [s|s| |s m e]; cbn; try tauto.
  intros [U|[U1 U2]]; [now left|right; lia].
Qed.

(** An offset that passes the proximity test is below 512 in magnitude. *)
Lemma near_under x :
  mantissa_fits x ->
  SFltb (SFabs x) (Float64.of_int 260) = true -> under 9 (SFabs x).
Proof.
  intros Hf H. rewrite of_int_260 in H. apply SFltb_key in H.
  destruct x as [s|s| |s m e]; cbn in *; try tauto; lia.
Qed.

(** A number below [2 ^ 21] is below [1e12]. *)
Lemma under_below_initial x :
  under 21 x -> SFltb x (Float64.of_int (10 ^ 12)) = true.
Proof.
  intros H. rewrite of_int_1e12. apply SFltb_key.
  destruct x as [s|s| |s m e]; cbn in *; try tauto; try lia.
  - subst s. cbn. lia.
  - destruct s; cbn; [lia|]. destruct H as [H|H]; [discriminate|lia].
Qed.

Lemma under_add a b :
  under 19 a -> under 19 b -> under 21 (SFadd 53 1024 a b).
Proof.
  intros Ha Hb.
  destruct a as [sa|sa| |sa ma ea], b as [sb|sb| |sb mb eb];
    cbn [under] in Ha, Hb; try tauto; subst;
    try (cbn [SFadd]; first [exact I | reflexivity]);
    try (destruct sa; cbn [SFadd under]; tauto);
    try (destruct sb; cbn [SFadd under]; tauto).
  - destruct sa, sb; exact I.
  - cbn [SFadd]. apply (under_mono 19); [lia|exact Hb].
  - cbn [SFadd]. apply (under_mono 19); [lia|exact Ha].
  - cbn [SFadd].
    set (ez := Z.min ea eb).
    rewrite !shl_align_value by (unfold ez; lia).
    set (A := Zpos ma * 2 ^ (ea - ez)). set (B := Zpos mb * 2 ^ (eb - ez)).
    assert (PA : 0 < A)
      by (unfold A; assert (0 < 2 ^ (ea - ez))
            by (apply Z.pow_pos_nonneg; unfold ez; lia); nia).
    assert (PB : 0 < B)
      by (unfold B; assert (0 < 2 ^ (eb - ez))
            by (apply Z.pow_pos_nonneg; unfold ez; lia); nia).
    assert (UA : sa = false -> ez <= -34 /\ A < 2 ^ (19 - ez)).
    { intros ->. destruct Ha as [Ha|[D E]]; [discriminate|].
      split; [unfold ez; lia|]. unfold A.
      pose proof (digits2_pos_bounds ma) as [_ Hi].
      assert (2 ^ Zpos (digits2_pos ma) <= 2 ^ 53)
        by (apply Z.pow_le_mono_r; lia).
      assert (E2 : 2 ^ (19 - ez) = 2 ^ (19 - ea) * 2 ^ (ea - ez))
        by (rewrite <- Z.pow_add_r by (unfold ez; lia); f_equal; lia).
      assert (2 ^ 53 <= 2 ^ (19 - ea)) by (apply Z.pow_le_mono_r; lia).
      assert (0 < 2 ^ (ea - ez)) by (apply Z.pow_pos_nonneg; unfold ez; lia).
      rewrite E2. nia. }
    assert (UB : sb = false -> ez <= -34 /\ B < 2 ^ (19 - ez)).
    { intros ->. destruct Hb as [Hb|[D E]]; [discriminate|].
      split; [unfold ez; lia|]. unfold B.
      pose proof (digits2_pos_bounds mb) as [_ Hi].
      assert (2 ^ Zpos (digits2_pos mb) <= 2 ^ 53)
        by (apply Z.pow_le_mono_r; lia).
      assert (E2 : 2 ^ (19 - ez) = 2 ^ (19 - eb) * 2 ^ (eb - ez))
        by (rewrite <- Z.pow_add_r by (unfold ez; lia); f_equal; lia).
      assert (2 ^ 53 <= 2 ^ (19 - eb)) by (apply Z.pow_le_mono_r; lia).
      assert (0 < 2 ^ (eb - ez)) by (apply Z.pow_pos_nonneg; unfold ez; lia).
      rewrite E2. nia. }
    clearbody A B ez. clear Ha Hb.
    set (M := cond_Zopp sa A + cond_Zopp sb B).
    assert (HM : 0 < M -> ez <= -34 /\ M < 2 ^ (20 - ez)).
    { intros P. unfold M in *.
      assert (E2 : ez <= -34 -> 2 ^ (20 - ez) = 2 * 2 ^ (19 - ez))
        by (intros L; rewrite <- Z.pow_succ_r by lia; f_equal; lia).
      destruct sa, sb; cbn [cond_Zopp] in *.
      - lia.
      - destruct (UB eq_refl) as [L U]. split; [exact L|].
        rewrite (E2 L). lia.
      - destruct (UA eq_refl) as [L U]. split; [exact L|].
        rewrite (E2 L). lia.
      - destruct (UA eq_refl) as [L U]. destruct (UB eq_refl) as [_ U'].
        split; [exact L|]. rewrite (E2 L). lia. }
    clearbody M. destruct M as [|p|p]; cbn [binary_normalize].
    + exact I.
    + destruct (HM ltac:(lia)) as [L U].
      pose proof (binary_round_shape false p ez) as S.
      pose proof (digits2_pos_le p (20 - ez) ltac:(lia) U) as D.
      pose proof (fexp_bounds (Zpos (digits2_pos p) + ez)) as [_ [_ F]].
      destruct (binary_round 53 1024 false p ez) as [s|s| |s m e];
        cbn [under]; try tauto.
      * destruct S as [-> S]. lia.
      * destruct S as [-> [S1 S2]]. right. lia.
    + pose proof (binary_round_shape true p ez) as S.
      destruct (binary_round 53 1024 true p ez) as [s|s| |s m e];
        cbn [under]; tauto.
Qed.

(** The correctly rounded product is a squaring function in the sense
    above. *)
Lemma rounded_square_like : square_like rounded_square.
Proof.
  intros x H. unfold rounded_square.
  destruct x as [s|s| |s m e]; cbn [SFabs under] in H;
    [exact I|discriminate H|destruct H|].
  destruct H as [H|[D E]]; [discriminate|].
  unfold Float64.prec, Float64.emax. cbn [SFmul].
  pose proof (binary_round_aux_shape (xorb s s) (Zpos (m * m)) (e + e)
                loc_Exact ltac:(lia)) as S.
  cbn [Zdigits2] in S.
  assert (DD : Zpos (digits2_pos (m * m)) <= 106).
  { apply digits2_pos_le; [lia|]. rewrite Pos2Z.inj_mul.
    pose proof (digits2_pos_bounds m) as [_ Hi].
    assert (2 ^ Zpos (digits2_pos m) <= 2 ^ 53)
      by (apply Z.pow_le_mono_r; lia).
    assert (2 ^ 106 = 2 ^ 53 * 2 ^ 53) by reflexivity. nia. }
  pose proof (fexp_bounds (Zpos (digits2_pos (m * m)) + (e + e)))
    as [_ [_ F]].
  replace (xorb s s) with false in * by (destruct s; reflexivity).
  destruct (binary_round_aux 53 1024 false (Zpos (m * m)) (e + e)
              loc_Exact) as [s'|s'| |s' m' e']; cbn [under]; try tauto.
  - destruct S as [_ S]. lia.
  - destruct S as [_ [S1 S2]]. right. lia.
Qed.
(** *** The laws hold of the doubles *)

Lemma binary64_laws (pow2 : spec_float -> spec_float) :
  square_like pow2 ->
  NumLaws spec_float (num := binary64_pow pow2) mantissa_fits.
Proof.
  intros Hsq.
  assert (B : forall dx dy,
            mantissa_fits dx -> mantissa_fits dy ->
            near (num := binary64_pow pow2) dx dy = true ->
            SFltb (sqdist (num := binary64_pow pow2) dx dy)
                  (Float64.of_int (10 ^ 12)) = true).
  { intros dx dy Rx Ry N. unfold near in N.
    cbn [fltb fabs fofZ binary64_pow] in N.
    apply andb_true_iff in N. destruct N as [Ny Nx].
    apply under_below_initial. unfold sqdist.
    cbn [fadd fsqr binary64_pow].
    apply under_add; apply Hsq; now apply near_under. }
  split.
  - exact SFltb_irrefl.
  - exact SFltb_trans.
  - intros a b dx dy Rx Ry N Hab. cbn [fltb binary64_pow] in *.
    exact (SFltb_comparable a b _ _ (B dx dy Rx Ry N) Hab).
  - intros dx dy Rx Ry N. exact (B dx dy Rx Ry N).
Qed.



(** ** The scenarios of the specification, run on binary64 *)

Example locator_scenario :
  nearest_color_label [slate_far; charcoal_near] sample_rect None
  = Ok (Some "Charcoal")
  /\ nearest_color_label [slate_far] sample_rect None = Ok None
  /\ nearest_color_label [charcoal_near] sample_rect (Some ["Slate"])
     = Ok None
  /\ nearest_color_label [] sample_rect None = Ok None.
Proof. repeat split; vm_compute; reflexivity. Qed.

Example labelled_run_scenario :
  main (Some two_page_doc) empty_world
  = (Ok tt,
     {| dirs := ["swatches"; "swatches_raw"; "swatches/Timberline HDZ"];
        files := [("swatches/Timberline HDZ/Barkwood.png",
                   Pixmap.mk 300 300 3 []);
                  ("swatches_raw/page01_xref1_w300_h300.png",
                   Pixmap.mk 300 300 3 [])];
        stdout := ["Done. Matched swatches: 1, Unlabeled (swatches_raw): 1";
                   HINT];
        decodes := [1; 1] |}).
Proof. vm_compute. reflexivity. Qed.

(** * Further properties *)

(** ** The normal form of a text *)

Lemma isspace_lower_char c : Py.isspace (Py.lower_char c) = Py.isspace c.
Proof.
  destruct c as [b0 b1 b2 b3 b4 b5 b6 b7].
  destruct b0, b1, b2, b3, b4, b5, b6, b7; reflexivity.
Qed.

Lemma lower_char_idem c : Py.lower_char (Py.lower_char c) = Py.lower_char c.
Proof.
  destruct c as [b0 b1 b2 b3 b4 b5 b6 b7].
  destruct b0, b1, b2, b3, b4, b5, b6, b7; reflexivity.
Qed.

Lemma lower_idem t : Py.lower (Py.lower t) = Py.lower t.
Proof.
  induction t as [|c t IH]; cbn [Py.lower]; [reflexivity|].
  now rewrite lower_char_idem, IH.
Qed.

Lemma lower_sub_ws_runs t : forall r,
  Py.sub_ws_runs r (Py.lower t) = Py.lower (Py.sub_ws_runs r t).
Proof.
  induction t as [|c t IH]; intros r; cbn [Py.lower Py.sub_ws_runs];
    [reflexivity|].
  rewrite isspace_lower_char. destruct (Py.isspace c).
  - destruct r; cbn [Py.lower]; now rewrite IH.
  - cbn [Py.lower]. now rewrite IH.
Qed.

Lemma lower_lstrip t : Py.lstrip (Py.lower t) = Py.lower (Py.lstrip t).
Proof.
  induction t as [|c t IH]; cbn [Py.lower Py.lstrip]; [reflexivity|].
  rewrite isspace_lower_char. destruct (Py.isspace c); [exact IH | reflexivity].
Qed.

Lemma lower_rstrip t : Py.rstrip (Py.lower t) = Py.lower (Py.rstrip t).
Proof.
  induction t as [|c t IH]; cbn [Py.lower Py.rstrip]; [reflexivity|].
  rewrite IH, isspace_lower_char.
  destruct (Py.rstrip t); cbn [Py.lower]; [|reflexivity].
  destruct (Py.isspace c); reflexivity.
Qed.

Lemma norm_lower t : norm (Some (Py.lower t)) = norm (Some t).
Proof.
  unfold norm, Py.strip, Py.re_sub_ws. rewrite !or_empty_Some.
  now rewrite lower_sub_ws_runs, lower_lstrip, lower_rstrip, lower_idem.
Qed.

Lemma sub_ws_runs_idem t :
  (forall r, Py.sub_ws_runs false (Py.sub_ws_runs r t) = Py.sub_ws_runs r t)
  /\ Py.sub_ws_runs true (Py.sub_ws_runs true t) = Py.sub_ws_runs true t.
Proof.
  induction t as [|c t [IH1 IH2]]; [split; [intros r|]; reflexivity|].
  split; [intros r|]; cbn [Py.sub_ws_runs]; destruct (Py.isspace c) eqn:Ec.
  - destruct r; [apply IH1|].
    cbn [Py.sub_ws_runs]. rewrite isspace_space. now rewrite IH2.
  - cbn [Py.sub_ws_runs]. rewrite Ec. now rewrite IH1.
  - exact IH2.
  - cbn [Py.sub_ws_runs]. rewrite Ec. now rewrite IH1.
Qed.

Lemma norm_collapse t : norm (Some (Py.re_sub_ws t)) = norm (Some t).
Proof.
  unfold norm, Py.re_sub_ws. rewrite !or_empty_Some.
  now rewrite (proj1 (sub_ws_runs_idem t)).
Qed.

Lemma norm_norm s : norm (Some (norm s)) = norm s.
Proof.
  unfold norm at 2. rewrite norm_lower, norm_strip, norm_collapse.
  unfold norm. now rewrite or_empty_Some.
Qed.

(** X2.  [norm] is idempotent, and it does not tell a text from its
    lower-cased, its stripped or its whitespace-collapsed form. *)
Theorem norm_idempotent_insensitive (s : option string) (t : string) :
  norm (Some (norm s)) = norm s
  /\ norm (Some (Py.lower t)) = norm (Some t)
  /\ norm (Some (Py.strip t)) = norm (Some t)
  /\ norm (Some (Py.re_sub_ws t)) = norm (Some t).
Proof.
  repeat split.
  - apply norm_norm.
  - apply norm_lower.
  - apply norm_strip.
  - apply norm_collapse.
Qed.

Lemma sub_ws_runs_single_spaced t :
  (forall r, single_spaced (Py.sub_ws_runs r t) = true)
  /\ starts_space (Py.sub_ws_runs true t) = false.
Proof.
  induction t as [|c t [IH1 IH2]]; [split; [intros r|]; reflexivity|].
  split; [intros r|]; cbn [Py.sub_ws_runs]; destruct (Py.isspace c) eqn:Ec.
  - destruct r; [apply IH1|].
    cbn [single_spaced]. rewrite isspace_space, IH2, IH1. reflexivity.
  - cbn [single_spaced]. rewrite Ec, IH1. reflexivity.
  - exact IH2.
  - cbn [starts_space]. exact Ec.
Qed.

Lemma single_spaced_lstrip s :
  single_spaced s = true -> single_spaced (Py.lstrip s) = true.
Proof.
  induction s as [|c s IH]; intros H; [reflexivity|].
  cbn [Py.lstrip]. destruct (Py.isspace c); [|exact H].
  apply IH. cbn [single_spaced] in H. now apply andb_true_iff in H.
Qed.

Lemma lstrip_solid_or_empty s :
  Py.lstrip s = "" \/ starts_solid (Py.lstrip s) = true.
Proof.
  induction s as [|c s IH]; [now left|].
  cbn [Py.lstrip]. destruct (Py.isspace c) eqn:Ec; [exact IH|].
  right. cbn [starts_solid]. now rewrite Ec.
Qed.

Lemma rstrip_head s d u :
  Py.rstrip s = String d u -> exists s', s = String d s'.
Proof.
  destruct s as [|c s]; [discriminate|]. cbn [Py.rstrip].
  destruct (Py.rstrip s); [destruct (Py.isspace c)|];
    intros [= <- _]; try discriminate; now exists s.
Qed.

Lemma rstrip_tight s :
  single_spaced s = true -> tight (Py.rstrip s) = true.
Proof.
  induction s as [|c s IH]; intros H; [reflexivity|].
  cbn [single_spaced] in H. apply andb_true_iff in H. destruct H as [Hc Hs].
  cbn [Py.rstrip]. specialize (IH Hs).
  destruct (Py.rstrip s) as [|d u] eqn:Er.
  - destruct (Py.isspace c) eqn:Ec; [reflexivity|].
    cbn [tight]. now rewrite Ec.
  - cbn [tight]. cbn [tight] in IH. rewrite IH, andb_true_r.
    destruct (Py.isspace c); [|reflexivity].
    apply andb_true_iff in Hc. destruct Hc as [Hsp Hn]. rewrite Hsp.
    destruct (rstrip_head _ _ _ Er) as [s' ->]. cbn [starts_space] in Hn.
    cbn [starts_solid andb]. exact Hn.
Qed.

Lemma rstrip_solid s :
  starts_solid s = true -> starts_solid (Py.rstrip s) = true.
Proof.
  destruct s as [|c s]; [discriminate|]. cbn [starts_solid Py.rstrip].
  intros H. apply negb_true_iff in H.
  destruct (Py.rstrip s); rewrite ?H; cbn [starts_solid]; now rewrite H.
Qed.

Lemma lower_plain s : plain_name s = true -> plain_name (Py.lower s) = true.
Proof.
  unfold plain_name. intros H. apply andb_true_iff in H. destruct H as [H1 H2].
  assert (Hs : forall x, starts_solid (Py.lower x) = starts_solid x).
  { intros [|c x]; [reflexivity|]. cbn. now rewrite isspace_lower_char. }
  rewrite Hs, H1. cbn [andb]. clear H1.
  induction s as [|c s IH]; [reflexivity|].
  cbn [tight] in H2. apply andb_true_iff in H2. destruct H2 as [Hc Ht].
  cbn [Py.lower tight]. rewrite IH by assumption. rewrite andb_true_r.
  rewrite isspace_lower_char. destruct (Py.isspace c); [|reflexivity].
  apply andb_true_iff in Hc. destruct Hc as [Hsp Hn].
  apply Ascii.eqb_eq in Hsp. subst c. now rewrite Hs, Hn.
Qed.

Lemma append_nil_r (s : string) : s ++ "" = s.
Proof. induction s as [|c s IH]; cbn; congruence. Qed.

Lemma tight_rstrip s : tight s = true -> Py.rstrip s = s.
Proof.
  induction s as [|c s IH]; intros H; [reflexivity|].
  cbn [tight] in H. apply andb_true_iff in H. destruct H as [Hc Ht].
  cbn [Py.rstrip]. rewrite (IH Ht). destruct s as [|d s]; [|reflexivity].
  destruct (Py.isspace c); [|reflexivity].
  apply andb_true_iff in Hc. destruct Hc as [_ Hc]. discriminate.
Qed.

Lemma plain_fixed s :
  plain_name s = true ->
  Py.re_sub_ws s = s /\ Py.strip s = s.
Proof.
  unfold plain_name. intros H. apply andb_true_iff in H. destruct H as [H1 H2].
  split.
  - unfold Py.re_sub_ws. rewrite <- (append_nil_r s) at 1.
    rewrite sub_ws_runs_tight by assumption. cbn. apply append_nil_r.
  - unfold Py.strip. destruct s as [|c s]; [discriminate|].
    cbn [starts_solid] in H1. apply negb_true_iff in H1.
    cbn [Py.lstrip]. rewrite H1. now apply tight_rstrip.
Qed.

(** X1.  A normal form is empty or a plain text: it starts and ends with a
    character that is not whitespace, its only whitespace is single spaces
    between such characters, and it has no upper-case letter.  Each of the
    three passes of [norm] leaves it as it is. *)
Theorem norm_normal_form (s : option string) :
  (norm s = "" \/ plain_name (norm s) = true)
  /\ Py.re_sub_ws (norm s) = norm s
  /\ Py.strip (norm s) = norm s
  /\ Py.lower (norm s) = norm s.
Proof.
  assert (Hshape : norm s = "" \/ plain_name (norm s) = true).
  { unfold norm, Py.strip, Py.re_sub_ws.
    set (u := Py.sub_ws_runs false (Py.or_empty s)).
    assert (Hu : single_spaced (Py.lstrip u) = true)
      by (apply single_spaced_lstrip, sub_ws_runs_single_spaced).
    destruct (lstrip_solid_or_empty u) as [E|E].
    - left. rewrite E. reflexivity.
    - right. apply lower_plain. unfold plain_name.
      now rewrite rstrip_solid, rstrip_tight. }
  split; [exact Hshape|].
  destruct Hshape as [E|Hp].
  - rewrite E. repeat split.
  - destruct (plain_fixed _ Hp) as [E1 E2]. repeat split; try assumption.
    unfold norm. apply lower_idem.
Qed.

(** ** Series detection over any table of names *)

Lemma insert_len_desc_In x y l :
  In x (Py.insert_len_desc y l) <-> x = y \/ In x l.
Proof.
  induction l as [|z l IH]; cbn [Py.insert_len_desc].
  - cbn. intuition.
  - destruct (String.length y <? String.length z)%nat; cbn [In].
    + rewrite IH. intuition.
    + intuition.
Qed.

Lemma sorted_len_desc_In x xs : In x (Py.sorted_len_desc xs) <-> In x xs.
Proof.
  induction xs as [|y xs IH]; cbn [Py.sorted_len_desc]; [reflexivity|].
  rewrite insert_len_desc_In, IH. cbn. intuition.
Qed.

Lemma insert_len_desc_sorted y l :
  StronglySorted (fun a b => (String.length b <= String.length a)%nat) l ->
  StronglySorted (fun a b => (String.length b <= String.length a)%nat)
                 (Py.insert_len_desc y l).
Proof.
  induction l as [|z l IH]; intros Hs; cbn [Py.insert_len_desc].
  - constructor; constructor.
  - inversion Hs as [|? ? Hl Hz]; subst.
    destruct (Nat.ltb_spec (String.length y) (String.length z)) as [Hlt|Hge].
    + constructor; [now apply IH|].
      apply Forall_forall. intros x Hx. apply insert_len_desc_In in Hx.
      destruct Hx as [->|Hx]; [lia|].
      rewrite Forall_forall in Hz. now apply Hz.
    + constructor; [exact Hs|]. constructor; [exact Hge|].
      rewrite Forall_forall in Hz |- *. intros x Hx. specialize (Hz x Hx). lia.
Qed.

Lemma sorted_len_desc_sorted xs :
  StronglySorted (fun a b => (String.length b <= String.length a)%nat)
                 (Py.sorted_len_desc xs).
Proof.
  induction xs as [|y xs IH]; cbn [Py.sorted_len_desc]; [constructor|].
  now apply insert_len_desc_sorted.
Qed.

Lemma insert_len_desc_of_length n y l :
  of_length n (Py.insert_len_desc y l) = of_length n (y :: l).
Proof.
  unfold of_length. induction l as [|z l IH]; cbn [Py.insert_len_desc];
    [reflexivity|].
  destruct (Nat.ltb_spec (String.length y) (String.length z)) as [Hlt|Hge];
    [|reflexivity].
  cbn [filter] in *. rewrite IH.
  destruct (Nat.eqb_spec (String.length y) n) as [Ey|Ey];
    destruct (Nat.eqb_spec (String.length z) n) as [Ez|Ez];
    try reflexivity; lia.
Qed.

(** The sort is stable: names of one length keep their order. *)
Lemma sorted_len_desc_stable n xs :
  of_length n (Py.sorted_len_desc xs) = of_length n xs.
Proof.
  induction xs as [|y xs IH]; cbn [Py.sorted_len_desc]; [reflexivity|].
  rewrite insert_len_desc_of_length. unfold of_length in *. cbn [filter].
  now rewrite IH.
Qed.

Lemma detect_loop_split t l s :
  detect_loop t l = Some s ->
  exists pre post,
    l = (pre ++ s :: post)%list
    /\ Py.contains (norm (Some s)) t = true
    /\ Forall (fun x => Py.contains (norm (Some x)) t = false) pre.
Proof.
  induction l as [|x l IH]; cbn [detect_loop]; [discriminate|].
  destruct (Py.contains (norm (Some x)) t) eqn:Ex.
  - intros [= ->]. exists [], l. repeat split; auto.
  - intros H. destruct (IH H) as [pre [post [-> [Hs Hp]]]].
    exists (x :: pre), post. repeat split; auto.
Qed.

(** X3.  Whatever the table of names, the detector answers with a name of
    the table that occurs in the text and is as long (by its length as
    written) as any name of the table that occurs there; among the names of
    its length it is the first in table order that occurs.  It answers none
    exactly when no name of the table occurs. *)
Theorem detect_series_in_longest (names : list string) (text : option string) :
  (forall s,
     detect_series_in names text = Some s ->
     In s names /\ occurs_in s text = true
     /\ (forall s', In s' names -> occurs_in s' text = true ->
                    (String.length s' <= String.length s)%nat)
     /\ exists before after,
          of_length (String.length s) names = (before ++ s :: after)%list
          /\ Forall (fun x => occurs_in x text = false) before)
  /\ (detect_series_in names text = None <->
      forall s, In s names -> occurs_in s text = false)
  /\ detect_series text = detect_series_in SERIES_NAMES text.
Proof.
  split; [|split; [|reflexivity]].
  - intros s H. unfold detect_series_in in H.
    destruct (detect_loop_split _ _ _ H) as [pre [post [El [Hs Hp]]]].
    assert (Hin : In s names).
    { apply sorted_len_desc_In. rewrite El. apply in_elt. }
    split; [exact Hin|]. split; [exact Hs|]. split.
    + intros s' Hs' Ho. apply sorted_len_desc_In in Hs'. rewrite El in Hs'.
      pose proof (sorted_len_desc_sorted names) as Hsorted. rewrite El in Hsorted.
      apply in_app_or in Hs'. destruct Hs' as [Hs'|[<-|Hs']].
      * rewrite Forall_forall in Hp. specialize (Hp s' Hs').
        unfold occurs_in in Ho. congruence.
      * lia.
      * clear -Hsorted Hs'. induction pre as [|p pre IH]; cbn in Hsorted.
        -- inversion Hsorted as [|? ? _ Hall]; subst.
           rewrite Forall_forall in Hall. now apply Hall.
        -- inversion Hsorted; subst. now apply IH.
    + exists (of_length (String.length s) pre),
             (of_length (String.length s) post).
      rewrite <- (sorted_len_desc_stable _ names), El.
      unfold of_length. rewrite filter_app. cbn [filter].
      rewrite Nat.eqb_refl. split; [reflexivity|].
      apply Forall_forall. intros x Hx. apply filter_In in Hx.
      rewrite Forall_forall in Hp. now apply Hp.
  - unfold detect_series_in. rewrite detect_loop_None. unfold occurs_in.
    split; intros H s Hs; apply H; now apply sorted_len_desc_In.
Qed.

Lemma detect_series_in_longest_witness :
  In "Royal" ["Royal"; "Royal Sovereign"; "Grand Sequoia"]
  /\ occurs_in "Royal" (Some "ROYAL  slate") = true
  /\ (forall s', In s' ["Royal"; "Royal Sovereign"; "Grand Sequoia"] ->
                 occurs_in s' (Some "ROYAL  slate") = true ->
                 (String.length s' <= String.length "Royal")%nat)
  /\ exists before after,
       of_length (String.length "Royal")
                 ["Royal"; "Royal Sovereign"; "Grand Sequoia"]
       = (before ++ "Royal" :: after)%list
       /\ Forall (fun x => occurs_in x (Some "ROYAL  slate") = false) before.
Proof.
  apply (proj1 (detect_series_in_longest
                  ["Royal"; "Royal Sovereign"; "Grand Sequoia"]
                  (Some "ROYAL  slate")) "Royal").
  vm_compute. reflexivity.
Defined.

(** ** The colour locator on any arithmetic *)

Section LocatorAny.
Context {F : Type} {num : Num F}.
Variable allowed_colors : option (list string).
Variable rect : Rect.t F.

Lemma nearest_as_loop (words : list (Word.t F)) :
  nearest_color_label words rect allowed_colors =
  match locator_loop (fst (rect_center rect)) (snd (rect_center rect))
                     (allowed_set allowed_colors) (None, f1e12) words with
  | Ok (best_text, _) => Ok best_text
  | Raise e => Raise e
  end.
Proof. destruct words; reflexivity. Qed.

Lemma candidate_qualifies w :
  has_text w -> candidate allowed_colors rect w = true
                <-> qualifies allowed_colors rect w.
Proof. intros H. unfold candidate. now apply qualifies_tests. Qed.

Lemma locator_step_candidate best_text best_d w :
  has_text w ->
  locator_step (fst (rect_center rect)) (snd (rect_center rect))
               (allowed_set allowed_colors) (best_text, best_d) w
  = Ok (if candidate allowed_colors rect w
           && fltb (distance2 rect w) best_d
        then (Some (label_of w), distance2 rect w)
        else (best_text, best_d)).
Proof. intros H. now rewrite locator_step_text. Qed.

Lemma locator_loop_provenance (all : list (Word.t F)) l : forall best best',
  (forall w, In w l -> In w all) ->
  locator_loop (fst (rect_center rect)) (snd (rect_center rect))
               (allowed_set allowed_colors) best l = Ok best' ->
  (forall g, fst best = Some g ->
     exists w, In w all /\ has_text w /\ g = label_of w
               /\ qualifies allowed_colors rect w) ->
  forall g, fst best' = Some g ->
     exists w, In w all /\ has_text w /\ g = label_of w
               /\ qualifies allowed_colors rect w.
Proof.
  induction l as [|x l IH]; intros best best' Hin E Hb.
  - cbn in E. injection E as <-. exact Hb.
  - cbn [locator_loop] in E.
    destruct (Word.txt x) as [t|] eqn:Et.
    + assert (Hx : has_text x) by (unfold has_text; congruence).
      destruct best as [bt bd]. rewrite (locator_step_candidate bt bd x Hx) in E.
      apply (IH _ best' (fun w Hw => Hin w (or_intror Hw)) E).
      destruct (candidate allowed_colors rect x) eqn:Ec; [|exact Hb].
      destruct (fltb (distance2 rect x) bd); [|exact Hb].
      intros g [= <-]. exists x. split; [apply Hin; now left|].
      split; [exact Hx|]. split; [reflexivity|]. now apply candidate_qualifies.
    + unfold locator_step in E. destruct best. rewrite Et in E. discriminate.
Qed.

Lemma locator_loop_filter l : forall best,
  Forall has_text l ->
  locator_loop (fst (rect_center rect)) (snd (rect_center rect))
               (allowed_set allowed_colors) best
               (filter (candidate allowed_colors rect) l)
  = locator_loop (fst (rect_center rect)) (snd (rect_center rect))
                 (allowed_set allowed_colors) best l.
Proof.
  induction l as [|x l IH]; intros [bt bd] H; [reflexivity|].
  inversion H as [|? ? Hx Hl]; subst. cbn [filter locator_loop].
  destruct (candidate allowed_colors rect x) eqn:Ec.
  - cbn [locator_loop]. rewrite (locator_step_candidate bt bd x Hx).
    now rewrite IH.
  - rewrite (locator_step_candidate bt bd x Hx), Ec. cbn [andb]. now apply IH.
Qed.
End LocatorAny.

(** The word behind a returned label. *)
Lemma locator_label_source {F : Type} {num : Num F}
    (words : list (Word.t F)) (rect : Rect.t F)
    (allowed_colors : option (list string)) (g : string) :
  nearest_color_label words rect allowed_colors = Ok (Some g) ->
  exists w, In w words /\ has_text w /\ g = label_of w
            /\ qualifies allowed_colors rect w.
Proof.
  rewrite nearest_as_loop.
  destruct (locator_loop _ _ _ _ words) as [[bt bd]|e] eqn:E; [|discriminate].
  intros [= ->].
  apply (locator_loop_provenance allowed_colors rect words words
           (None, f1e12) (Some g, bd)); auto; discriminate.
Qed.

(** X4.  Whatever the arithmetic, a label that the locator returns is the
    stripped text of a word of the list that qualifies: its normal form is
    that of a colour of the vocabulary and both its offsets pass the
    proximity test.  The locator never returns a text from outside the
    vocabulary or from beyond the bound. *)
Theorem nearest_color_label_provenance {F : Type} {num : Num F}
    (words : list (Word.t F)) (rect : Rect.t F)
    (allowed_colors : option (list string)) (g : string) :
  nearest_color_label words rect allowed_colors = Ok (Some g) ->
  exists w, In w words /\ has_text w /\ g = label_of w
            /\ qualifies allowed_colors rect w.
Proof. apply locator_label_source. Qed.

Lemma nearest_color_label_provenance_witness :
  exists w, In w [slate_far; charcoal_near] /\ has_text w
            /\ "Charcoal" = label_of w /\ qualifies None sample_rect w.
Proof.
  apply (nearest_color_label_provenance [slate_far; charcoal_near]
           sample_rect None "Charcoal").
  vm_compute. reflexivity.
Defined.

(** X5.  Whatever the arithmetic, the words that are not in the vocabulary
    or that fail the proximity test have no influence: on words that all
    carry a text, dropping them from the list leaves the answer as it is. *)
Theorem nearest_color_label_ignores_others {F : Type} {num : Num F}
    (words : list (Word.t F)) (rect : Rect.t F)
    (allowed_colors : option (list string)) :
  Forall has_text words ->
  nearest_color_label (filter (candidate allowed_colors rect) words) rect
                      allowed_colors
  = nearest_color_label words rect allowed_colors
  /\ forall w, In w words ->
       (candidate allowed_colors rect w = true
        <-> qualifies allowed_colors rect w).
Proof.
  intros H. split.
  - rewrite !nearest_as_loop. now rewrite locator_loop_filter.
  - intros w Hw. apply candidate_qualifies.
    rewrite Forall_forall in H. now apply H.
Qed.

Lemma nearest_color_label_ignores_others_witness :
  nearest_color_label
    (filter (candidate None sample_rect) [slate_far; charcoal_near])
    sample_rect None
  = nearest_color_label [slate_far; charcoal_near] sample_rect None
  /\ forall w, In w [slate_far; charcoal_near] ->
       (candidate None sample_rect w = true <-> qualifies None sample_rect w).
Proof.
  apply (nearest_color_label_ignores_others [slate_far; charcoal_near]
           sample_rect None).
  repeat constructor; discriminate.
Defined.

(** *** Single tokens *)

Lemma no_whitespace_sub_ws_runs t : forall r,
  no_whitespace t = true -> Py.sub_ws_runs r t = t.
Proof.
  induction t as [|c t IH]; intros r H; [reflexivity|].
  cbn [no_whitespace] in H. apply andb_true_iff in H. destruct H as [Hc Ht].
  apply negb_true_iff in Hc. cbn [Py.sub_ws_runs]. rewrite Hc.
  now rewrite IH.
Qed.

Lemma no_whitespace_strip t : no_whitespace t = true -> Py.strip t = t.
Proof.
  intros H. unfold Py.strip.
  assert (El : Py.lstrip t = t).
  { destruct t as [|c t]; [reflexivity|]. cbn [no_whitespace] in H.
    apply andb_true_iff in H. destruct H as [Hc _].
    apply negb_true_iff in Hc. cbn [Py.lstrip]. now rewrite Hc. }
  rewrite El. induction t as [|c t IH]; [reflexivity|].
  cbn [no_whitespace] in H. apply andb_true_iff in H. destruct H as [Hc Ht].
  apply negb_true_iff in Hc. cbn [Py.rstrip].
  assert (Et : Py.lstrip t = t).
  { destruct t as [|d t]; [reflexivity|]. cbn [no_whitespace] in Ht.
    apply andb_true_iff in Ht. destruct Ht as [Hd _].
    apply negb_true_iff in Hd. cbn [Py.lstrip]. now rewrite Hd. }
  rewrite (IH Ht Et). destruct t; [now rewrite Hc | reflexivity].
Qed.

Lemma no_whitespace_lower t : no_whitespace (Py.lower t) = no_whitespace t.
Proof.
  induction t as [|c t IH]; [reflexivity|].
  cbn [Py.lower no_whitespace]. now rewrite isspace_lower_char, IH.
Qed.

Lemma no_whitespace_norm t :
  no_whitespace t = true -> norm (Some t) = Py.lower t.
Proof.
  intros H. unfold norm, Py.re_sub_ws. rewrite or_empty_Some.
  now rewrite no_whitespace_sub_ws_runs, no_whitespace_strip.
Qed.

(** X6.  When every word is a single token, as the parser gives them, a
    label that the locator returns is a single token too, and its lower-case
    form is the normal form of a one-word colour of the vocabulary: a colour
    whose name holds a space is never found. *)
Theorem nearest_color_label_single_token {F : Type} {num : Num F}
    (words : list (Word.t F)) (rect : Rect.t F)
    (allowed_colors : option (list string)) (g : string) :
  single_tokens words ->
  nearest_color_label words rect allowed_colors = Ok (Some g) ->
  no_whitespace g = true
  /\ (exists color, In color (vocabulary allowed_colors)
                    /\ norm (Some color) = Py.lower g
                    /\ no_whitespace (norm (Some color)) = true)
  /\ forall color, no_whitespace (norm (Some color)) = false ->
                   norm (Some g) <> norm (Some color).
Proof.
  intros Htok E.
  destruct (locator_label_source words rect allowed_colors g E)
    as [w [Hw [Ht [-> [[color [Hc En]] _]]]]].
  unfold label_of. destruct (Word.txt w) as [t|] eqn:Et; [|now elim Ht].
  pose proof (Htok w t Hw Et) as Hn.
  rewrite or_empty_Some, (no_whitespace_strip t Hn).
  rewrite (no_whitespace_norm t Hn) in En.
  split; [exact Hn|]. split.
  - exists color. split; [exact Hc|]. split; [now symmetry|].
    now rewrite <- En, no_whitespace_lower.
  - intros color' Hc' Heq. rewrite (no_whitespace_norm t Hn) in Heq.
    rewrite <- Heq, no_whitespace_lower, Hn in Hc'. discriminate.
Qed.

Lemma nearest_color_label_single_token_witness :
  no_whitespace "Charcoal" = true
  /\ (exists color, In color (vocabulary None)
                    /\ norm (Some color) = Py.lower "Charcoal"
                    /\ no_whitespace (norm (Some color)) = true)
  /\ forall color, no_whitespace (norm (Some color)) = false ->
                   norm (Some "Charcoal") <> norm (Some color).
Proof.
  apply (nearest_color_label_single_token [slate_far; charcoal_near]
           sample_rect None "Charcoal").
  - intros w t [<-|[<-|[]]] [= <-]; reflexivity.
  - vm_compute. reflexivity.
Defined.

(** ** The geometry filter on scaled and turned images *)

Lemma is_square_swatch_cross pix :
  Pixmap.width pix < 2 ^ 31 -> Pixmap.height pix < 2 ^ 31 ->
  is_square_swatch pix = true <->
  180 <= Pixmap.width pix /\ 180 <= Pixmap.height pix
  /\ 17 * Pixmap.height pix <= 20 * Pixmap.width pix
  /\ 50 * Pixmap.width pix <= 59 * Pixmap.height pix.
Proof.
  intros Hw Hh. unfold is_square_swatch.
  destruct (Z.ltb_spec (Pixmap.width pix) 180) as [Hw'|Hw'];
    [cbn [orb]; split; [discriminate | lia]|].
  destruct (Z.ltb_spec (Pixmap.height pix) 180) as [Hh'|Hh'];
    [cbn [orb]; split; [discriminate | lia]|].
  cbn [orb]. rewrite ratio_band_float by lia. tauto.
Qed.

(** X7.  The filter looks at the shape only: an exact square of side 180 or
    more passes, and an image that passes still passes when both its
    dimensions are multiplied by the same factor (within the range of pixel
    dimensions), whatever its components and samples. *)
Theorem is_square_swatch_scale (w h k n n' : Z) (samples samples' : list Z) :
  1 <= k -> k * w < 2 ^ 31 -> k * h < 2 ^ 31 ->
  (180 <= w -> is_square_swatch (Pixmap.mk w w n samples) = true)
  /\ (is_square_swatch (Pixmap.mk w h n samples) = true ->
      is_square_swatch (Pixmap.mk (k * w) (k * h) n' samples') = true).
Proof.
  intros Hk Hw Hh. split.
  - intros H. apply is_square_swatch_cross; cbn [Pixmap.width Pixmap.height];
      nia.
  - intros H.
    assert (H0 : 180 <= w /\ 180 <= h).
    { unfold is_square_swatch in H. cbn [Pixmap.width Pixmap.height] in H.
      destruct (Z.ltb_spec w 180); [discriminate|].
      destruct (Z.ltb_spec h 180); [discriminate|]. lia. }
    apply is_square_swatch_cross in H;
      cbn [Pixmap.width Pixmap.height] in *; try nia.
    apply is_square_swatch_cross; cbn [Pixmap.width Pixmap.height]; nia.
Qed.

Lemma is_square_swatch_scale_witness :
  (180 <= 200 -> is_square_swatch (Pixmap.mk 200 200 3 []) = true)
  /\ (is_square_swatch (Pixmap.mk 200 200 3 []) = true ->
      is_square_swatch (Pixmap.mk (4 * 200) (4 * 200) 4 [0]) = true).
Proof.
  apply (is_square_swatch_scale 200 200 4 3 4 [] [0]); reflexivity || lia.
Defined.

(** X8.  The band is not symmetric about the square: an image and the same
    image turned by a quarter both pass exactly when both dimensions are at
    least 180 and each is at least 0.85 times the other.  An image whose
    ratio lies above 20/17, up to 1.18, passes while its turned form is
    rejected. *)
Theorem is_square_swatch_turned (w h n : Z) (samples : list Z) :
  w < 2 ^ 31 -> h < 2 ^ 31 ->
  (is_square_swatch (Pixmap.mk w h n samples) = true
   /\ is_square_swatch (Pixmap.mk h w n samples) = true
   <-> 180 <= w /\ 180 <= h /\ 17 * h <= 20 * w /\ 17 * w <= 20 * h)
  /\ (is_square_swatch (Pixmap.mk w h n samples) = true ->
      17 * w <= 20 * h \/ is_square_swatch (Pixmap.mk h w n samples) = false).
Proof.
  intros Hw Hh.
  pose proof (is_square_swatch_cross (Pixmap.mk w h n samples) Hw Hh) as A.
  pose proof (is_square_swatch_cross (Pixmap.mk h w n samples) Hh Hw) as B.
  cbn [Pixmap.width Pixmap.height] in A, B. split.
  - rewrite A, B. lia.
  - intros H. destruct (Z.le_gt_cases (17 * w) (20 * h)) as [Hle|Hgt];
      [now left|right].
    destruct (is_square_swatch (Pixmap.mk h w n samples)); [|reflexivity].
    destruct B as [B _]. specialize (B eq_refl). lia.
Qed.

Lemma is_square_swatch_turned_witness :
  (is_square_swatch (Pixmap.mk 236 200 3 []) = true
   /\ is_square_swatch (Pixmap.mk 200 236 3 []) = true
   <-> 180 <= 236 /\ 180 <= 200 /\ 17 * 200 <= 20 * 236 /\ 17 * 236 <= 20 * 200)
  /\ (is_square_swatch (Pixmap.mk 236 200 3 []) = true ->
      17 * 236 <= 20 * 200
      \/ is_square_swatch (Pixmap.mk 200 236 3 []) = false).
Proof.
  apply (is_square_swatch_turned 236 200 3 []); reflexivity.
Defined.
(** ** Further properties of the extraction driver *)

(** *** Directories *)

Lemma makedirs_In ds p d : In d (makedirs ds p) <-> d = p \/ In d ds.
Proof.
  unfold makedirs. destruct (Py.str_in p ds) eqn:E.
  - apply str_in_In in E. split; [now right|]. now intros [->|H].
  - rewrite in_app_iff. cbn. split; [intros [H|[H|[]]]|intros [H|H]]; auto.
Qed.

Lemma makedirs_known ds p : In p ds -> makedirs ds p = ds.
Proof.
  intros H. apply str_in_In in H. unfold makedirs. now rewrite H.
Qed.

Lemma makedirs_NoDup ds p : NoDup ds -> NoDup (makedirs ds p).
Proof.
  intros H. unfold makedirs. destruct (Py.str_in p ds) eqn:E; [exact H|].
  apply NoDup_app; [exact H|repeat constructor; intros []|].
  intros d Hd [<-|[]]. apply str_in_In in Hd. congruence.
Qed.

Lemma fold_makedirs_In (l : list string) : forall ds d,
  In d (fold_left makedirs l ds) <-> In d l \/ In d ds.
Proof.
  induction l as [|p l IH]; intros ds d; cbn [fold_left].
  - cbn. split; [now right|]. now intros [[]|H].
  - rewrite IH, makedirs_In. cbn. split.
    + intros [H|[H|H]]; auto.
    + intros [[H|H]|H]; auto.
Qed.

Lemma fold_makedirs_known (l : list string) : forall ds,
  (forall d, In d l -> In d ds) -> fold_left makedirs l ds = ds.
Proof.
  induction l as [|p l IH]; intros ds H; cbn [fold_left]; [reflexivity|].
  rewrite makedirs_known by (apply H; now left).
  apply IH. intros d Hd. apply H. now right.
Qed.

Lemma fold_makedirs_NoDup (l : list string) : forall ds,
  NoDup ds -> NoDup (fold_left makedirs l ds).
Proof.
  induction l as [|p l IH]; intros ds H; cbn [fold_left]; [exact H|].
  apply IH, makedirs_NoDup, H.
Qed.
(** *** Runs that need no text *)

Lemma made_concat es :
  made (effects_concat es) = flat_map made es.
Proof.
  induction es as [|e es IH]; [reflexivity|].
  cbn [flat_map]. rewrite <- IH. reflexivity.
Qed.

Section DriverRunWhereNeeded.
Context {F : Type} {num : Num F}.
Variable doc : Doc F.

(** The words of every page that shows a swatch carry a text. *)
Hypothesis texts_of_swatches :
  forall xref pidx rect pix,
    swatch_placement doc xref pidx rect pix ->
    Forall has_text (page_words doc pidx).

Lemma process_rect_filtered pidx xref series_hint words pix rect c w :
  is_square_swatch pix = false ->
  process_rect doc "swatches" "swatches_raw" pidx xref series_hint
               words pix rect c w
  = (Ok (add_counts c (rect_counts series_hint words pix rect)),
     apply_effects w (rect_effects doc pidx xref series_hint words pix rect)).
Proof.
  intros E. unfold process_rect, rect_counts, rect_effects. rewrite E.
  cbn [negb]. now rewrite add_counts_zero, apply_no_effects.
Qed.

Lemma process_page_where_needed xref pidx s w :
  In xref (objects doc) -> is_image_object doc xref = true ->
  In pidx (pages doc) ->
  process_page doc "swatches" "swatches_raw" xref pidx s w
  = (Ok (fst s || placed_on doc xref pidx,
         add_counts (snd s) (page_counts doc xref pidx)),
     apply_effects w (page_effects doc xref pidx)).
Proof.
  intros Hx Hi Hp.
  destruct s as [a c]. unfold process_page, page_counts, page_effects, placed_on.
  cbn [fst snd].
  destruct (get_image_rects doc pidx xref) as [|r rs] eqn:Er.
  - unfold ret. rewrite orb_false_r, apply_no_effects.
    destruct (load_pixmap doc xref); cbn [map sum_counts fold_right];
      now rewrite add_counts_zero.
  - unfold bind at 1. unfold decode. rewrite orb_true_r.
    destruct (load_pixmap doc xref) as [pix|e] eqn:El.
    + unfold bind.
      rewrite (for_each_effects _
                 (fun rect c => add_counts c
                    (rect_counts (detect_series (page_text doc pidx))
                                 (page_words doc pidx) pix rect))
                 (rect_effects doc pidx xref
                    (detect_series (page_text doc pidx))
                    (page_words doc pidx) pix)).
      * unfold ret. rewrite fold_add_counts. f_equal.
        rewrite <- apply_effects_app. f_equal.
        unfold apply_effects. cbn. now rewrite app_nil_r.
      * intros rect Hr c' w'.
        destruct (is_square_swatch pix) eqn:Es.
        -- apply process_rect_run.
           apply (texts_of_swatches xref pidx rect pix).
           unfold swatch_placement. rewrite Er. repeat split; auto.
        -- now apply process_rect_filtered.
    + unfold ret. rewrite add_counts_zero, effects_app_no_r.
      unfold apply_effects. cbn. now rewrite app_nil_r.
Qed.

Lemma process_xref_where_needed xref c w :
  In xref (objects doc) ->
  process_xref doc "swatches" "swatches_raw" xref c w
  = (Ok (add_counts c (xref_counts doc xref)),
     apply_effects w (xref_effects doc xref)).
Proof.
  intros Hx.
  unfold process_xref, xref_counts, xref_effects.
  pose proof (eq_refl (is_image_object doc xref)) as Hi.
  unfold is_image_object at 1 in Hi. unfold is_image_object.
  destruct (xref_get_key doc xref "Subtype") as [kv|e].
  - rewrite or_empty_Some.
    destruct (Py.contains "/Image" (snd kv)); cbn [negb].
    + unfold bind.
      rewrite (for_each_effects _
                 (fun pidx s =>
                    (fst s || placed_on doc xref pidx,
                     add_counts (snd s) (page_counts doc xref pidx)))
                 (page_effects doc xref))
        by (intros pidx Hp s w'; apply process_page_where_needed; auto).
      fold (pages doc).
      pose proof (fold_pages_counts doc xref (pages doc) (false, c)) as E.
      destruct (fold_left _ (pages doc) (false, c)) as [a c'].
      cbn [snd] in E. subst c'. destruct a; reflexivity.
    + unfold ret. now rewrite add_counts_zero, apply_no_effects.
  - unfold ret. now rewrite add_counts_zero, apply_no_effects.
Qed.

Lemma extract_where_needed w : extract doc w = (Ok tt, after_run doc w).
Proof.
  unfold extract, after_run. unfold bind at 1. unfold ensure_dir at 1.
  unfold bind at 1. unfold ensure_dir at 1. unfold bind at 1.
  rewrite (for_each_effects _
             (fun xref c => add_counts c (xref_counts doc xref))
             (xref_effects doc))
    by (intros xref Hx c w'; now apply process_xref_where_needed).
  fold (objects doc). fold (run_effects doc).
  rewrite fold_add_counts. fold (run_counts doc).
  unfold bind, print, add_counts, HINT.
  cbn [dirs files stdout decodes saved_swatches saved_raw].
  rewrite !Z.add_0_l, <- apply_effects_app, <- app_assoc.
  f_equal. unfold apply_effects.
  cbn [dirs files stdout decodes made written decoded fold_left app append].
  rewrite ?app_nil_r. reflexivity.
Qed.
End DriverRunWhereNeeded.

Section RunDirs.
Context {F : Type} {num : Num F}.
Variable doc : Doc F.

(** The series directories a run asks for are those of its confidently
    labelled placements. *)
Lemma in_run_made d :
  In d (made (run_effects doc)) <->
  exists xref pidx rect pix s g,
    swatch_placement doc xref pidx rect pix
    /\ detect_series (page_text doc pidx) = Some s
    /\ color_of (Some s) (page_words doc pidx) rect = Some g
    /\ d = "swatches/" ++ s.
Proof.
  unfold run_effects, swatch_placement.
  rewrite made_concat, in_flat_map. split.
  - intros [e [He Hin]]. apply in_map_iff in He.
    destruct He as [xref [<- Hx]]. unfold xref_effects in Hin.
    destruct (is_image_object doc xref) eqn:Ei; [|now destruct Hin].
    rewrite made_concat, in_flat_map in Hin.
    destruct Hin as [e [He Hin]]. apply in_map_iff in He.
    destruct He as [pidx [<- Hp]]. unfold page_effects, placed_on in Hin.
    destruct (get_image_rects doc pidx xref) as [|r rs] eqn:Er;
      [now destruct Hin|].
    cbn [made effects_app app] in Hin.
    destruct (load_pixmap doc xref) as [pix|e] eqn:El; [|now destruct Hin].
    rewrite made_concat, in_flat_map in Hin.
    destruct Hin as [e [He Hin]]. apply in_map_iff in He.
    destruct He as [rect [<- Hr]]. unfold rect_effects in Hin.
    destruct (is_square_swatch pix) eqn:Es; [|now destruct Hin].
    cbn [made] in Hin.
    destruct (detect_series (page_text doc pidx)) as [s|] eqn:Ed;
      [|now destruct Hin].
    destruct (color_of (Some s) (page_words doc pidx) rect) as [g|] eqn:Ec;
      [|now destruct Hin].
    destruct Hin as [<-|[]].
    exists xref, pidx, rect, pix, s, g. rewrite Er. repeat split; auto.
  - intros [xref [pidx [rect [pix [s [g
             [[Hx [Ei [Hp [Hr [El Es]]]]] [Ed [Ec ->]]]]]]]]].
    exists (xref_effects doc xref). split; [now apply in_map|].
    unfold xref_effects. rewrite Ei, made_concat, in_flat_map.
    exists (page_effects doc xref pidx). split; [now apply in_map|].
    unfold page_effects, placed_on.
    destruct (get_image_rects doc pidx xref) as [|r rs] eqn:Er;
      [now destruct Hr|].
    cbn [made effects_app app]. rewrite El, made_concat, in_flat_map.
    eexists. split; [apply in_map, Hr|].
    unfold rect_effects. rewrite Es. cbn [made]. rewrite Ed, Ec. now left.
Qed.
End RunDirs.
(** X10.  The geometry filter stands before the locator: the locator goes
    through the words of a page only for an image that passed the filter.  So a run ends
    normally, in the world [after_run], as soon as the words carry a text on
    every page that shows a swatch; what the other pages hold does not
    matter. *)
Theorem run_reads_words_of_swatch_pages {F : Type} {num : Num F}
    (doc : Doc F) (w : World) :
  (forall xref pidx rect pix,
     swatch_placement doc xref pidx rect pix ->
     Forall has_text (page_words doc pidx)) ->
  main (Some doc) w = (Ok tt, after_run doc w).
Proof.
  intros H. cbn [main]. now apply extract_where_needed.
Qed.

Lemma run_reads_words_of_swatch_pages_witness :
  ~ words_have_text thumbnail_doc
  /\ main (Some thumbnail_doc) empty_world
     = (Ok tt, after_run thumbnail_doc empty_world).
Proof.
  split.
  - intros H. specialize (H 0). inversion H as [|x l Hx _]. now apply Hx.
  - apply run_reads_words_of_swatch_pages.
    intros xref pidx rect pix [_ [_ [_ [_ [El Es]]]]].
    cbn in El. injection El as <-. vm_compute in Es. discriminate.
Defined.

Lemma nothing_in {A : Type} (l : list A) : (forall x, ~ In x l) -> l = [].
Proof.
  destruct l as [|a l]; [reflexivity|]. intros H. destruct (H a). now left.
Qed.

(** X11.  A document in which no placed image passes the geometry filter
    gives a run that ends normally, writes no file, makes the two root
    directories and nothing else, and reports zero for both counters. *)
Theorem run_without_swatches {F : Type} {num : Num F}
    (doc : Doc F) (w : World) :
  (forall xref pidx rect pix, ~ swatch_placement doc xref pidx rect pix) ->
  exists w',
    main (Some doc) w = (Ok tt, w')
    /\ files w' = files w
    /\ dirs w' = makedirs (makedirs (dirs w) "swatches") "swatches_raw"
    /\ stdout w'
       = (stdout w
          ++ ["Done. Matched swatches: 0, Unlabeled (swatches_raw): 0";
              HINT])%list.
Proof.
  intros H. exists (after_run doc w).
  assert (Hw : written (run_effects doc) = []).
  { apply nothing_in. intros [p img] Hin. apply in_run_written in Hin.
    destruct Hin as [xref [pidx [rect [pix [Hs _]]]]]. exact (H _ _ _ _ Hs). }
  assert (Hm : made (run_effects doc) = []).
  { apply nothing_in. intros d Hin. apply in_run_made in Hin.
    destruct Hin as [xref [pidx [rect [pix [s [g [Hs _]]]]]]].
    exact (H _ _ _ _ Hs). }
  assert (Hc : run_counts doc = (0, 0)).
  { destruct (tally_run doc) as [H1 [H2 _]]. rewrite Hw in H1, H2.
    destruct (run_counts doc) as [a b]. cbn in H1, H2. now subst. }
  split.
  - cbn [main]. apply extract_where_needed.
    intros xref pidx rect pix Hs. destruct (H _ _ _ _ Hs).
  - unfold after_run, apply_effects.
    cbn [dirs files stdout decodes made written effects_app app fold_left].
    rewrite Hw, Hm, Hc, app_nil_r. cbn [fold_left fst snd].
    repeat split; reflexivity.
Qed.

Lemma run_without_swatches_witness :
  exists w',
    main (Some thumbnail_doc) empty_world = (Ok tt, w')
    /\ files w' = []
    /\ dirs w' = ["swatches"; "swatches_raw"]
    /\ stdout w'
       = ["Done. Matched swatches: 0, Unlabeled (swatches_raw): 0"; HINT].
Proof.
  apply (run_without_swatches thumbnail_doc empty_world).
  intros xref pidx rect pix [_ [_ [_ [_ [El Es]]]]].
  cbn in El. injection El as <-. vm_compute in Es. discriminate.
Defined.
(** *** A second run *)

Lemma fs_lookup_app (a b : list (string * Pixmap.t)) (p : string) :
  fs_lookup (a ++ b) p
  = match fs_lookup b p with
    | Some img => Some img
    | None => fs_lookup a p
    end.
Proof.
  induction a as [|[q img] a IH]; cbn [app fs_lookup].
  - now destruct (fs_lookup b p).
  - rewrite IH. now destruct (fs_lookup b p).
Qed.

(** X12.  Running the program a second time on the same document, over what
    the first run left, ends normally again, writes the same files with the
    same content in the same order, prints the same two lines and makes no
    directory: every directory it asks for is there already.  The content
    found under each path is the same after the second run as after the
    first. *)
Theorem second_run_repeats_first {F : Type} {num : Num F}
    (doc : Doc F) (w : World) :
  words_have_text doc ->
  exists new lines w1 w2,
    main (Some doc) w = (Ok tt, w1)
    /\ main (Some doc) w1 = (Ok tt, w2)
    /\ files w1 = (files w ++ new)%list
    /\ files w2 = (files w1 ++ new)%list
    /\ stdout w1 = (stdout w ++ lines)%list
    /\ stdout w2 = (stdout w1 ++ lines)%list
    /\ dirs w2 = dirs w1
    /\ (forall p, fs_lookup (files w2) p = fs_lookup (files w1) p).
Proof.
  intros H.
  exists (written (run_effects doc)),
    [summary {| saved_swatches := fst (run_counts doc);
                saved_raw := snd (run_counts doc) |}; HINT],
    (after_run doc w), (after_run doc (after_run doc w)).
  split; [cbn [main]; now apply extract_run|].
  split; [cbn [main]; now apply extract_run|].
  unfold after_run, apply_effects.
  cbn [dirs files stdout decodes made written effects_app app].
  repeat split.
  - apply fold_makedirs_known. intros d Hd.
    apply fold_makedirs_In. now left.
  - intros p. rewrite (fs_lookup_app (files w ++ _)), fs_lookup_app.
    now destruct (fs_lookup (written (run_effects doc)) p).
Qed.

Lemma second_run_repeats_first_witness :
  exists new lines w1 w2,
    main (Some two_page_doc) empty_world = (Ok tt, w1)
    /\ main (Some two_page_doc) w1 = (Ok tt, w2)
    /\ files w1 = (files empty_world ++ new)%list
    /\ files w2 = (files w1 ++ new)%list
    /\ stdout w1 = (stdout empty_world ++ lines)%list
    /\ stdout w2 = (stdout w1 ++ lines)%list
    /\ dirs w2 = dirs w1
    /\ (forall p, fs_lookup (files w2) p = fs_lookup (files w1) p).
Proof.
  apply (second_run_repeats_first two_page_doc empty_world).
  intros pidx. unfold two_page_doc, page_words.
  destruct (pidx =? 0)%Z; repeat constructor. discriminate.
Defined.
(** *** Characters of file names *)

Lemma has_char_app c (a b : string) :
  has_char c (a ++ b) = has_char c a || has_char c b.
Proof.
  induction a as [|d a IH]; [reflexivity|].
  cbn [append has_char]. now rewrite IH, orb_assoc.
Qed.

Lemma isspace_not c d :
  Py.isspace c = false -> Py.isspace d = true -> Ascii.eqb d c = false.
Proof.
  intros Hc Hd. apply Ascii.eqb_neq. intros ->. congruence.
Qed.

Section SolidChar.
Variable c : ascii.
Hypothesis solid : Py.isspace c = false.
Hypothesis small : Py.lower_char c = c.

Lemma has_char_sub_ws_runs (s : string) : forall b,
  has_char c (Py.sub_ws_runs b s) = has_char c s.
Proof.
  induction s as [|d s IH]; intros b; [reflexivity|].
  cbn [Py.sub_ws_runs has_char]. destruct (Py.isspace d) eqn:Ed.
  - rewrite (isspace_not c d solid Ed). cbn [orb].
    destruct b; [apply IH|]. cbn [has_char]. rewrite IH.
    now rewrite (isspace_not c " " solid eq_refl).
  - cbn [has_char]. now rewrite IH.
Qed.

Lemma has_char_lstrip (s : string) : has_char c (Py.lstrip s) = has_char c s.
Proof.
  induction s as [|d s IH]; [reflexivity|].
  cbn [Py.lstrip has_char]. destruct (Py.isspace d) eqn:Ed; [|reflexivity].
  now rewrite (isspace_not c d solid Ed).
Qed.

Lemma has_char_rstrip (s : string) : has_char c (Py.rstrip s) = has_char c s.
Proof.
  induction s as [|d s IH]; [reflexivity|].
  cbn [Py.rstrip has_char]. rewrite <- IH.
  destruct (Py.rstrip s) as [|e r]; [|reflexivity].
  destruct (Py.isspace d) eqn:Ed; [|reflexivity].
  cbn [has_char]. now rewrite (isspace_not c d solid Ed).
Qed.

Lemma has_char_lower (s : string) :
  has_char c s = true -> has_char c (Py.lower s) = true.
Proof.
  induction s as [|d s IH]; [discriminate|].
  cbn [Py.lower has_char]. intros H. apply orb_true_iff in H.
  apply orb_true_iff. destruct H as [H|H]; [left|right; now apply IH].
  apply Ascii.eqb_eq in H. subst d. rewrite small. apply Ascii.eqb_refl.
Qed.

(** A character that is neither whitespace nor changed by [lower] survives
    normalisation. *)
Lemma has_char_norm (g : string) :
  has_char c g = true -> has_char c (norm (Some g)) = true.
Proof.
  intros H. unfold norm, Py.strip, Py.re_sub_ws. rewrite or_empty_Some.
  apply has_char_lower.
  now rewrite has_char_rstrip, has_char_lstrip, has_char_sub_ws_runs.
Qed.
End SolidChar.

Lemma uint_chars (u : Decimal.uint) c :
  has_char c (NilEmpty.string_of_uint u) = true ->
  In c ["0"; "1"; "2"; "3"; "4"; "5"; "6"; "7"; "8"; "9"]%char.
Proof.
  induction u as [|u IH|u IH|u IH|u IH|u IH|u IH|u IH|u IH|u IH|u IH];
    cbn [NilEmpty.string_of_uint has_char]; [discriminate|..];
    intros H; apply orb_true_iff in H;
    (destruct H as [H|H]; [apply Ascii.eqb_eq in H; subst c; cbn; tauto
                          |now apply IH]).
Qed.

Lemma str_of_int_chars (i : Z) c :
  has_char c (str_of_int i) = true ->
  In c ["-"; "0"; "1"; "2"; "3"; "4"; "5"; "6"; "7"; "8"; "9"]%char.
Proof.
  unfold str_of_int.
  assert (U : forall u, has_char c (NilZero.string_of_uint u) = true ->
                        In c ["0"; "1"; "2"; "3"; "4"; "5"; "6"; "7"; "8"; "9"]%char).
  { intros u. destruct u; try apply uint_chars.
    cbn [NilZero.string_of_uint has_char]. intros H. apply orb_true_iff in H. destruct H as [H|H]; [|discriminate].
    apply Ascii.eqb_eq in H. subst c. now left. }
  destruct (Z.to_int i) as [u|u]; cbn [NilZero.string_of_int has_char].
  - intros H. right. exact (U u H).
  - intros H. apply orb_true_iff in H. destruct H as [H|H].
    + apply Ascii.eqb_eq in H. subst c. now left.
    + right. exact (U u H).
Qed.

(** A character that is no digit and no sign is in no printed number. *)
Lemma number_free c (i : Z) :
  ~ In c ["-"; "0"; "1"; "2"; "3"; "4"; "5"; "6"; "7"; "8"; "9"]%char ->
  has_char c (str_of_int i) = false /\ has_char c (format_02d i) = false.
Proof.
  intros H.
  assert (A : has_char c (str_of_int i) = false).
  { destruct (has_char c (str_of_int i)) eqn:E; [|reflexivity].
    destruct (H (str_of_int_chars i c E)). }
  split; [exact A|]. unfold format_02d.
  destruct (String.length (str_of_int i) <? 2)%nat; [|exact A].
  cbn [append has_char]. rewrite A, orb_false_r.
  apply Ascii.eqb_neq. intros <-. apply H. cbn. tauto.
Qed.

Lemma raw_name_free c pidx xref pix :
  ~ In c ["-"; "0"; "1"; "2"; "3"; "4"; "5"; "6"; "7"; "8"; "9"]%char ->
  has_char c "page_xref_w_h.png" = false ->
  has_char c (raw_name pidx xref pix) = false.
Proof.
  intros H Hc. unfold raw_name.
  rewrite !has_char_app.
  rewrite (proj2 (number_free c pidx H)), !(proj1 (number_free c _ H)).
  cbn [has_char orb] in *.
  repeat (apply orb_false_iff in Hc; destruct Hc as [? Hc]).
  repeat (apply orb_false_iff; split); auto.
Qed.
(** *** Where the files lie *)

Lemma series_table_no_slash s :
  In s SERIES_NAMES ->
  has_char "/" s = false
  /\ exists c cs,
       Py.dict_get SERIES_COLORS s = Some (c :: cs)
       /\ forallb (fun x => negb (has_char "/" (norm (Some x)))) (c :: cs)
          = true.
Proof.
  intros Hs.
  assert (H : forallb (fun s =>
      negb (has_char "/" s)
      && match Py.dict_get SERIES_COLORS s with
         | Some (c :: cs) =>
             forallb (fun x => negb (has_char "/" (norm (Some x)))) (c :: cs)
         | _ => false
         end) SERIES_NAMES = true) by (vm_compute; reflexivity).
  rewrite forallb_forall in H. specialize (H s Hs).
  apply andb_true_iff in H. destruct H as [H1 H2].
  split; [now apply negb_true_iff|].
  destruct (Py.dict_get SERIES_COLORS s) as [[|c cs]|]; try discriminate.
  exists c, cs. auto.
Qed.

(** A label found under a known series holds no path separator. *)
Lemma series_label_no_slash {F : Type} {num : Num F}
    (words : list (Word.t F)) rect s g :
  In s SERIES_NAMES ->
  nearest_color_label words rect (colors_for (Some s)) = Ok (Some g) ->
  has_char "/" g = false.
Proof.
  intros Hs E. destruct (known_series_paths s Hs) as [Ht _].
  destruct (series_table_no_slash s Hs) as [_ [c [cs [Ed Hall]]]].
  unfold colors_for in E. rewrite Ht, Ed in E.
  apply nearest_color_label_in_allowed in E. cbn [allowed_set] in E.
  apply str_in_In, in_map_iff in E. destruct E as [color [En Hc]].
  rewrite forallb_forall in Hall. specialize (Hall color Hc).
  apply negb_true_iff in Hall. rewrite En in Hall.
  destruct (has_char "/" g) eqn:Eg; [|reflexivity].
  rewrite (has_char_norm "/" eq_refl eq_refl g Eg) in Hall. discriminate.
Qed.

(** X13.  Every file of a run lies directly inside a directory that the run
    has made: its path is a directory, a separator and a file name without
    separator, and the directory is there at the end of the run.  The
    directory is [swatches_raw] or [swatches/<series>] for a series of the
    table, itself a name without separator; so nothing is written outside
    the two trees, or deeper than one level below [swatches]. *)
Theorem files_lie_in_made_directories {F : Type} {num : Num F}
    (doc : Doc F) (w : World) :
  words_have_text doc ->
  exists new w',
    main (Some doc) w = (Ok tt, w')
    /\ files w' = (files w ++ new)%list
    /\ forall p img,
         In (p, img) new ->
         exists dir name,
           p = dir ++ "/" ++ name
           /\ In dir (dirs w')
           /\ has_char "/" name = false
           /\ (dir = "swatches_raw"
               \/ exists s, In s SERIES_NAMES /\ has_char "/" s = false
                            /\ dir = "swatches/" ++ s).
Proof.
  intros H. exists (written (run_effects doc)), (after_run doc w).
  split; [cbn [main]; now apply extract_run|].
  split.
  { unfold after_run, apply_effects.
    cbn [dirs files stdout decodes made written effects_app app].
    reflexivity. }
  intros p img Hin.
  assert (Hd : forall d,
            In d ["swatches"; "swatches_raw"] \/ In d (made (run_effects doc))
            -> In d (dirs (after_run doc w))).
  { intros d Hd. unfold after_run, apply_effects.
    cbn [dirs files stdout decodes made written effects_app].
    apply fold_makedirs_In. left. apply in_app_iff. exact Hd. }
  pose proof Hin as Hp. apply in_run_written in Hp.
  destruct Hp as [xref [pidx [rect [pix [Hs [-> _]]]]]].
  assert (Hraw :
    exists dir name,
      placement_path None None pidx xref pix = dir ++ "/" ++ name
      /\ In dir (dirs (after_run doc w))
      /\ has_char "/" name = false
      /\ (dir = "swatches_raw"
          \/ exists s, In s SERIES_NAMES /\ has_char "/" s = false
                       /\ dir = "swatches/" ++ s)).
  { exists "swatches_raw", (raw_name pidx xref pix).
    split; [reflexivity|]. split; [apply Hd; left; cbn; tauto|].
    split; [|now left].
    apply raw_name_free; [|reflexivity].
    cbn. intros K. repeat (destruct K as [K|K]; [discriminate K|]).
    exact K. }
  destruct (detect_series (page_text doc pidx)) as [s|] eqn:Es;
    [|exact Hraw].
  destruct (color_of (Some s) (page_words doc pidx) rect) as [g|] eqn:Ec;
    [|exact Hraw].
  pose proof (detect_series_known _ _ Es) as Hk.
  exists ("swatches/" ++ s), (g ++ ".png"). split; [|split; [|split]].
  - unfold placement_path. now rewrite append_assoc.
  - apply Hd. right. apply in_run_made.
    exists xref, pidx, rect, pix, s, g. auto.
  - rewrite has_char_app. cbn [has_char orb]. rewrite orb_false_r.
    change (Ascii.eqb "." "/") with false. cbn [orb].
    unfold color_of in Ec.
    destruct (nearest_color_label (page_words doc pidx) rect
                (colors_for (Some s))) as [o|e] eqn:En; [|discriminate].
    subst o. now apply (series_label_no_slash _ _ _ _ Hk En).
  - right. exists s. split; [exact Hk|]. split; [|reflexivity].
    apply series_table_no_slash, Hk.
Qed.

Lemma files_lie_in_made_directories_witness :
  exists new w',
    main (Some two_page_doc) empty_world = (Ok tt, w')
    /\ files w' = (files empty_world ++ new)%list
    /\ forall p img,
         In (p, img) new ->
         exists dir name,
           p = dir ++ "/" ++ name
           /\ In dir (dirs w')
           /\ has_char "/" name = false
           /\ (dir = "swatches_raw"
               \/ exists s, In s SERIES_NAMES /\ has_char "/" s = false
                            /\ dir = "swatches/" ++ s).
Proof.
  apply (files_lie_in_made_directories two_page_doc empty_world).
  intros pidx. unfold two_page_doc, page_words.
  destruct (pidx =? 0)%Z; repeat constructor. discriminate.
Defined.
(** *** Fallback names can be read back *)

Lemma to_int_nonnil (i : Z) :
  Z.to_int i <> Decimal.Pos Decimal.Nil /\ Z.to_int i <> Decimal.Neg Decimal.Nil.
Proof.
  destruct i as [|p|p]; cbn; split; try discriminate;
    intros [= H]; exact (DecimalPos.Unsigned.to_uint_nonnil p H).
Qed.

Lemma int_of_str_str_of_int (i : Z) : int_of_str (str_of_int i) = Some i.
Proof.
  unfold int_of_str, str_of_int.
  destruct (to_int_nonnil i) as [H1 H2].
  rewrite NilZero.isi by assumption. cbn [option_map].
  now rewrite DecimalZ.of_to.
Qed.

Lemma int_of_str_format_02d (i : Z) : int_of_str (format_02d i) = Some i.
Proof.
  unfold format_02d.
  destruct (String.length (str_of_int i) <? 2)%nat eqn:El;
    [|apply int_of_str_str_of_int].
  pose proof (DecimalZ.of_to i) as Hi.
  destruct (to_int_nonnil i) as [H1 H2].
  unfold int_of_str, str_of_int in *.
  destruct (Z.to_int i) as [u|u].
  - assert (Hu : u <> Decimal.Nil) by (intros ->; now apply H1).
    cbn [NilZero.string_of_int append] in *.
    unfold NilZero.int_of_string.
    change (Ascii.eqb "0" "-") with false. cbn iota.
    unfold NilZero.uint_of_string. cbn [NilEmpty.uint_of_string].
    replace (NilZero.string_of_uint u) with (NilEmpty.string_of_uint u)
      by (destruct u; try reflexivity; now destruct Hu).
    rewrite NilEmpty.usu. cbn [uint_of_char option_map].
    rewrite <- Hi. reflexivity.
  - assert (Hu : u <> Decimal.Nil) by (intros ->; now apply H2).
    cbn [NilZero.string_of_int String.length] in El.
    destruct u; try (now destruct Hu); cbn in El; discriminate El.
Qed.

Lemma drop_prefix_app (p s : string) : drop_prefix p (p ++ s) = Some s.
Proof.
  induction p as [|a p IH]; cbn [append drop_prefix]; [now destruct s|].
  now rewrite Ascii.eqb_refl.
Qed.

Lemma split_at_app c (a b : string) :
  has_char c a = false -> split_at c (a ++ String c b) = Some (a, b).
Proof.
  induction a as [|d a IH]; cbn [has_char append split_at]; intros H.
  - now rewrite Ascii.eqb_refl.
  - apply orb_false_iff in H. destruct H as [Hd Ha].
    now rewrite Hd, IH.
Qed.

Lemma parse_raw_name_raw_name pidx xref pix :
  parse_raw_name (raw_name pidx xref pix)
  = Some (pidx, xref, Pixmap.width pix, Pixmap.height pix).
Proof.
  assert (U : ~ In "_"%char
      ["-"; "0"; "1"; "2"; "3"; "4"; "5"; "6"; "7"; "8"; "9"]%char).
  { cbn. intros K. repeat (destruct K as [K|K]; [discriminate K|]). exact K. }
  assert (D : ~ In "."%char
      ["-"; "0"; "1"; "2"; "3"; "4"; "5"; "6"; "7"; "8"; "9"]%char).
  { cbn. intros K. repeat (destruct K as [K|K]; [discriminate K|]). exact K. }
  unfold parse_raw_name, raw_name.
  rewrite drop_prefix_app.
  change ("_xref" ++ ?x) with (String "_" ("xref" ++ x)).
  rewrite split_at_app by apply (number_free "_" pidx U).
  rewrite drop_prefix_app.
  change ("_w" ++ ?x) with (String "_" ("w" ++ x)).
  rewrite split_at_app by apply (number_free "_" xref U).
  rewrite drop_prefix_app.
  change ("_h" ++ ?x) with (String "_" ("h" ++ x)).
  rewrite split_at_app by apply (number_free "_" _ U).
  rewrite drop_prefix_app.
  change (".png") with (String "." "png").
  rewrite split_at_app by apply (number_free "." _ D).
  rewrite String.eqb_refl, int_of_str_format_02d, !int_of_str_str_of_int.
  reflexivity.
Qed.
Lemma raw_name_inj pidx xref pix pidx' xref' pix' :
  raw_name pidx xref pix = raw_name pidx' xref' pix' ->
  pidx = pidx' /\ xref = xref'
  /\ Pixmap.width pix = Pixmap.width pix'
  /\ Pixmap.height pix = Pixmap.height pix'.
Proof.
  intros E.
  pose proof (parse_raw_name_raw_name pidx xref pix) as P.
  rewrite E, parse_raw_name_raw_name in P.
  injection P as -> -> -> ->. auto.
Qed.

(** X14.  The name of a fallback file can be read back: cutting it at its
    fixed parts and reading the four numerals gives the page index, the
    xref, the width and the height it was built from, whatever their sign
    and size.  So two fallback names are equal only when these four numbers
    are. *)
Theorem raw_name_read_back (pidx xref : Z) (pix : Pixmap.t) :
  parse_raw_name (raw_name pidx xref pix)
  = Some (pidx, xref, Pixmap.width pix, Pixmap.height pix)
  /\ forall pidx' xref' pix',
       raw_name pidx xref pix = raw_name pidx' xref' pix' ->
       pidx = pidx' /\ xref = xref'
       /\ Pixmap.width pix = Pixmap.width pix'
       /\ Pixmap.height pix = Pixmap.height pix'.
Proof.
  split; [apply parse_raw_name_raw_name|].
  intros pidx' xref' pix'. apply raw_name_inj.
Qed.

Lemma raw_name_read_back_witness :
  raw_name 7 12 (Pixmap.mk 300 280 3 []) = "page07_xref12_w300_h280.png"
  /\ parse_raw_name "page07_xref12_w300_h280.png" = Some (7, 12, 300, 280)
  /\ (raw_name 7 12 (Pixmap.mk 300 280 3 [])
      = raw_name 7 12 (Pixmap.mk 300 280 4 [1]) ->
      7 = 7 /\ 12 = 12 /\ 300 = 300 /\ 280 = 280).
Proof.
  split; [reflexivity|]. split.
  - exact (proj1 (raw_name_read_back 7 12 (Pixmap.mk 300 280 3 []))).
  - exact (proj2 (raw_name_read_back 7 12 (Pixmap.mk 300 280 3 []))
             7 12 (Pixmap.mk 300 280 4 [1])).
Defined.

(** *** Files written more than once *)

Lemma length_append (a b : string) :
  String.length (a ++ b) = (String.length a + String.length b)%nat.
Proof. induction a as [|x a IH]; cbn; [reflexivity|now rewrite IH]. Qed.

Lemma append_same_length (a b c : string) :
  a ++ c = b ++ c -> String.length a = String.length b.
Proof.
  intros E. apply (f_equal String.length) in E.
  rewrite !length_append in E. lia.
Qed.

Lemma append_inj_r (c : string) : forall a b, a ++ c = b ++ c -> a = b.
Proof.
  induction a as [|x a IH]; intros b E;
    pose proof (append_same_length _ _ _ E) as L;
    destruct b as [|y b]; try discriminate L; [reflexivity|].
  cbn [append] in E. injection E as -> E. f_equal. now apply IH.
Qed.

Lemma labelled_paths_equal s g s' g' :
  has_char "/" s = false -> has_char "/" s' = false ->
  placement_path (Some s) (Some g) 0 0 (Pixmap.mk 0 0 0 [])
  = placement_path (Some s') (Some g') 0 0 (Pixmap.mk 0 0 0 []) ->
  s = s' /\ g = g'.
Proof.
  intros Hs Hs' E. unfold placement_path in E.
  apply (f_equal (drop_prefix "swatches/")) in E.
  rewrite !drop_prefix_app in E. injection E as E.
  apply (f_equal (split_at "/")) in E.
  change ("/" ++ ?x) with (String "/" x) in E.
  rewrite !split_at_app in E by assumption.
  injection E as -> E. split; [reflexivity|].
  now apply append_inj_r in E.
Qed.

(** X15.  Two placements that pass the geometry filter are written to the
    same path in exactly two cases: both are labelled, with the same series
    and the same colour label; or both are unlabelled and lie on the same
    page as placements of the same object.  A labelled file and a fallback
    file never share a path, and neither do fallback files of different
    pages or objects. *)
Theorem placements_sharing_a_path {F : Type} {num : Num F} (doc : Doc F)
    (xref pidx : Z) (rect : Rect.t F) (pix : Pixmap.t)
    (xref' pidx' : Z) (rect' : Rect.t F) (pix' : Pixmap.t) :
  swatch_placement doc xref pidx rect pix ->
  swatch_placement doc xref' pidx' rect' pix' ->
  let series := detect_series (page_text doc pidx) in
  let color := color_of series (page_words doc pidx) rect in
  let series' := detect_series (page_text doc pidx') in
  let color' := color_of series' (page_words doc pidx') rect' in
  placement_path series color pidx xref pix
  = placement_path series' color' pidx' xref' pix'
  <-> (confident series color = true
       /\ series = series' /\ color = color')
      \/ (confident series color = false
          /\ confident series' color' = false
          /\ pidx = pidx' /\ xref = xref').
Proof.
  intros [_ [_ [_ [_ [El _]]]]] [_ [_ [_ [_ [El' _]]]]] series color series' color'.
  assert (Hs : forall s, series = Some s -> has_char "/" s = false).
  { intros s E. apply series_table_no_slash, (detect_series_known _ _ E). }
  assert (Hs' : forall s, series' = Some s -> has_char "/" s = false).
  { intros s E. apply series_table_no_slash, (detect_series_known _ _ E). }
  clearbody series color series' color'.
  assert (Hraw : forall sh col p x px,
            confident sh col = false ->
            placement_path sh col p x px
            = "swatches_raw/" ++ raw_name p x px).
  { intros sh col p x px Hc. destruct sh, col; try discriminate Hc;
      reflexivity. }
  split.
  - intros E.
    pose proof (proj1 (placement_path_kind series color pidx xref pix)) as K.
    pose proof (proj1 (placement_path_kind series' color' pidx' xref' pix'))
      as K'.
    rewrite E, K' in K.
    destruct (confident series color) eqn:Ec.
    + left. split; [reflexivity|].
      destruct series as [s|], color as [g|]; try discriminate Ec.
      destruct series' as [s'|], color' as [g'|]; try discriminate K.
      destruct (labelled_paths_equal s g s' g') as [-> ->]; auto.
    + right. rewrite (Hraw _ _ _ _ _ Ec), (Hraw _ _ _ _ _ K) in E.
      apply (f_equal (drop_prefix "swatches_raw/")) in E.
      rewrite !drop_prefix_app in E.
      apply (f_equal (fun o => match o with Some x => x | None => "" end))
        in E.
      cbv beta iota in E. apply raw_name_inj in E. tauto.
  - intros [[Ec [<- <-]]|[Ec [Ec' [<- <-]]]].
    + destruct series as [s|], color as [g|]; try discriminate Ec.
      reflexivity.
    + rewrite El in El'. injection El' as <-.
      now rewrite (Hraw _ _ _ _ _ Ec), (Hraw _ _ _ _ _ Ec').
Qed.

Lemma placements_sharing_a_path_witness :
  let rect := Rect.mk (Float64.of_int 10) (Float64.of_int 10)
                      (Float64.of_int 90) (Float64.of_int 90) in
  let pix := Pixmap.mk 300 300 3 [] in
  swatch_placement two_page_doc 1 0 rect pix
  /\ swatch_placement two_page_doc 1 1 rect pix
  /\ (placement_path (detect_series (page_text two_page_doc 0))
        (color_of (detect_series (page_text two_page_doc 0))
                  (page_words two_page_doc 0) rect) 0 1 pix
      = placement_path (detect_series (page_text two_page_doc 1))
          (color_of (detect_series (page_text two_page_doc 1))
                    (page_words two_page_doc 1) rect) 1 1 pix
      <-> (confident (detect_series (page_text two_page_doc 0))
             (color_of (detect_series (page_text two_page_doc 0))
                       (page_words two_page_doc 0) rect) = true
           /\ detect_series (page_text two_page_doc 0)
              = detect_series (page_text two_page_doc 1)
           /\ color_of (detect_series (page_text two_page_doc 0))
                       (page_words two_page_doc 0) rect
              = color_of (detect_series (page_text two_page_doc 1))
                         (page_words two_page_doc 1) rect)
          \/ (confident (detect_series (page_text two_page_doc 0))
                (color_of (detect_series (page_text two_page_doc 0))
                          (page_words two_page_doc 0) rect) = false
              /\ confident (detect_series (page_text two_page_doc 1))
                   (color_of (detect_series (page_text two_page_doc 1))
                             (page_words two_page_doc 1) rect) = false
              /\ 0 = 1 /\ 1 = 1)).
Proof.
  intros rect pix.
  assert (H0 : swatch_placement two_page_doc 1 0 rect pix).
  { unfold swatch_placement. repeat split; try (vm_compute; tauto). }
  assert (H1 : swatch_placement two_page_doc 1 1 rect pix).
  { unfold swatch_placement. repeat split; try (vm_compute; tauto). }
  split; [exact H0|]. split; [exact H1|].
  exact (placements_sharing_a_path two_page_doc 1 0 rect pix 1 1 rect pix
           H0 H1).
Defined.
(** *** Runs that are cut short *)

Lemma silent_refl w : silent_step w w.
Proof. split; [reflexivity|]. exists []. now rewrite app_nil_r. Qed.

Lemma silent_trans w1 w2 w3 :
  silent_step w1 w2 -> silent_step w2 w3 -> silent_step w1 w3.
Proof.
  intros [H1 [m1 F1]] [H2 [m2 F2]]. split; [congruence|].
  exists (m1 ++ m2)%list. now rewrite F2, F1, app_assoc.
Qed.

Lemma ends_ret {S : Type} e (s : S) : ends_or_raises e (ret s).
Proof.
  intros w. exists (Ok s), w. split; [reflexivity|].
  split; [apply silent_refl|]. right. now exists s.
Qed.

Lemma ends_bind {A B : Type} e (m : M A) (k : A -> M B) :
  ends_or_raises e m -> (forall a, ends_or_raises e (k a)) ->
  ends_or_raises e (bind m k).
Proof.
  intros Hm Hk w. destruct (Hm w) as [r [w1 [E [R O]]]].
  unfold bind. rewrite E. destruct O as [->|[a ->]].
  - exists (Raise e), w1. repeat split; try apply R. now left.
  - destruct (Hk a w1) as [r2 [w2 [E2 [R2 O2]]]].
    exists r2, w2. split; [exact E2|].
    split; [exact (silent_trans _ _ _ R R2)|exact O2].
Qed.

Lemma raises_bind {A B : Type} e (m : M A) (k : A -> M B) :
  always_raises e m -> always_raises e (bind m k).
Proof.
  intros Hm w. destruct (Hm w) as [w1 [E R]].
  unfold bind. rewrite E. now exists w1.
Qed.

Lemma raises_after {A B : Type} e (m : M A) (k : A -> M B) :
  ends_or_raises e m -> (forall a, always_raises e (k a)) ->
  always_raises e (bind m k).
Proof.
  intros Hm Hk w. destruct (Hm w) as [r [w1 [E [R O]]]].
  unfold bind. rewrite E. destruct O as [->|[a ->]].
  - now exists w1.
  - destruct (Hk a w1) as [w2 [E2 R2]].
    exists w2. split; [exact E2|exact (silent_trans _ _ _ R R2)].
Qed.

Lemma for_each_ends {A S : Type} e (body : A -> S -> M S) (xs : list A) :
  (forall x s, In x xs -> ends_or_raises e (body x s)) ->
  forall s, ends_or_raises e (for_each xs body s).
Proof.
  induction xs as [|x xs IH]; intros H s; cbn [for_each].
  - apply ends_ret.
  - apply ends_bind; [apply H; now left|].
    intros s'. apply IH. intros y s2 Hy. apply H. now right.
Qed.

(** A loop raises as soon as one of its turns does in every state. *)
Lemma for_each_raises {A S : Type} e (body : A -> S -> M S) (xs : list A) x0 :
  (forall x s, In x xs -> ends_or_raises e (body x s)) ->
  In x0 xs -> (forall s, always_raises e (body x0 s)) ->
  forall s, always_raises e (for_each xs body s).
Proof.
  induction xs as [|x xs IH]; intros H Hin H0 s; [destruct Hin|].
  cbn [for_each]. destruct Hin as [->|Hin].
  - apply raises_bind, H0.
  - apply raises_after; [apply H; now left|].
    intros s'. apply IH; auto. intros y s2 Hy. apply H. now right.
Qed.

Lemma texts_or_not {F : Type} (words : list (Word.t F)) :
  Forall has_text words \/ Exists (fun w => Word.txt w = None) words.
Proof.
  induction words as [|x l [IH|IH]].
  - left. constructor.
  - destruct (Word.txt x) eqn:E.
    + left. constructor; [unfold has_text; congruence|exact IH].
    + right. now constructor.
  - right. now constructor 2.
Qed.

Section CutShort.
Context {F : Type} {num : Num F}.
Variable doc : Doc F.

Lemma process_rect_ends out_root raw_root pidx xref series_hint
    (words : list (Word.t F)) pix rect c :
  ends_or_raises AttributeError
    (process_rect doc out_root raw_root pidx xref series_hint words pix
                  rect c).
Proof.
  intros w. unfold process_rect.
  destruct (is_square_swatch pix); cbn [negb]; [|apply ends_ret].
  destruct (texts_or_not words) as [Ht|Hn].
  - destruct (nearest_color_label_total words rect (colors_for series_hint)
                Ht) as [g Eg].
    unfold bind at 1. unfold lift. rewrite Eg.
    destruct (both_set series_hint g) as [[s g']|];
      unfold bind, ensure_dir, ret, save_pixmap, pix_save;
      cbn [dirs files stdout decodes];
      (eexists _, _; split; [reflexivity|]; split;
       [split; [reflexivity|eexists; reflexivity]
       |right; eexists; reflexivity]).
  - rewrite (nearest_color_label_raises words rect _ Hn).
    exists (Raise AttributeError), w. split; [reflexivity|].
    split; [apply silent_refl|now left].
Qed.

Lemma process_rect_raises out_root raw_root pidx xref series_hint
    (words : list (Word.t F)) pix rect c :
  is_square_swatch pix = true ->
  Exists (fun w => Word.txt w = None) words ->
  always_raises AttributeError
    (process_rect doc out_root raw_root pidx xref series_hint words pix
                  rect c).
Proof.
  intros Hs Hn w. unfold process_rect. rewrite Hs. cbn [negb].
  rewrite (nearest_color_label_raises words rect _ Hn).
  exists w. split; [reflexivity|apply silent_refl].
Qed.

Lemma decode_ends xref : ends_or_raises AttributeError (decode doc xref).
Proof.
  intros w. unfold decode. eexists _, _. split; [reflexivity|].
  split; [|right; eexists; reflexivity].
  split; [reflexivity|]. exists []. cbn. now rewrite app_nil_r.
Qed.

Lemma process_page_ends out_root raw_root xref pidx s :
  ends_or_raises AttributeError
    (process_page doc out_root raw_root xref pidx s).
Proof.
  destruct s as [a c]. unfold process_page.
  destruct (get_image_rects doc pidx xref) as [|r rs]; [apply ends_ret|].
  apply ends_bind; [apply decode_ends|].
  intros [pix|e]; [|apply ends_ret].
  apply ends_bind; [|intros c'; apply ends_ret].
  apply for_each_ends. intros rect c' _. apply process_rect_ends.
Qed.

Lemma process_page_raises out_root raw_root xref pidx rect pix s :
  In rect (get_image_rects doc pidx xref) ->
  load_pixmap doc xref = Ok pix -> is_square_swatch pix = true ->
  Exists (fun w => Word.txt w = None) (page_words doc pidx) ->
  always_raises AttributeError
    (process_page doc out_root raw_root xref pidx s).
Proof.
  intros Hr El Hs Hn. destruct s as [a c]. unfold process_page.
  destruct (get_image_rects doc pidx xref) as [|r rs] eqn:Er;
    [destruct Hr|].
  intros w. unfold bind at 1. unfold decode. rewrite El.
  match goal with
  | |- exists w', bind ?m ?k ?w0 = _ /\ _ =>
      destruct (raises_bind AttributeError m k
                  (for_each_raises AttributeError _ (r :: rs) rect
                     (fun x s _ => process_rect_ends _ _ _ _ _ _ _ x s)
                     Hr
                     (fun s => process_rect_raises _ _ _ _ _ _ _ rect s
                                 Hs Hn) c) w0) as [w' [E R]]
  end.
  exists w'. split; [exact E|].
  refine (silent_trans _ _ _ _ R). split; [reflexivity|].
  exists []. cbn. now rewrite app_nil_r.
Qed.

Lemma process_xref_ends out_root raw_root xref c :
  ends_or_raises AttributeError (process_xref doc out_root raw_root xref c).
Proof.
  unfold process_xref.
  destruct (xref_get_key doc xref "Subtype") as [kv|e]; [|apply ends_ret].
  destruct (negb _); [apply ends_ret|].
  apply ends_bind.
  - apply for_each_ends. intros pidx s _. apply process_page_ends.
  - intros [a c']. destruct (negb a); apply ends_ret.
Qed.

Lemma process_xref_raises out_root raw_root xref pidx rect pix c :
  is_image_object doc xref = true -> In pidx (pages doc) ->
  In rect (get_image_rects doc pidx xref) ->
  load_pixmap doc xref = Ok pix -> is_square_swatch pix = true ->
  Exists (fun w => Word.txt w = None) (page_words doc pidx) ->
  always_raises AttributeError (process_xref doc out_root raw_root xref c).
Proof.
  intros Hi Hp Hr El Hs Hn. unfold process_xref.
  unfold is_image_object in Hi.
  destruct (xref_get_key doc xref "Subtype") as [kv|e]; [|discriminate].
  rewrite or_empty_Some, Hi. cbn [negb].
  apply raises_bind.
  apply (for_each_raises AttributeError _ _ pidx).
  - intros p s _. apply process_page_ends.
  - exact Hp.
  - intros s. now apply (process_page_raises _ _ xref pidx rect pix).
Qed.

Lemma ensure_dir_ends p : ends_or_raises AttributeError (ensure_dir p).
Proof.
  intros w. unfold ensure_dir. eexists _, _. split; [reflexivity|].
  split; [|right; eexists; reflexivity].
  split; [reflexivity|]. exists []. cbn. now rewrite app_nil_r.
Qed.

Lemma extract_raises xref pidx rect pix :
  swatch_placement doc xref pidx rect pix ->
  Exists (fun w => Word.txt w = None) (page_words doc pidx) ->
  always_raises AttributeError (extract doc).
Proof.
  intros [Hx [Hi [Hp [Hr [El Hs]]]]] Hn. unfold extract.
  apply raises_after; [apply ensure_dir_ends|]. intros out_root.
  apply raises_after; [apply ensure_dir_ends|]. intros raw_root.
  apply raises_bind.
  apply (for_each_raises AttributeError _ _ xref).
  - intros x c _. apply process_xref_ends.
  - exact Hx.
  - intros c. now apply (process_xref_raises _ _ xref pidx rect pix).
Qed.
End CutShort.

(** X16.  A word record without text on a page that shows a swatch cuts the
    run short: [main] ends with an uncaught [AttributeError], exit status 1.
    Neither the summary nor the hint is printed, and the files written
    before that point stay.  With the converse above, a run ends normally
    exactly when every page showing a swatch has only words with text. *)
Theorem textless_word_cuts_run_short {F : Type} {num : Num F}
    (doc : Doc F) (w : World) (xref pidx : Z) (rect : Rect.t F)
    (pix : Pixmap.t) :
  swatch_placement doc xref pidx rect pix ->
  Exists (fun x => Word.txt x = None) (page_words doc pidx) ->
  exists w',
    main (Some doc) w = (Raise AttributeError, w')
    /\ exit_status (fst (main (Some doc) w)) = 1
    /\ stdout w' = stdout w
    /\ exists more, files w' = (files w ++ more)%list.
Proof.
  intros Hs Hn. cbn [main].
  destruct (extract_raises doc xref pidx rect pix Hs Hn w) as [w' [E [R1 R2]]].
  exists w'. rewrite E. repeat split; auto.
Qed.

Lemma textless_word_cuts_run_short_witness :
  exists w',
    main (Some textless_doc) empty_world = (Raise AttributeError, w')
    /\ exit_status (fst (main (Some textless_doc) empty_world)) = 1
    /\ stdout w' = stdout empty_world
    /\ exists more, files w' = (files empty_world ++ more)%list.
Proof.
  apply (textless_word_cuts_run_short textless_doc empty_world 1 0
           (Rect.mk (Float64.of_int 10) (Float64.of_int 10)
                    (Float64.of_int 90) (Float64.of_int 90))
           (Pixmap.mk 300 300 3 [])).
  - unfold swatch_placement. repeat split; try (vm_compute; tauto).
  - constructor. reflexivity.
Defined.
(** *** Labelled files and the taxonomy *)

Lemma dict_get_In {A : Type} (d : list (string * A)) k v :
  Py.dict_get d k = Some v -> In (k, v) d.
Proof.
  induction d as [|[k' v'] d IH]; cbn [Py.dict_get]; [discriminate|].
  destruct (String.eqb_spec k' k) as [->|_].
  - intros [= ->]. now left.
  - intros H. right. now apply IH.
Qed.

(** X17.  Every file a run writes into the labelled tree is named after a
    colour of the taxonomy, filed under its own series: its path is
    [swatches/<series>/<label>.png] where the series is a key of
    [SERIES_COLORS], it was detected on the page of the placement, and the
    label is, up to case and white space, one of the colours listed for
    that series. *)
Theorem labelled_files_follow_taxonomy {F : Type} {num : Num F}
    (doc : Doc F) (w : World) :
  words_have_text doc ->
  exists new w',
    main (Some doc) w = (Ok tt, w')
    /\ files w' = (files w ++ new)%list
    /\ forall p img,
         In (p, img) new -> labelled_path p = true ->
         exists series colors color label pidx,
           In (series, colors) SERIES_COLORS
           /\ In color colors
           /\ norm (Some label) = norm (Some color)
           /\ detect_series (page_text doc pidx) = Some series
           /\ p = "swatches/" ++ series ++ "/" ++ label ++ ".png".
Proof.
  intros H. exists (written (run_effects doc)), (after_run doc w).
  split; [cbn [main]; now apply extract_run|].
  split.
  { unfold after_run, apply_effects.
    cbn [dirs files stdout decodes made written effects_app app].
    reflexivity. }
  intros p img Hin Hl. apply in_run_written in Hin.
  destruct Hin as [xref [pidx [rect [pix [Hs [-> _]]]]]].
  rewrite (proj1 (placement_path_kind _ _ _ _ _)) in Hl.
  destruct (detect_series (page_text doc pidx)) as [s|] eqn:Es;
    [|discriminate Hl].
  destruct (color_of (Some s) (page_words doc pidx) rect) as [g|] eqn:Ec;
    [|discriminate Hl].
  pose proof (detect_series_known _ _ Es) as Hk.
  destruct (known_series_paths s Hk) as [Ht [_ [_ [_ [c [cs [Ed _]]]]]]].
  unfold color_of in Ec.
  destruct (nearest_color_label (page_words doc pidx) rect
              (colors_for (Some s))) as [o|e] eqn:En; [|discriminate].
  subst o. apply nearest_color_label_in_allowed in En.
  unfold colors_for in En. rewrite Ht, Ed in En. cbn [allowed_set] in En.
  apply str_in_In, in_map_iff in En. destruct En as [color [En Hc]].
  exists s, (c :: cs), color, g, pidx.
  split; [now apply dict_get_In|]. split; [exact Hc|].
  split; [now symmetry|]. split; [exact Es|reflexivity].
Qed.

Lemma labelled_files_follow_taxonomy_witness :
  exists new w',
    main (Some two_page_doc) empty_world = (Ok tt, w')
    /\ files w' = (files empty_world ++ new)%list
    /\ forall p img,
         In (p, img) new -> labelled_path p = true ->
         exists series colors color label pidx,
           In (series, colors) SERIES_COLORS
           /\ In color colors
           /\ norm (Some label) = norm (Some color)
           /\ detect_series (page_text two_page_doc pidx) = Some series
           /\ p = "swatches/" ++ series ++ "/" ++ label ++ ".png".
Proof.
  apply (labelled_files_follow_taxonomy two_page_doc empty_world).
  intros pidx. unfold two_page_doc, page_words.
  destruct (pidx =? 0)%Z; repeat constructor. discriminate.
Defined.

(** *** Series detection and normalised text *)

(** X18.  The series detector reads its text through [norm] only: it gives
    the same answer on a text, on its normal form, on its lower-case form
    and on the text with surrounding white space removed, for any table of
    names.  An absent text is read as the empty text. *)
Theorem detect_series_reads_normal_form (names : list string)
    (text : option string) (t : string) :
  detect_series_in names (Some (norm text)) = detect_series_in names text
  /\ detect_series_in names (Some (Py.lower t))
     = detect_series_in names (Some t)
  /\ detect_series_in names (Some (Py.strip t))
     = detect_series_in names (Some t)
  /\ detect_series_in names None = detect_series_in names (Some "")
  /\ detect_series (Some (norm text)) = detect_series text.
Proof.
  unfold detect_series, detect_series_in.
  rewrite norm_norm, norm_lower, norm_strip. repeat split.
Qed.
